(** * phosphor-bmc-code-mgmt: activation state machine, redundancy
      priorities and image registry

    A shallow embedding of [msl_verify.cpp], [item_updater.cpp] and
    [activation.cpp].  Integers of the program are [Z] with the wrap-around
    of their C++ type written out, [std::map<std::string, _>] is an
    association list in ascending key order, and every call that leaves the
    process (flash helper, serialisation, systemd, error reports) is
    recorded in an effect log carried by the [ItemUpdater] state. *)

From Stdlib Require Import ZArith List String Ascii Bool Lia Arith.
From Stdlib Require Import Sorting.Sorted Permutation.
Import ListNotations.

Local Open Scope string_scope.
Local Open Scope Z_scope.
Local Open Scope list_scope.

(** ** Small option monad: [None] stands for a C++ exception or for the
    dereference of a past-the-end iterator. *)

Definition obind {A B} (m : option A) (k : A -> option B) : option B :=
  match m with
  | Some a => k a
  | None => None
  end.

Notation "x <- m ;; k" := (obind m (fun x => k))
  (at level 61, m at next level, right associativity).

(** ** msl_verify.cpp *)

Module minimum_ship_level.

Record Version := mkVersion { major : Z; minor : Z; rev : Z }.

Definition compare (versionToCompare mslVersion : Version) : Z :=
  if major mslVersion <? major versionToCompare then 1
  else if major versionToCompare <? major mslVersion then -1
  else if minor mslVersion <? minor versionToCompare then 1
  else if minor versionToCompare <? minor mslVersion then -1
  else if rev mslVersion <? rev versionToCompare then 1
  else if rev versionToCompare <? rev mslVersion then -1
  else 0.

(** [std::stoi]: leading white space is skipped, an optional sign is read,
    then the longest run of decimal digits.  No digit at all raises
    [std::invalid_argument], a value outside [int] raises
    [std::out_of_range]; both are [None] here. *)

Definition isspace (c : ascii) : bool :=
  let n := nat_of_ascii c in
  (Nat.eqb n 32 || (Nat.leb 9 n && Nat.leb n 13))%bool.

Definition digit_of (c : ascii) : option Z :=
  let n := nat_of_ascii c in
  if (Nat.leb 48 n && Nat.leb n 57)%bool then Some (Z.of_nat n - 48) else None.

Fixpoint skip_space (s : string) : string :=
  match s with
  | String c s' => if isspace c then skip_space s' else s
  | EmptyString => s
  end.

(** [digits acc seen s]: value of the leading digit run of [s] on top of
    [acc]; [seen] tells whether a digit was already consumed. *)
Fixpoint digits (acc : Z) (seen : bool) (s : string) : option Z :=
  match s with
  | String c s' =>
      match digit_of c with
      | Some d => digits (10 * acc + d) true s'
      | None => if seen then Some acc else None
      end
  | EmptyString => if seen then Some acc else None
  end.

Definition INT_MIN : Z := - 2 ^ 31.
Definition INT_MAX : Z := 2 ^ 31 - 1.

Definition stoi (s : string) : option Z :=
  let s1 := skip_space s in
  let '(neg, s2) :=
    match s1 with
    | String "-" r => (true, r)
    | String "+" r => (false, r)
    | _ => (false, s1)
    end in
  v <- digits 0 false s2 ;;
  let r := if neg then - v else v in
  if ((INT_MIN <=? r) && (r <=? INT_MAX))%bool then Some r else None.

Section Policy.

(** Build configuration ([config.h]): the minimum ship level and the
    pattern that splits a version string. *)
Variable BMC_MSL : string.
Variable REGEX_BMC_MSL : string.

(** [std::regex_search(input, match, rx)] for a pattern compiled with
    [std::regex::extended]: [None] when there is no match, otherwise the
    text of the sub-matches by index. *)
Variable regex_search : string -> string -> option (nat -> string).

(** The three fields of [Version] are declared in [msl_verify.hpp];
    [narrow] is the implicit conversion from [int] to their type that
    the assignments in [parse] perform. *)
Variable narrow : Z -> Z.

Definition parse (inpVersion : string) : option Version :=
  let outVersion := mkVersion 0 0 0 in
  match regex_search REGEX_BMC_MSL inpVersion with
  | None => Some outVersion
  | Some m =>
      a <- stoi (m 2%nat) ;;
      b <- stoi (m 3%nat) ;;
      c <- stoi (m 4%nat) ;;
      Some (mkVersion (narrow a) (narrow b) (narrow c))
  end.

Definition verify (versionManifest : string) : option bool :=
  let msl := BMC_MSL in
  let mslRegex := REGEX_BMC_MSL in
  if ((msl =? "") || (mslRegex =? ""))%bool%string then Some true
  else
    mslVersion <- parse msl ;;
    actualVersion <- parse versionManifest ;;
    let rc := compare actualVersion mslVersion in
    if rc <? 0 then Some false else Some true.

End Policy.

(** Lexicographic order on (major, minor, rev), as the specification
    words the comparison. *)
Definition tuple_lt (a b : Version) : Prop :=
  major a < major b \/
  (major a = major b /\
   (minor a < minor b \/ (minor a = minor b /\ rev a < rev b))).

(** The matcher used to run the policy on concrete strings.  It stands
    for [std::regex_search] with the one pattern [dotted_pattern]: a
    string matches when it is three runs of digits separated by dots and
    nothing else, sub-match 1 is the whole string, sub-matches 2, 3 and 4
    are the runs, and a sub-match beyond them is empty.  The pattern
    argument is not interpreted. *)
Definition dotted_pattern : string := "^(([0-9]+)\.([0-9]+)\.([0-9]+))$".

Fixpoint all_digits (s : string) : bool :=
  match s with
  | EmptyString => true
  | String c r =>
      match digit_of c with
      | Some _ => all_digits r
      | None => false
      end
  end.

Definition digit_run (s : string) : bool :=
  match s with
  | EmptyString => false
  | _ => all_digits s
  end.

Fixpoint split_dot (cur : string) (s : string) : list string :=
  match s with
  | EmptyString => [cur]
  | String "." r => cur :: split_dot "" r
  | String c r => split_dot (cur ++ String c "")%string r
  end.

Definition dotted_search (_pattern input : string) : option (nat -> string) :=
  match split_dot "" input with
  | [a; b; c] =>
      if (digit_run a && digit_run b && digit_run c)%bool
      then Some (fun i => match i with
                          | 0%nat | 1%nat => input
                          | 2%nat => a | 3%nat => b | 4%nat => c
                          | _ => "" end)
      else None
  | _ => None
  end.

Definition uint8_of_int (z : Z) : Z := z mod 256.

End minimum_ship_level.


(** ** Data model of item_updater.cpp and activation.cpp *)

Inductive Activations := Invalid | Ready | Activating | Active | Failed.

Inductive RequestedActivations := ReqNone | ReqActive.

Inductive VersionPurpose := Unknown | BMC | Host | System.

Definition Activations_eqb (a b : Activations) : bool :=
  match a, b with
  | Invalid, Invalid | Ready, Ready | Activating, Activating
  | Active, Active | Failed, Failed => true
  | _, _ => false
  end.

Definition VersionPurpose_eqb (a b : VersionPurpose) : bool :=
  match a, b with
  | Unknown, Unknown | BMC, BMC | Host, Host | System, System => true
  | _, _ => false
  end.

(** [phosphor::software::manager::Version], the fields the updater reads. *)
Record VersionClass := mkVersionClass {
  version : string;
  purpose : VersionPurpose;
  isFunctional : bool
}.

(** One [Activation] object.  [activation] and [requestedActivation] are
    the properties held by the D-Bus base class
    ([softwareServer::Activation::activation()] and
    [::requestedActivation()]); [redundancyPriority] is the
    [unique_ptr<RedundancyPriority>], [Some p] being an object whose
    [priority()] is the [uint8_t] [p]. *)
Record Activation := mkActivation {
  versionId : string;
  path : string;
  activation : Activations;
  requestedActivation : RequestedActivations;
  redundancyPriority : option Z;
  activationProgress : option Z;
  activationBlocksTransition : bool;
  rwVolumeCreated : bool;
  roVolumeCreated : bool;
  ubootEnvVarsUpdated : bool
}.

Definition set_activation (v : Activations) (a : Activation) : Activation :=
  mkActivation (versionId a) (path a) v (requestedActivation a)
    (redundancyPriority a) (activationProgress a)
    (activationBlocksTransition a) (rwVolumeCreated a) (roVolumeCreated a)
    (ubootEnvVarsUpdated a).

Definition set_requestedActivation (v : RequestedActivations) (a : Activation)
  : Activation :=
  mkActivation (versionId a) (path a) (activation a) v
    (redundancyPriority a) (activationProgress a)
    (activationBlocksTransition a) (rwVolumeCreated a) (roVolumeCreated a)
    (ubootEnvVarsUpdated a).

Definition set_redundancyPriority (v : option Z) (a : Activation) : Activation :=
  mkActivation (versionId a) (path a) (activation a) (requestedActivation a)
    v (activationProgress a)
    (activationBlocksTransition a) (rwVolumeCreated a) (roVolumeCreated a)
    (ubootEnvVarsUpdated a).

Definition set_activationProgress (v : option Z) (a : Activation) : Activation :=
  mkActivation (versionId a) (path a) (activation a) (requestedActivation a)
    (redundancyPriority a) v
    (activationBlocksTransition a) (rwVolumeCreated a) (roVolumeCreated a)
    (ubootEnvVarsUpdated a).

Definition set_activationBlocksTransition (v : bool) (a : Activation)
  : Activation :=
  mkActivation (versionId a) (path a) (activation a) (requestedActivation a)
    (redundancyPriority a) (activationProgress a)
    v (rwVolumeCreated a) (roVolumeCreated a) (ubootEnvVarsUpdated a).

(** [rwVolumeCreated = roVolumeCreated = ubootEnvVarsUpdated = false]. *)
Definition clear_flags (a : Activation) : Activation :=
  mkActivation (versionId a) (path a) (activation a) (requestedActivation a)
    (redundancyPriority a) (activationProgress a)
    (activationBlocksTransition a) false false false.

(** The four relations the updater publishes; each stands for its
    (forward, reverse) pair of names. *)
Inductive AssociationKind :=
  ActivationAssociation | ActiveAssociation | FunctionalAssociation
| UpdateableAssociation.

(** Calls that leave the process, in the order they are issued. *)
Inductive Effect :=
| storePriority (id : string) (value : Z)
| storePurpose (id : string) (p : VersionPurpose)
| removePersistDataDirectory (id : string)
| helper_setEntry (id : string) (value : Z)
| helper_clearEntry (id : string)
| helper_updateUbootVersionId (id : string)
| helper_removeVersion (id : string)
| helper_cleanup
| helper_factoryReset
| helper_mirrorAlt
| systemd_Subscribe
| systemd_Unsubscribe
| flashWrite (id : string)
| flashWriteHost (id : string)
| imageManager_Delete (objpath : string)
| rebootBmc
| report_Incompatible
| report_InternalFailure.

Record ItemUpdater := mkItemUpdater {
  versions : list (string * VersionClass);
  activations : list (string * Activation);
  assocs : list (AssociationKind * string);
  fieldModeEnabled : bool;
  effects : list Effect
}.

Definition with_versions (f : list (string * VersionClass) -> list (string * VersionClass))
  (st : ItemUpdater) : ItemUpdater :=
  mkItemUpdater (f (versions st)) (activations st) (assocs st)
    (fieldModeEnabled st) (effects st).

Definition with_activations (f : list (string * Activation) -> list (string * Activation))
  (st : ItemUpdater) : ItemUpdater :=
  mkItemUpdater (versions st) (f (activations st)) (assocs st)
    (fieldModeEnabled st) (effects st).

Definition with_assocs (f : list (AssociationKind * string) -> list (AssociationKind * string))
  (st : ItemUpdater) : ItemUpdater :=
  mkItemUpdater (versions st) (activations st) (f (assocs st))
    (fieldModeEnabled st) (effects st).

Definition emit (e : Effect) (st : ItemUpdater) : ItemUpdater :=
  mkItemUpdater (versions st) (activations st) (assocs st)
    (fieldModeEnabled st) (effects st ++ [e]).

(** ** [std::map<std::string, T>] as an association list *)

Fixpoint find {A} (k : string) (m : list (string * A)) : option A :=
  match m with
  | [] => None
  | (k', v) :: m' => if (k' =? k)%string then Some v else find k m'
  end.

Definition map_erase {A} (k : string) (m : list (string * A)) : list (string * A) :=
  filter (fun kv => negb (fst kv =? k)%string) m.

(** [std::map::insert]: an existing key keeps its value; a new key goes to
    its place in ascending key order. *)
Fixpoint insert_sorted {A} (k : string) (v : A) (m : list (string * A))
  : list (string * A) :=
  match m with
  | [] => [(k, v)]
  | (k', v') :: m' =>
      if String.ltb k k' then (k, v) :: m else (k', v') :: insert_sorted k v m'
  end.

Definition map_insert {A} (k : string) (v : A) (m : list (string * A))
  : list (string * A) :=
  match find k m with
  | Some _ => m
  | None => insert_sorted k v m
  end.

(** A write through [it->second]: the object stored under [k] is changed
    in place. *)
Fixpoint map_modify {A} (k : string) (f : A -> A) (m : list (string * A))
  : list (string * A) :=
  match m with
  | [] => []
  | (k', v) :: m' =>
      if (k' =? k)%string then (k', f v) :: m' else (k', v) :: map_modify k f m'
  end.

Definition modify (this : string) (f : Activation -> Activation)
  (st : ItemUpdater) : ItemUpdater :=
  with_activations (map_modify this f) st.

(** ** item_updater.cpp *)

Section ItemUpdaterOps.

(** [config.h]: the number of BMC images that may be active at once. *)
Variable ACTIVE_BMC_MAX_ALLOWED : nat.

Definition savePriority (versionId : string) (value : Z) (st : ItemUpdater)
  : ItemUpdater :=
  emit (helper_setEntry versionId value) (emit (storePriority versionId value) st).

Definition removeReadOnlyPartition (versionId : string) (st : ItemUpdater)
  : ItemUpdater :=
  emit (helper_removeVersion versionId) st.

Definition createActiveAssociation (path : string) (st : ItemUpdater)
  : ItemUpdater :=
  with_assocs (fun l => l ++ [(ActiveAssociation, path)]) st.

Definition createFunctionalAssociation (path : string) (st : ItemUpdater)
  : ItemUpdater :=
  with_assocs (fun l => l ++ [(FunctionalAssociation, path)]) st.

Definition createUpdateableAssociation (path : string) (st : ItemUpdater)
  : ItemUpdater :=
  with_assocs (fun l => l ++ [(UpdateableAssociation, path)]) st.

Definition removeAssociations (path : string) (st : ItemUpdater) : ItemUpdater :=
  with_assocs (filter (fun a => negb (snd a =? path)%string)) st.

Definition updateUbootEnvVars (versionId : string) (st : ItemUpdater)
  : ItemUpdater :=
  emit (helper_updateUbootVersionId versionId) st.

Definition isLowestPriority (value : Z) (st : ItemUpdater) : bool :=
  forallb (fun kv => match redundancyPriority (snd kv) with
                     | Some p => negb (p <? value)
                     | None => true
                     end) (activations st).

(** The loop of [resetUbootEnvVars]: the running pair
    (lowestPriority, lowestPriorityVersion). *)
Definition lowest_step (acc : Z * string) (intf : string * Activation)
  : Z * string :=
  match redundancyPriority (snd intf) with
  | None => acc
  | Some p => if p <=? fst acc then (p, versionId (snd intf)) else acc
  end.

Definition resetUbootEnvVars (st : ItemUpdater) : ItemUpdater :=
  let lowestPriorityVersion :=
    snd (fold_left lowest_step (activations st) (255, "")) in
  updateUbootEnvVars lowestPriorityVersion st.

Definition erase (entryId : string) (st : ItemUpdater) : ItemUpdater :=
  let it := find entryId (versions st) in
  let refused :=
    match it with
    | Some v => (isFunctional v && (1 <? ACTIVE_BMC_MAX_ALLOWED)%nat)%bool
    | None => false
    end in
  if refused then st
  else
    let st1 :=
      match find entryId (activations st) with
      | None => st
      | Some a =>
          with_activations (map_erase entryId) (removeAssociations (path a) st)
      end in
    let st2 := resetUbootEnvVars st1 in
    let st3 :=
      match it with
      | Some _ =>
          with_versions (map_erase entryId)
            (emit (removePersistDataDirectory entryId)
               (removeReadOnlyPartition entryId st2))
      | None =>
          emit (removePersistDataDirectory entryId)
            (removeReadOnlyPartition entryId st2)
      end in
    emit (helper_clearEntry entryId) st3.

Definition deleteAll (st : ItemUpdater) : ItemUpdater :=
  let deletableVersions :=
    map fst (filter (fun kv => negb (isFunctional (snd kv))) (versions st)) in
  emit helper_cleanup (fold_left (fun s id => erase id s) deletableVersions st).

(** *** freePriority *)

Definition priorityMap (value : Z) (versionId : string)
  (acts : list (string * Activation)) : list (string * Z) :=
  fold_left
    (fun pm intf =>
       match redundancyPriority (snd intf) with
       | Some p => map_insert (fst intf) p pm
       | None => pm
       end)
    acts (map_insert versionId value []).

(** [std::set] ordered by [priority1.second <= priority2.second].  The
    comparison is not a strict order, which the standard does not define a
    behaviour for.  The model is what the insertion into the tree does
    with it: the descent goes left where the comparison holds, so every
    entry is kept ("use <= to allow duplicates"), the sequence is ascending
    in the priority, and a new entry comes before the entries of equal
    priority that are already there. *)
Fixpoint set_insert (e : string * Z) (s : list (string * Z))
  : list (string * Z) :=
  match s with
  | [] => [e]
  | x :: s' => if snd e <=? snd x then e :: s else x :: set_insert e s'
  end.

Definition prioritySet (pm : list (string * Z)) : list (string * Z) :=
  fold_left (fun s e => set_insert e s) pm [].

(** [RedundancyPriority::sdbusPriority] on the object owned by the
    activation stored under [key]. *)
Definition sdbusPriority (key : string) (value : Z) (st : ItemUpdater)
  : ItemUpdater :=
  match find key (activations st) with
  | Some a =>
      modify key (set_redundancyPriority (Some value))
        (savePriority (versionId a) value st)
  | None => st
  end.

(** One iteration of the loop over [prioritySet]; [freePriorityValue] is a
    [uint8_t], so its increment is taken modulo 256. *)
Definition cascade_step (versionId : string) (acc : Z * ItemUpdater)
  (element : string * Z) : Z * ItemUpdater :=
  let freePriorityValue := fst acc in
  if (fst element =? versionId)%string then acc
  else if snd element =? freePriorityValue then
    let freePriorityValue' := (freePriorityValue + 1) mod 256 in
    (freePriorityValue', sdbusPriority (fst element) freePriorityValue' (snd acc))
  else acc.

Definition cascade (versionId : string) (l : list (string * Z))
  (acc : Z * ItemUpdater) : Z * ItemUpdater :=
  fold_left (cascade_step versionId) l acc.

Definition lowestVersion (value : Z) (versionId : string)
  (pset : list (string * Z)) : string :=
  match pset with
  | (id, p) :: _ => if value =? p then versionId else id
  | [] => versionId
  end.

Definition freePriority (value : Z) (versionId : string) (st : ItemUpdater)
  : ItemUpdater :=
  let pset := prioritySet (priorityMap value versionId (activations st)) in
  let st1 := snd (cascade versionId pset (value, st)) in
  updateUbootEnvVars (lowestVersion value versionId pset) st1.

(** [RedundancyPriority::priority(value)] on the object owned by the
    activation stored under [key]. *)
Definition RedundancyPriority_priority (key : string) (value : Z)
  (st : ItemUpdater) : ItemUpdater :=
  match find key (activations st) with
  | Some a =>
      freePriority value (versionId a)
        (savePriority (versionId a) value
           (modify key (set_redundancyPriority (Some value)) st))
  | None => st
  end.

(** *** freeSpace *)

(** [std::less<std::pair<int, std::string>>]. *)
Definition pair_ltb (a b : Z * string) : bool :=
  ((fst a <? fst b) || ((fst a =? fst b) && String.ltb (snd a) (snd b)))%bool.

(** The priority queue, largest pair in front: [push] inserts, [top] is
    the head, [pop] drops it. *)
Fixpoint pq_push (e : Z * string) (pq : list (Z * string)) : list (Z * string) :=
  match pq with
  | [] => [e]
  | x :: r => if pair_ltb x e then e :: pq else x :: pq_push e r
  end.

Definition isActiveOrFailed (a : Activation) : bool :=
  match activation a with
  | Active | Failed => true
  | _ => false
  end.

(** The first loop of [freeSpace]: the pair (count, versionsPQ).  Reading
    [versions.find(id)->second] for an id that has no version record is
    undefined and yields [None]. *)
Definition collect_step (callerId : string) (vers : list (string * VersionClass))
  (acc : option (nat * list (Z * string))) (iter : string * Activation)
  : option (nat * list (Z * string)) :=
  cp <- acc ;;
  let a := snd iter in
  if isActiveOrFailed a then
    v <- find (versionId a) vers ;;
    if ((isFunctional v && (1 <? ACTIVE_BMC_MAX_ALLOWED)%nat)
        || (versionId a =? callerId)%string)%bool
    then Some (S (fst cp), snd cp)
    else
      let priority :=
        match activation a, redundancyPriority a with
        | Active, Some p => p
        | _, _ => 999
        end in
      Some (S (fst cp), pq_push (priority, versionId a) (snd cp))
  else Some cp.

Definition collect (callerId : string) (st : ItemUpdater)
  : option (nat * list (Z * string)) :=
  fold_left (collect_step callerId (versions st)) (activations st) (Some (O, [])).

(** The second loop: erase the front of the queue while the count is at
    least the maximum. *)
Fixpoint evict (pq : list (Z * string)) (count : nat) (st : ItemUpdater)
  : ItemUpdater :=
  match pq with
  | [] => st
  | top :: rest =>
      if (ACTIVE_BMC_MAX_ALLOWED <=? count)%nat
      then evict rest (count - 1)%nat (erase (snd top) st)
      else st
  end.

(** [caller] is passed by reference; it is the object stored under the
    key [this]. *)
Definition freeSpace (this : string) (st : ItemUpdater) : option ItemUpdater :=
  caller <- find this (activations st) ;;
  cp <- collect (versionId caller) st ;;
  Some (evict (snd cp) (fst cp) st).

End ItemUpdaterOps.

(** ** activation.cpp *)

(** Build options and the answers of the collaborators the activation code
    consults. *)
Record Config := mkConfig {
  cfg_ACTIVE_BMC_MAX_ALLOWED : nat;
  cfg_BMC_MSL : string;
  cfg_REGEX_BMC_MSL : string;
  cfg_regex_search : string -> string -> option (nat -> string);
  cfg_narrow : Z -> Z;
  cfg_WANT_SIGNATURE_VERIFY : bool;
  cfg_HOST_BIOS_UPGRADE : bool;
  (** [defined UBIFS_LAYOUT || defined MMC_LAYOUT] *)
  cfg_UBIFS_OR_MMC_LAYOUT : bool;
  (** [Signature(uploadDir / versionId, confDir).verify()] *)
  cfg_verifySignature : string -> bool;
  (** [Activation::checkApplyTimeImmediate()] *)
  cfg_checkApplyTimeImmediate : bool
}.

Section ActivationOps.

Variable cfg : Config.

Definition msl_verify (versionStr : string) : option bool :=
  minimum_ship_level.verify (cfg_BMC_MSL cfg) (cfg_REGEX_BMC_MSL cfg)
    (cfg_regex_search cfg) (cfg_narrow cfg) versionStr.

(** [softwareServer::Activation::activation(value)]: the property setter
    of the base class. *)
Definition base_activation (this : string) (value : Activations)
  (st : ItemUpdater) : ItemUpdater :=
  modify this (set_activation value) st.

(** Lines 85-89 of [Activation::activation]. *)
Definition reset_priority_unless_active (this : string) (value : Activations)
  (st : ItemUpdater) : ItemUpdater :=
  match value with
  | Active | Activating => st
  | _ => modify this (set_redundancyPriority None) st
  end.

(** [Activation::activation(value)] when [value] is not [Activating]: the
    head of the function and its [else] branch. *)
Definition activation_plain (this : string) (value : Activations)
  (st : ItemUpdater) : ItemUpdater :=
  base_activation this value
    (modify this
       (fun a => set_activationProgress None
                   (set_activationBlocksTransition false a))
       (reset_priority_unless_active this value st)).

(** Modelled from the spec: the constructor of [RedundancyPriority], which
    is declared in activation.hpp and is not among the sources.  Section
    4.4 step 8 creates the attribute at the given priority and section 4.3
    sends every priority assignment through the priority setter; the new
    object is owned by the activation once the constructor has returned. *)
Definition RedundancyPriority_new (this : string) (value : Z)
  (st : ItemUpdater) : ItemUpdater :=
  match find this (activations st) with
  | Some a =>
      modify this (set_redundancyPriority (Some value))
        (freePriority value (versionId a)
           (savePriority (versionId a) value st))
  | None => st
  end.

(** [activationProgress->progress(100)] on an absent progress object and
    [parent.versions.find(versionId)->second] on a missing record are
    undefined: [None]. *)
Definition onFlashWriteSuccess (this : string) (st : ItemUpdater)
  : option ItemUpdater :=
  a <- find this (activations st) ;;
  _ <- activationProgress a ;;
  let st := modify this
              (fun a => clear_flags
                          (set_activationProgress None
                             (set_activationBlocksTransition false a))) st in
  let st := emit systemd_Unsubscribe st in
  v <- find (versionId a) (versions st) ;;
  let st := emit (storePurpose (versionId a) (purpose v)) st in
  let st := match redundancyPriority a with
            | None => RedundancyPriority_new this 0 st
            | Some _ => st
            end in
  let st := emit (imageManager_Delete (path a)) st in
  let st := createActiveAssociation (path a) st in
  let st := createUpdateableAssociation (path a) st in
  let st := if cfg_checkApplyTimeImmediate cfg then emit rebootBmc st else st in
  Some (activation_plain this Active st).

(** [Activation::activation(value)], the setter that overrides the base
    class.  Its only call of itself, at the end of [onFlashWriteSuccess],
    has [value = Active] and is [activation_plain]. *)
Definition Activation_activation (this : string) (value : Activations)
  (st : ItemUpdater) : option ItemUpdater :=
  a <- find this (activations st) ;;
  match value with
  | Activating =>
      let sigFailed :=
        (cfg_WANT_SIGNATURE_VERIFY cfg
         && negb (cfg_verifySignature cfg (versionId a)))%bool in
      let st := if sigFailed then emit report_InternalFailure st else st in
      if (sigFailed && fieldModeEnabled st)%bool
      then Some (base_activation this Failed st)
      else
        v <- find (versionId a) (versions st) ;;
        if (cfg_HOST_BIOS_UPGRADE cfg && VersionPurpose_eqb (purpose v) Host)%bool
        then
          let st := emit systemd_Subscribe st in
          let st := modify this (set_activationProgress (Some 20)) st in
          let st := emit (flashWriteHost (versionId a)) st in
          Some (base_activation this value st)
        else
          ok <- msl_verify (version v) ;;
          if negb ok
          then Some (base_activation this Failed (emit report_Incompatible st))
          else
            let st := modify this
                        (fun a => set_activationProgress (Some 10)
                                    (set_activationBlocksTransition true a)) st in
            st <- freeSpace (cfg_ACTIVE_BMC_MAX_ALLOWED cfg) this st ;;
            let st := emit systemd_Subscribe st in
            let st := emit (flashWrite (versionId a)) st in
            if cfg_UBIFS_OR_MMC_LAYOUT cfg
            then Some (base_activation this value st)
            else
              st <- onFlashWriteSuccess this st ;;
              Some (base_activation this Active st)
  | _ => Some (activation_plain this value st)
  end.

Definition Activation_requestedActivation (this : string)
  (value : RequestedActivations) (st : ItemUpdater) : option ItemUpdater :=
  a <- find this (activations st) ;;
  let st1 := modify this clear_flags st in
  st2 <- match value, requestedActivation a with
         | ReqActive, ReqNone =>
             match activation a with
             | Ready | Failed => Activation_activation this Activating st1
             | _ => Some st1
             end
         | _, _ => Some st1
         end ;;
  Some (modify this (set_requestedActivation value) st2).

End ActivationOps.

(** ** item_updater.cpp: image validation, registration and field mode *)

Inductive ActivationStatus := ready | invalid.

Section ImageValidation.

(** [std::ifstream efile(filePath / bmcImage); efile.good()]: whether the
    file of that name in the directory can be opened. *)
Variable file_good : string -> string -> bool.

(** images.hpp: the name of the full flash image and the names of the
    images of the partitions. *)
Variable bmcFullImages : string.
Variable bmcImages : list string.

Fixpoint checkImage (filePath : string) (imageList : list string) : bool :=
  match imageList with
  | [] => true
  | bmcImage :: rest =>
      if file_good filePath bmcImage then checkImage filePath rest else false
  end.

(** [imageUpdateList] is not local to the function: the list it finds is
    an argument here and the list it leaves is returned with the status. *)
Definition validateSquashFSImage (filePath : string)
  (imageUpdateList : list string) : ActivationStatus * list string :=
  let imageUpdateList := imageUpdateList ++ [bmcFullImages] in
  if checkImage filePath imageUpdateList then (ready, imageUpdateList)
  else
    let imageUpdateList := bmcImages in
    if checkImage filePath imageUpdateList then (ready, imageUpdateList)
    else (invalid, imageUpdateList).

End ImageValidation.

(** [path.rfind("/")] followed by [path.substr(pos + 1)]: [None] when the
    path has no slash. *)
Fixpoint after_last_slash (s : string) : option string :=
  match s with
  | EmptyString => None
  | String c r =>
      match after_last_slash r with
      | Some t => Some t
      | None => if Ascii.eqb c "/" then Some r else None
      end
  end.

(** What [createActivation] has collected from the message when its loops
    end. *)
Record MessageFields := mkMessageFields {
  msg_purpose : VersionPurpose;
  msg_version : string;
  msg_filePath : string;
  msg_extendedVersion : string
}.

(** What the updater and the image list look like after [createActivation],
    and the association list handed to the new [Activation] when one was
    built. *)
Record Registration := mkRegistration {
  reg_updater : ItemUpdater;
  reg_imageUpdateList : list string;
  reg_associations : option (list (AssociationKind * string))
}.

Section CreateActivation.

(** [config.h] *)
Variable VERSION_IFACE : string.
Variable FILEPATH_IFACE : string.
Variable EXTENDED_VERSION_IFACE : string.
Variable HOST_BIOS_UPGRADE : bool.

(** [SVersion::convertVersionPurposeFromString], generated code that raises
    on a string that names no purpose: [None]. *)
Variable convertVersionPurposeFromString : string -> option VersionPurpose.

Variable file_good : string -> string -> bool.
Variable bmcFullImages : string.
Variable bmcImages : list string.

(** [Version::isFunctional()] of a [Version] object built from a version
    string; version.cpp is not among the sources. *)
Variable version_isFunctional : string -> bool.

(** The member [bmcInventoryPath] of the updater. *)
Variable bmcInventoryPath : string.

Definition accepted_purpose (value : VersionPurpose) : bool :=
  match value with
  | BMC | System => true
  | Host => HOST_BIOS_UPGRADE
  | Unknown => false
  end.

Definition read_version_property (acc : option MessageFields)
  (property : string * string) : option MessageFields :=
  f <- acc ;;
  if (fst property =? "Purpose")%string then
    value <- convertVersionPurposeFromString (snd property) ;;
    if accepted_purpose value
    then Some (mkMessageFields value (msg_version f) (msg_filePath f)
                 (msg_extendedVersion f))
    else Some f
  else if (fst property =? "Version")%string then
    Some (mkMessageFields (msg_purpose f) (snd property) (msg_filePath f)
            (msg_extendedVersion f))
  else Some f.

Definition read_filepath_property (f : MessageFields)
  (property : string * string) : MessageFields :=
  if (fst property =? "Path")%string
  then mkMessageFields (msg_purpose f) (msg_version f) (snd property)
         (msg_extendedVersion f)
  else f.

Definition read_extended_property (f : MessageFields)
  (property : string * string) : MessageFields :=
  if (fst property =? "ExtendedVersion")%string
  then mkMessageFields (msg_purpose f) (msg_version f) (msg_filePath f)
         (snd property)
  else f.

Definition read_interface (acc : option MessageFields)
  (intf : string * list (string * string)) : option MessageFields :=
  f <- acc ;;
  if (fst intf =? VERSION_IFACE)%string then
    fold_left read_version_property (snd intf) (Some f)
  else if (fst intf =? FILEPATH_IFACE)%string then
    Some (fold_left read_filepath_property (snd intf) f)
  else if (fst intf =? EXTENDED_VERSION_IFACE)%string then
    Some (fold_left read_extended_property (snd intf) f)
  else Some f.

(** The loops over [interfaces], a [std::map] of [std::map]s given in key
    order. *)
Definition read_interfaces (interfaces : list (string * list (string * string)))
  : option MessageFields :=
  fold_left read_interface interfaces (Some (mkMessageFields Unknown "" "" "")).

(** [createActivation] on a message that holds the object path [path] and
    [interfaces].  [None] is the exception of the purpose conversion.  A new
    [Activation] starts with no request, no priority, no progress object
    and its flags false. *)
Definition createActivation (path : string)
  (interfaces : list (string * list (string * string)))
  (st : ItemUpdater) (imageUpdateList : list string) : option Registration :=
  f <- read_interfaces interfaces ;;
  let unchanged := mkRegistration st imageUpdateList None in
  if ((msg_version f =? "")%string || (msg_filePath f =? "")%string
      || VersionPurpose_eqb (msg_purpose f) Unknown)%bool
  then Some unchanged
  else
    match after_last_slash path with
    | None => Some unchanged
    | Some versionId =>
        match find versionId (activations st) with
        | Some _ => Some unchanged
        | None =>
            let '(result, imageUpdateList) :=
              match msg_purpose f with
              | BMC | System =>
                  validateSquashFSImage file_good bmcFullImages bmcImages
                    (msg_filePath f) imageUpdateList
              | _ => (ready, imageUpdateList)
              end in
            let activationState :=
              match result with ready => Ready | invalid => Invalid end in
            let associations :=
              match result with
              | ready => [(ActivationAssociation, bmcInventoryPath)]
              | invalid => []
              end in
            let st :=
              with_activations
                (map_insert versionId
                   (mkActivation versionId path activationState ReqNone None
                      None false false false false)) st in
            let st :=
              with_versions
                (map_insert versionId
                   (mkVersionClass (msg_version f) (msg_purpose f)
                      (version_isFunctional (msg_version f)))) st in
            Some (mkRegistration st imageUpdateList (Some associations))
        end
    end.

End CreateActivation.

(** Calls to systemd made by the field-mode setter. *)
Inductive SystemdCall :=
| StartUnit (unit mode : string)
| StopUnit (unit mode : string)
| MaskUnitFiles (files : list string) (runtime force : bool).

Definition with_fieldMode (v : bool) (st : ItemUpdater) : ItemUpdater :=
  mkItemUpdater (versions st) (activations st) (assocs st) v (effects st).

(** [ItemUpdater::fieldModeEnabled(value)]: the value returned, the state
    left and the calls made, the calls being taken to succeed; [None] is
    the [NotAllowed] error that [elog] raises. *)
Definition ItemUpdater_fieldModeEnabled (value : bool) (st : ItemUpdater)
  : option (bool * ItemUpdater * list SystemdCall) :=
  if (value && negb (fieldModeEnabled st))%bool then
    Some (true, with_fieldMode value st,
          [StartUnit "obmc-flash-bmc-setenv@fieldmode\x3dtrue.service" "replace";
           StopUnit "usr-local.mount" "replace";
           MaskUnitFiles ["usr-local.mount"] false true])
  else if (negb value && fieldModeEnabled st)%bool then None
  else Some (fieldModeEnabled st, st, []).

(** [envVar.find(pattern) != std::string::npos] *)
Fixpoint contains (pattern s : string) : bool :=
  if String.prefix pattern s then true
  else match s with
       | EmptyString => false
       | String _ r => contains pattern r
       end.

(** [restoreFieldModeStatus], [envVar] being the first line of
    /dev/mtd/u-boot-env. *)
Definition restoreFieldModeStatus (envVar : string) (st : ItemUpdater)
  : option (ItemUpdater * list SystemdCall) :=
  if contains "fieldmode=true" envVar then
    r <- ItemUpdater_fieldModeEnabled true st ;;
    Some (snd (fst r), snd r)
  else Some (st, []).

(** [ItemUpdater::reset] and [ItemUpdater::mirrorUbootToAlt]. *)
Definition reset (st : ItemUpdater) : ItemUpdater := emit helper_factoryReset st.

Definition mirrorUbootToAlt (st : ItemUpdater) : ItemUpdater :=
  emit helper_mirrorAlt st.

(** ** Views of the state used to state the properties *)

(** The priority held by the activation stored under [id], if any. *)
Definition priorityOf (st : ItemUpdater) (id : string) : option Z :=
  a <- find id (activations st) ;; redundancyPriority a.

Definition stateOf (st : ItemUpdater) (id : string) : option Activations :=
  a <- find id (activations st) ;; Some (activation a).


(** The value of the last call of [helper.updateUbootVersionId] in a log. *)
Fixpoint bootTarget (log : list Effect) : option string :=
  match log with
  | [] => None
  | e :: r =>
      match bootTarget r with
      | Some v => Some v
      | None => match e with
                | helper_updateUbootVersionId id => Some id
                | _ => None
                end
      end
  end.

Definition keys {A} (m : list (string * A)) : list string := map fst m.

Definition countActiveOrFailed (st : ItemUpdater) : nat :=
  List.length (filter (fun kv => isActiveOrFailed (snd kv)) (activations st)).

(** Every activation is stored under its own [versionId]. *)
Definition keyed_by_versionId (acts : list (string * Activation)) : Prop :=
  Forall (fun kv => versionId (snd kv) = fst kv) acts.

(** The priority recorded in [acts] under the key [k]. *)
Definition prio_in (acts : list (string * Activation)) (k : string) : option Z :=
  a <- find k acts ;; redundancyPriority a.

(** Ascending in the priority, equal priorities allowed. *)
Definition le_priority (x y : string * Z) : Prop := snd x <= snd y.

Definition lt_priority (x y : string * Z) : Prop := snd x < snd y.

(** The entries of a priority sequence other than the version being set. *)
Definition others (versionId : string) (l : list (string * Z)) : list (string * Z) :=
  filter (fun e => negb (fst e =? versionId)%string) l.

(** The priorities the cascade leaves behind, entry by entry, for a
    sequence that does not contain the version being set. *)
Fixpoint bump (o : list (string * Z)) (fpv : Z) : list (string * Z) :=
  match o with
  | [] => []
  | (k, p) :: r =>
      if p =? fpv then (k, (fpv + 1) mod 256) :: bump r ((fpv + 1) mod 256)
      else (k, p) :: bump r fpv
  end.

(** Everything of an activation but its priority. *)
Definition forget_priority (kv : string * Activation) : string * Activation :=
  (fst kv, set_redundancyPriority None (snd kv)).

(** No two images other than [versionId] hold the same priority. *)
Definition others_distinct (versionId : string)
  (acts : list (string * Activation)) : Prop :=
  forall k1 k2 p, k1 <> versionId -> k2 <> versionId ->
    prio_in acts k1 = Some p -> prio_in acts k2 = Some p -> k1 = k2.

(** Some priority from [value] up to 255 is held by no image other than
    [versionId]: the cascade stops before the end of the range. *)
Definition free_value_above (versionId : string) (value : Z)
  (acts : list (string * Activation)) : Prop :=
  exists g, value <= g <= 255 /\
            forall k, k <> versionId -> prio_in acts k <> Some g.

(** How an entry of the priority sequence relates to what the cascade
    started at [fpv] makes of it. *)
Definition bumped (fpv : Z) (e e' : string * Z) : Prop :=
  fst e' = fst e /\ (snd e' = snd e \/ (snd e' = snd e + 1 /\ fpv <= snd e)).

(** The priority [freeSpace] sorts an image by: its redundancy priority
    when it is active and has one, 999 otherwise. *)
Definition eviction_priority (a : Activation) : Z :=
  match activation a, redundancyPriority a with
  | Active, Some p => p
  | _, _ => 999
  end.

(** The test that puts an activation on the queue of [freeSpace]. *)
Definition is_candidate (ACTIVE_BMC_MAX_ALLOWED : nat) (callerId : string)
  (vers : list (string * VersionClass)) (a : Activation) : bool :=
  (isActiveOrFailed a
   && negb ((match find (versionId a) vers with
             | Some v => isFunctional v && (1 <? ACTIVE_BMC_MAX_ALLOWED)%nat
             | None => false
             end)
            || (versionId a =? callerId)%string))%bool.

Definition candidates_of (ACTIVE_BMC_MAX_ALLOWED : nat) (callerId : string)
  (vers : list (string * VersionClass)) (acts : list (string * Activation))
  : list (Z * string) :=
  map (fun kv => (eviction_priority (snd kv), versionId (snd kv)))
    (filter (fun kv => is_candidate ACTIVE_BMC_MAX_ALLOWED callerId vers (snd kv))
       acts).

Definition candidates (ACTIVE_BMC_MAX_ALLOWED : nat) (callerId : string)
  (st : ItemUpdater) : list (Z * string) :=
  candidates_of ACTIVE_BMC_MAX_ALLOWED callerId (versions st) (activations st).

(** Every active or failed activation has its version record. *)
Definition versions_cover (vers : list (string * VersionClass))
  (acts : list (string * Activation)) : Prop :=
  forall k a, In (k, a) acts -> isActiveOrFailed a = true ->
              find (versionId a) vers <> None.

(** Largest priority first. *)
Definition descending (x y : Z * string) : Prop := fst y <= fst x.

(** How many times the loop of [evict] runs. *)
Fixpoint evict_count (ACTIVE_BMC_MAX_ALLOWED : nat) (pq : list (Z * string))
  (count : nat) : nat :=
  match pq with
  | [] => O
  | _ :: rest =>
      if (ACTIVE_BMC_MAX_ALLOWED <=? count)%nat
      then S (evict_count ACTIVE_BMC_MAX_ALLOWED rest (count - 1))
      else O
  end.

Definition erase_each (ACTIVE_BMC_MAX_ALLOWED : nat) (ids : list string)
  (st : ItemUpdater) : ItemUpdater :=
  fold_left (fun s id => erase ACTIVE_BMC_MAX_ALLOWED id s) ids st.

Definition erase_all {A} (ids : list string) (m : list (string * A))
  : list (string * A) :=
  fold_left (fun m id => map_erase id m) ids m.

(** A component [g] of the activation stored under [id]. *)
Definition viewOf {B} (g : Activation -> B) (st : ItemUpdater) (id : string)
  : option B :=
  option_map g (find id (activations st)).

(** The three write-phase flags. *)
Definition flags (a : Activation) : bool * bool * bool :=
  (rwVolumeCreated a, roVolumeCreated a, ubootEnvVarsUpdated a).

(** Whether a write of [value] to [requestedActivation] calls
    [Activation::activation(Activating)]: the two tests of the setter. *)
Definition requestedActivation_triggers (value : RequestedActivations)
  (a : Activation) : bool :=
  match value, requestedActivation a, activation a with
  | ReqActive, ReqNone, (Ready | Failed) => true
  | _, _, _ => false
  end.

(** The guard at the head of [erase]: the entry is the running image and
    more than one image may be active. *)
Definition erase_refused (ACTIVE_BMC_MAX_ALLOWED : nat) (entryId : string)
  (st : ItemUpdater) : bool :=
  match find entryId (versions st) with
  | Some v => (isFunctional v && (1 <? ACTIVE_BMC_MAX_ALLOWED)%nat)%bool
  | None => false
  end.

(** What [erase] appends to the log when it is not refused; [w] is the
    version handed to [updateUbootEnvVars]. *)
Definition erase_calls (w entryId : string) : list Effect :=
  [helper_updateUbootVersionId w; helper_removeVersion entryId;
   removePersistDataDirectory entryId; helper_clearEntry entryId].

(** The version [resetUbootEnvVars] selects among [acts]. *)
Definition lowestPriorityVersion (acts : list (string * Activation)) : string :=
  snd (fold_left lowest_step acts (255, "")).

Definition no_priority (acts : list (string * Activation)) : Prop :=
  forall k a, In (k, a) acts -> redundancyPriority a = None.

(** Priorities are [uint8_t]. *)
Definition priorities_uint8 (acts : list (string * Activation)) : Prop :=
  forall k a p, In (k, a) acts -> redundancyPriority a = Some p -> 0 <= p <= 255.

(** The two maps hold the same ids. *)
Definition lockstep (st : ItemUpdater) : Prop :=
  forall k, find k (versions st) = None <-> find k (activations st) = None.

(** The invariants of the registry: each map holds an id once, every
    activation is stored under its own version id, and the maps hold the
    same ids. *)
Record registry_ok (st : ItemUpdater) : Prop := mk_registry_ok {
  ok_activations : NoDup (keys (activations st));
  ok_versions : NoDup (keys (versions st));
  ok_keyed : keyed_by_versionId (activations st);
  ok_lockstep : lockstep st
}.

(** A sequence of writes of the field-mode property, a write that raises
    leaving the state as it is. *)
Definition fieldMode_writes (values : list bool) (st : ItemUpdater) : ItemUpdater :=
  fold_left
    (fun s v => match ItemUpdater_fieldModeEnabled v s with
                | Some r => snd (fst r)
                | None => s
                end) values st.

(** The same build without [WANT_SIGNATURE_VERIFY]. *)
Definition without_signature_verify (cfg : Config) : Config :=
  mkConfig (cfg_ACTIVE_BMC_MAX_ALLOWED cfg) (cfg_BMC_MSL cfg)
    (cfg_REGEX_BMC_MSL cfg) (cfg_regex_search cfg) (cfg_narrow cfg)
    false (cfg_HOST_BIOS_UPGRADE cfg) (cfg_UBIFS_OR_MMC_LAYOUT cfg)
    (cfg_verifySignature cfg) (cfg_checkApplyTimeImmediate cfg).

(** ** Sample registries for running the model *)

Definition SOFTWARE_OBJPATH : string := "/xyz/openbmc_project/software/".

Definition sample_activation (id : string) (s : Activations) (p : option Z)
  : Activation :=
  mkActivation id (SOFTWARE_OBJPATH ++ id)%string s ReqNone p None false
    false false false.

Definition sample_version (v : string) (functional : bool) : VersionClass :=
  mkVersionClass v BMC functional.

Definition sample_registry (vs : list (string * VersionClass))
  (acts : list (string * Activation)) : ItemUpdater :=
  mkItemUpdater vs acts
    (map (fun kv => (ActiveAssociation, path (snd kv))) acts) false [].

Definition sample_config (max : nat) (msl : string) (async : bool) : Config :=
  mkConfig max msl minimum_ship_level.dotted_pattern
    minimum_ship_level.dotted_search minimum_ship_level.uint8_of_int
    false false async (fun _ => true) false.

(** Three images: "a" is running with priority 0, "b" is active with
    priority 1, "c" has failed. *)
Definition registry_abc : ItemUpdater :=
  sample_registry
    [("a", sample_version "2.9.1" true);
     ("b", sample_version "2.9.2" false);
     ("c", sample_version "2.9.3" false)]
    [("a", sample_activation "a" Active (Some 0));
     ("b", sample_activation "b" Active (Some 1));
     ("c", sample_activation "c" Failed None)].

(** One image that is active and not running. *)
Definition registry_single : ItemUpdater :=
  sample_registry
    [("b", sample_version "2.9.2" false)]
    [("b", sample_activation "b" Active (Some 0))].

(** A fresh system: one uploaded image, no priority anywhere. *)
Definition registry_fresh : ItemUpdater :=
  sample_registry
    [("n", sample_version "2.9.4" false)]
    [("n", sample_activation "n" Ready None)].

(** Active, non-running images with the given priorities. *)
Definition registry_of (l : list (string * Z)) : ItemUpdater :=
  sample_registry
    (map (fun x => (fst x, sample_version "2.9.1" false)) l)
    (map (fun x => (fst x, sample_activation (fst x) Active (Some (snd x)))) l).


(** "a" holds 255 when "c" asks for 255. *)
Definition registry_wrap : ItemUpdater :=
  registry_of [("a", 255); ("b", 1); ("c", 255)].

(** [registry_abc] just after the priority setter of "b" has stored 0. *)
Definition registry_b0 : ItemUpdater :=
  sample_registry
    [("a", sample_version "2.9.1" true);
     ("b", sample_version "2.9.2" false);
     ("c", sample_version "2.9.3" false)]
    [("a", sample_activation "a" Active (Some 0));
     ("b", sample_activation "b" Active (Some 0));
     ("c", sample_activation "c" Failed None)].

(** An uploaded image whose version is below the minimum ship level
    "2.9.1" of [config_msl]. *)
Definition registry_old : ItemUpdater :=
  sample_registry
    [("o", sample_version "1.0.0" false)]
    [("o", sample_activation "o" Ready None)].

(** An image found active at start-up, with priority 0, whose version is
    below the minimum ship level. *)
Definition registry_below_msl : ItemUpdater :=
  sample_registry
    [("o", sample_version "1.0.0" true)]
    [("o", sample_activation "o" Active (Some 0))].

(** The scenario of the specification with a fourth, uploaded image. *)
Definition registry_abcd : ItemUpdater :=
  sample_registry
    [("a", sample_version "2.9.1" true);
     ("b", sample_version "2.9.2" false);
     ("c", sample_version "2.9.3" false);
     ("d", sample_version "2.9.4" false)]
    [("a", sample_activation "a" Active (Some 0));
     ("b", sample_activation "b" Active (Some 1));
     ("c", sample_activation "c" Failed None);
     ("d", sample_activation "d" Ready None)].

Definition config_msl : Config := sample_config 2 "2.9.1" true.

(** The image files of images.hpp. *)
Definition sample_bmcFullImages : string := "image-bmc".

Definition sample_bmcImages : list string :=
  ["image-kernel"; "image-rofs"; "image-rwfs"; "image-u-boot"].

(** A file system with two image directories: "/tmp/images/p" holds the
    four partition images, "/tmp/images/f" holds the full image only. *)
Definition sample_file_good (filePath bmcImage : string) : bool :=
  if (filePath =? "/tmp/images/p")%string
  then existsb (String.eqb bmcImage) sample_bmcImages
  else if (filePath =? "/tmp/images/f")%string
       then (bmcImage =? sample_bmcFullImages)%string
       else false.

Definition sample_convert (s : string) : option VersionPurpose :=
  if (s =? "xyz.openbmc_project.Software.Version.VersionPurpose.BMC")%string
  then Some BMC
  else if (s =? "xyz.openbmc_project.Software.Version.VersionPurpose.Host")%string
  then Some Host
  else if (s =? "xyz.openbmc_project.Software.Version.VersionPurpose.System")%string
  then Some System
  else if (s =? "xyz.openbmc_project.Software.Version.VersionPurpose.Unknown")%string
  then Some Unknown
  else None.

(** The interfaces of the signal the image manager sends for an upload
    of version "2.9.5" to "/tmp/images/p", in key order. *)
Definition sample_interfaces : list (string * list (string * string)) :=
  [("xyz.openbmc_project.Common.FilePath", [("Path", "/tmp/images/p")]);
   ("xyz.openbmc_project.Software.Version",
    [("Purpose", "xyz.openbmc_project.Software.Version.VersionPurpose.BMC");
     ("Version", "2.9.5")])].

(** [createActivation] with the interface names of config.h and the sample
    file system; no version it builds is the running one. *)
Definition sample_createActivation :=
  createActivation "xyz.openbmc_project.Software.Version"
    "xyz.openbmc_project.Common.FilePath"
    "xyz.openbmc_project.Software.ExtendedVersion" false sample_convert
    sample_file_good sample_bmcFullImages sample_bmcImages (fun _ => false)
    "/xyz/openbmc_project/inventory/system/chassis/bmc".

(** [config_msl] on a layout that is written synchronously. *)
Definition config_static : Config := sample_config 2 "2.9.1" false.

(** A build that verifies signatures, with a check that fails. *)
Definition config_signed : Config :=
  mkConfig 2 "2.9.1" minimum_ship_level.dotted_pattern
    minimum_ship_level.dotted_search minimum_ship_level.uint8_of_int
    true false true (fun _ => false) false.

(** A build with [HOST_BIOS_UPGRADE] and an uploaded host image. *)
Definition config_host : Config :=
  mkConfig 2 "2.9.1" minimum_ship_level.dotted_pattern
    minimum_ship_level.dotted_search minimum_ship_level.uint8_of_int
    false true true (fun _ => true) false.

Definition registry_host : ItemUpdater :=
  sample_registry
    [("a", sample_version "2.9.1" true);
     ("h", mkVersionClass "1.0.0" Host false)]
    [("a", sample_activation "a" Active (Some 0));
     ("h", sample_activation "h" Ready None)].

(** * Properties *)

(** ** Minimum ship level *)

Section MinimumShipLevelFacts.

Import minimum_ship_level.

Lemma compare_negative_iff (a m : Version) :
  compare a m < 0 <-> tuple_lt a m.
Proof.
  unfold compare, tuple_lt.
  destruct (major m <? major a) eqn:E1;
    [apply Z.ltb_lt in E1; lia | apply Z.ltb_ge in E1].
  destruct (major a <? major m) eqn:E2;
    [apply Z.ltb_lt in E2; lia | apply Z.ltb_ge in E2].
  destruct (minor m <? minor a) eqn:E3;
    [apply Z.ltb_lt in E3; lia | apply Z.ltb_ge in E3].
  destruct (minor a <? minor m) eqn:E4;
    [apply Z.ltb_lt in E4; lia | apply Z.ltb_ge in E4].
  destruct (rev m <? rev a) eqn:E5;
    [apply Z.ltb_lt in E5; lia | apply Z.ltb_ge in E5].
  destruct (rev a <? rev m) eqn:E6;
    [apply Z.ltb_lt in E6; lia | apply Z.ltb_ge in E6].
  lia.
Qed.

Lemma compare_refl (v : Version) : compare v v = 0.
Proof. unfold compare. rewrite !Z.ltb_irrefl. reflexivity. Qed.

Lemma parse_unmatched (rx : string) search narrow (s : string) :
  search rx s = None -> parse rx search narrow s = Some (mkVersion 0 0 0).
Proof. intros H. unfold parse. rewrite H. reflexivity. Qed.

Lemma verify_configured (msl rx : string) search narrow (s : string) :
  msl <> "" -> rx <> "" ->
  verify msl rx search narrow s =
    (m <- parse rx search narrow msl ;;
     a <- parse rx search narrow s ;;
     Some (negb (compare a m <? 0))).
Proof.
  intros Hm Hr. unfold verify.
  apply String.eqb_neq in Hm. apply String.eqb_neq in Hr.
  rewrite Hm, Hr. simpl.
  destruct (parse rx search narrow msl) as [m|]; simpl; [|reflexivity].
  destruct (parse rx search narrow s) as [a|]; simpl; [|reflexivity].
  destruct (compare a m <? 0); reflexivity.
Qed.

(** C7.  [verify] returns true when the minimum ship level or its pattern
    is empty.  Otherwise it returns false exactly when both strings parse
    and the candidate's (major, minor, rev) is lexicographically below
    the minimum's, and it returns a result whenever both strings parse; a
    string the pattern does not match parses to (0, 0, 0). *)
Theorem verify_minimum_ship_level
  (BMC_MSL REGEX_BMC_MSL : string)
  (regex_search : string -> string -> option (nat -> string))
  (narrow : Z -> Z) (candidate : string) :
  let parse := parse REGEX_BMC_MSL regex_search narrow in
  let verify := verify BMC_MSL REGEX_BMC_MSL regex_search narrow in
  (BMC_MSL = "" \/ REGEX_BMC_MSL = "" -> verify candidate = Some true) /\
  (BMC_MSL <> "" -> REGEX_BMC_MSL <> "" ->
     (verify candidate = Some false <->
      exists a m, parse candidate = Some a /\ parse BMC_MSL = Some m /\
                  tuple_lt a m) /\
     (forall a m, parse candidate = Some a -> parse BMC_MSL = Some m ->
                  exists b, verify candidate = Some b /\
                            (b = false <-> tuple_lt a m))) /\
  (forall s, regex_search REGEX_BMC_MSL s = None ->
             parse s = Some (mkVersion 0 0 0)).
Proof.
  cbv zeta. split; [|split].
  - intros [H|H]; unfold verify; subst.
    + reflexivity.
    + rewrite String.eqb_refl, orb_true_r. reflexivity.
  - intros Hm Hr. rewrite (verify_configured _ _ _ _ _ Hm Hr). split.
    + split.
      * destruct (parse REGEX_BMC_MSL regex_search narrow BMC_MSL) as [m|];
          simpl; [|discriminate].
        destruct (parse REGEX_BMC_MSL regex_search narrow candidate) as [a|];
          simpl; [|discriminate].
        intros H. exists a, m. repeat split.
        apply compare_negative_iff.
        destruct (compare a m <? 0) eqn:E; [|discriminate].
        now apply Z.ltb_lt.
      * intros (a & m & Ha & Hm' & Hlt). rewrite Hm', Ha. simpl.
        apply compare_negative_iff in Hlt. apply Z.ltb_lt in Hlt.
        now rewrite Hlt.
    + intros a m Ha Hm'. rewrite Hm', Ha. simpl.
      eexists. split; [reflexivity|].
      rewrite <- compare_negative_iff.
      destruct (compare a m <? 0) eqn:E; simpl.
      * apply Z.ltb_lt in E. tauto.
      * apply Z.ltb_ge in E. split; [discriminate | lia].
  - intros s H. now apply parse_unmatched.
Qed.

End MinimumShipLevelFacts.

(** ** Association lists *)

Section MapFacts.

Context {A : Type}.
Implicit Types (m : list (string * A)) (k : string).

Lemma find_In m k v : find k m = Some v -> In (k, v) m.
Proof.
  induction m as [|[k' v'] m IH]; simpl; [discriminate|].
  destruct (k' =? k)%string eqn:E.
  - apply String.eqb_eq in E. intros [= ->]. subst. now left.
  - intros H. right. auto.
Qed.

Lemma find_None_not_In m k : find k m = None <-> ~ In k (keys m).
Proof.
  induction m as [|[k' v'] m IH]; simpl; [tauto|].
  destruct (k' =? k)%string eqn:E.
  - apply String.eqb_eq in E. split; [discriminate | intros H; tauto].
  - apply String.eqb_neq in E. rewrite IH. tauto.
Qed.

Lemma In_find m k v : NoDup (keys m) -> In (k, v) m -> find k m = Some v.
Proof.
  induction m as [|[k' v'] m IH]; simpl; [tauto|].
  intros Hnd [H|H]; inversion Hnd as [|? ? Hni Hnd']; subst.
  - injection H as -> ->. now rewrite String.eqb_refl.
  - destruct (k' =? k)%string eqn:E; [|auto].
    apply String.eqb_eq in E. subst. exfalso. apply Hni.
    change k with (fst (k, v)). now apply in_map.
Qed.

Lemma find_erase_same m k : find k (map_erase k m) = None.
Proof.
  induction m as [|[k' v'] m IH]; simpl; [reflexivity|].
  destruct (k' =? k)%string eqn:E; simpl; [assumption|].
  now rewrite E.
Qed.

Lemma find_erase_other m k k' : k <> k' -> find k' (map_erase k m) = find k' m.
Proof.
  intros Hne. induction m as [|[k0 v0] m IH]; simpl; [reflexivity|].
  destruct (k0 =? k)%string eqn:E; simpl.
  - apply String.eqb_eq in E. subst.
    apply String.eqb_neq in Hne. now rewrite Hne.
  - now rewrite IH.
Qed.

Lemma erase_not_found m k : find k m = None -> map_erase k m = m.
Proof.
  induction m as [|[k' v'] m IH]; simpl; [reflexivity|].
  destruct (k' =? k)%string eqn:E; simpl; [discriminate|].
  intros H. now rewrite IH.
Qed.

Lemma erase_erase m k : map_erase k (map_erase k m) = map_erase k m.
Proof. apply erase_not_found, find_erase_same. Qed.

Lemma In_erase m k k' v : In (k', v) (map_erase k m) <-> In (k', v) m /\ k' <> k.
Proof.
  unfold map_erase. rewrite filter_In. simpl.
  rewrite negb_true_iff, String.eqb_neq. tauto.
Qed.

Lemma keys_erase_incl m k x : In x (keys (map_erase k m)) -> In x (keys m).
Proof.
  unfold keys. rewrite !in_map_iff. intros ([k' v] & <- & H).
  apply In_erase in H. exists (k', v). tauto.
Qed.

Lemma NoDup_keys_erase m k : NoDup (keys m) -> NoDup (keys (map_erase k m)).
Proof.
  induction m as [|[k' v'] m IH]; simpl; [auto|].
  intros Hnd. inversion Hnd as [|? ? Hni Hnd']; subst.
  destruct (k' =? k)%string; simpl; [auto|].
  constructor; [|auto]. intros H. apply Hni. eapply keys_erase_incl, H.
Qed.

Lemma find_modify_same m k f :
  find k (map_modify k f m) = option_map f (find k m).
Proof.
  induction m as [|[k' v'] m IH]; simpl; [reflexivity|].
  destruct (k' =? k)%string eqn:E; simpl; rewrite E; auto.
Qed.

Lemma find_modify_other m k k' f :
  k <> k' -> find k' (map_modify k f m) = find k' m.
Proof.
  intros Hne. induction m as [|[k0 v0] m IH]; simpl; [reflexivity|].
  destruct (k0 =? k)%string eqn:E; simpl.
  - apply String.eqb_eq in E. subst.
    apply String.eqb_neq in Hne. now rewrite Hne.
  - now rewrite IH.
Qed.

Lemma modify_not_found m k f : find k m = None -> map_modify k f m = m.
Proof.
  induction m as [|[k' v'] m IH]; simpl; [reflexivity|].
  destruct (k' =? k)%string; [discriminate|].
  intros H. now rewrite IH.
Qed.

Lemma keys_modify m k f : keys (map_modify k f m) = keys m.
Proof.
  induction m as [|[k' v'] m IH]; simpl; [reflexivity|].
  destruct (k' =? k)%string; simpl; [reflexivity | now rewrite IH].
Qed.

End MapFacts.

Lemma bootTarget_app (l r : list Effect) :
  bootTarget (l ++ r) =
    match bootTarget r with Some v => Some v | None => bootTarget l end.
Proof.
  induction l as [|e l IH]; simpl.
  - destruct (bootTarget r); reflexivity.
  - rewrite IH. destruct (bootTarget r); reflexivity.
Qed.

Lemma bootTarget_erase_calls (l : list Effect) (w id : string) :
  bootTarget (l ++ erase_calls w id) = Some w.
Proof. rewrite bootTarget_app. reflexivity. Qed.

(** ** erase and resetUbootEnvVars *)

Lemma lowest_fold_spec (acts : list (string * Activation)) (acc : Z * string) :
  let r := fold_left lowest_step acts acc in
  (r = acc /\
   forall k a p, In (k, a) acts -> redundancyPriority a = Some p -> fst acc < p)
  \/ (exists k a p, In (k, a) acts /\ redundancyPriority a = Some p /\
                    r = (p, versionId a)).
Proof.
  revert acc. induction acts as [|[k a] acts IH]; intros acc; simpl.
  - left. split; [reflexivity | intros ? ? ? []].
  - destruct (redundancyPriority a) as [p|] eqn:Ep.
    + destruct (p <=? fst acc) eqn:Ele.
      * assert (Hs : lowest_step acc (k, a) = (p, versionId a))
          by (unfold lowest_step; simpl; now rewrite Ep, Ele).
        rewrite Hs.
        destruct (IH (p, versionId a)) as [[Hr Hall] | (k' & a' & p' & Hin & Hp & Hr)].
        -- right. exists k, a, p. split; [now left|]. now split.
        -- right. exists k', a', p'. split; [now right|]. now split.
      * assert (Hs : lowest_step acc (k, a) = acc)
          by (unfold lowest_step; simpl; now rewrite Ep, Ele).
        rewrite Hs. apply Z.leb_gt in Ele.
        destruct (IH acc) as [[Hr Hall] | (k' & a' & p' & Hin & Hp & Hr)].
        -- left. split; [assumption|].
           intros k' a' p' [H|H] Hp'; [|eauto].
           injection H as -> ->. congruence.
        -- right. exists k', a', p'. split; [now right|]. now split.
    + assert (Hs : lowest_step acc (k, a) = acc)
        by (unfold lowest_step; simpl; now rewrite Ep).
      rewrite Hs.
      destruct (IH acc) as [[Hr Hall] | (k' & a' & p' & Hin & Hp & Hr)].
      * left. split; [assumption|].
        intros k' a' p' [H|H] Hp'; [|eauto].
        injection H as -> ->. congruence.
      * right. exists k', a', p'. split; [now right|]. now split.
Qed.

Lemma lowestPriorityVersion_no_priority (acts : list (string * Activation)) :
  no_priority acts -> lowestPriorityVersion acts = "".
Proof.
  intros Hno. unfold lowestPriorityVersion.
  destruct (lowest_fold_spec acts (255, "")) as [[Hr _] | (k & a & p & Hin & Hp & _)].
  - now rewrite Hr.
  - rewrite (Hno _ _ Hin) in Hp. discriminate.
Qed.

Lemma emit_effects (e : Effect) (st : ItemUpdater) :
  effects (emit e st) = effects st ++ [e].
Proof. reflexivity. Qed.

Lemma erase_refused_eq (MAX : nat) (id : string) (st : ItemUpdater) :
  erase_refused MAX id st = true -> erase MAX id st = st.
Proof.
  unfold erase_refused, erase. intros H.
  destruct (find id (versions st)); [|discriminate]. now rewrite H.
Qed.

Lemma erase_not_refused (MAX : nat) (id : string) (st : ItemUpdater) :
  erase_refused MAX id st = false ->
  erase MAX id st =
    mkItemUpdater
      (map_erase id (versions st))
      (map_erase id (activations st))
      (match find id (activations st) with
       | Some a => filter (fun x => negb (snd x =? path a)%string) (assocs st)
       | None => assocs st
       end)
      (fieldModeEnabled st)
      (effects st
       ++ erase_calls (lowestPriorityVersion (map_erase id (activations st))) id).
Proof.
  unfold erase_refused, erase. intros H.
  assert (Hacts :
    activations
      (match find id (activations st) with
       | Some a => with_activations (map_erase id) (removeAssociations (path a) st)
       | None => st
       end) = map_erase id (activations st)).
  { destruct (find id (activations st)) eqn:E; simpl; [reflexivity|].
    symmetry. now apply erase_not_found. }
  destruct (find id (versions st)) as [v|] eqn:Ev.
  - rewrite H. unfold resetUbootEnvVars, updateUbootEnvVars,
      removeReadOnlyPartition, with_versions, emit, erase_calls,
      lowestPriorityVersion. simpl. rewrite Hacts.
    destruct (find id (activations st)); simpl;
      rewrite <- !app_assoc; reflexivity.
  - unfold resetUbootEnvVars, updateUbootEnvVars,
      removeReadOnlyPartition, with_versions, emit, erase_calls,
      lowestPriorityVersion. simpl. rewrite Hacts.
    rewrite (erase_not_found _ _ Ev).
    destruct (find id (activations st)); simpl;
      rewrite <- !app_assoc; reflexivity.
Qed.

(** C3.  [erase] of the running functional version while more than one
    image may be active returns the state it was given: version map,
    activation map, associations, field mode and the log of calls to the
    helper and the persistent store are all unchanged. *)
Theorem erase_functional_is_refused
  (ACTIVE_BMC_MAX_ALLOWED : nat) (id : string) (st : ItemUpdater)
  (v : VersionClass) :
  find id (versions st) = Some v ->
  isFunctional v = true ->
  (1 < ACTIVE_BMC_MAX_ALLOWED)%nat ->
  erase ACTIVE_BMC_MAX_ALLOWED id st = st.
Proof.
  intros Hv Hf Hmax. apply erase_refused_eq. unfold erase_refused.
  rewrite Hv, Hf. simpl. now apply Nat.ltb_lt.
Qed.

(** C4 (amended).  When no activation has an initialised redundancy
    priority, [resetUbootEnvVars] leaves the registry as it is but still
    calls [updateUbootEnvVars] once, with the empty version id, which is
    handed to the helper. *)
Theorem resetUbootEnvVars_without_priorities (st : ItemUpdater) :
  no_priority (activations st) ->
  resetUbootEnvVars st = emit (helper_updateUbootVersionId "") st.
Proof.
  intros Hno. unfold resetUbootEnvVars, updateUbootEnvVars.
  fold (lowestPriorityVersion (activations st)).
  now rewrite lowestPriorityVersion_no_priority.
Qed.

(** C2 (amended).  When [erase] is not refused and every activation is
    stored under its own version id, the activation entry is removed
    before the boot target is recomputed, the recomputation runs whether
    or not the id was found, and the version written is either the empty
    id, when no remaining activation holds a priority, or the id of a
    remaining activation that holds one, which is not the erased id. *)
Theorem erase_boot_pointer
  (ACTIVE_BMC_MAX_ALLOWED : nat) (id : string) (st : ItemUpdater) :
  keyed_by_versionId (activations st) ->
  priorities_uint8 (activations st) ->
  erase_refused ACTIVE_BMC_MAX_ALLOWED id st = false ->
  let remaining := map_erase id (activations st) in
  let w := lowestPriorityVersion remaining in
  let st' := erase ACTIVE_BMC_MAX_ALLOWED id st in
  activations st' = remaining /\
  find id (activations st') = None /\
  effects st' = effects st ++ erase_calls w id /\
  bootTarget (effects st') = Some w /\
  ((w = "" /\ no_priority remaining)
   \/ (w <> id /\ exists a, In (w, a) (activations st') /\
                            redundancyPriority a <> None)).
Proof.
  intros Hkey Hu8 Hnr. cbv zeta. rewrite (erase_not_refused _ _ _ Hnr). simpl.
  split; [reflexivity|]. split; [apply find_erase_same|].
  split; [reflexivity|]. split; [apply bootTarget_erase_calls|].
  unfold lowestPriorityVersion.
  destruct (lowest_fold_spec (map_erase id (activations st)) (255, ""))
    as [[Hr Hall] | (k & a & p & Hin & Hp & Hr)].
  - left. rewrite Hr. split; [reflexivity|].
    intros k a Hin. destruct (redundancyPriority a) as [p|] eqn:Ep; [|reflexivity].
    specialize (Hall _ _ _ Hin Ep). simpl in Hall.
    apply In_erase in Hin. destruct Hin as [Hin _].
    specialize (Hu8 _ _ _ Hin Ep). lia.
  - right. rewrite Hr. simpl.
    pose proof Hin as Hin'. apply In_erase in Hin'. destruct Hin' as [Hin0 Hne].
    unfold keyed_by_versionId in Hkey. rewrite Forall_forall in Hkey.
    specialize (Hkey _ Hin0). simpl in Hkey. rewrite Hkey.
    split; [assumption|]. exists a. split; [assumption | congruence].
Qed.

Lemma erase_refused_after_erase (MAX : nat) (id : string) (st : ItemUpdater) :
  erase_refused MAX id st = false ->
  erase_refused MAX id (erase MAX id st) = false.
Proof.
  intros H. rewrite (erase_not_refused _ _ _ H). unfold erase_refused. simpl.
  now rewrite find_erase_same.
Qed.

(** C6 (amended).  A second [erase] of the same id never changes the
    version map, the activation map or the associations.  When the first
    call was not refused, the second one still recomputes the boot target
    and asks for the removal of the read-only partition, of the persisted
    data directory and of the helper's priority entry of that id; when the
    first call was refused (running image, more than one active slot) both
    calls do nothing at all. *)
Theorem erase_twice (ACTIVE_BMC_MAX_ALLOWED : nat) (id : string)
  (st : ItemUpdater) :
  let st1 := erase ACTIVE_BMC_MAX_ALLOWED id st in
  let st2 := erase ACTIVE_BMC_MAX_ALLOWED id st1 in
  versions st2 = versions st1 /\
  activations st2 = activations st1 /\
  assocs st2 = assocs st1 /\
  (erase_refused ACTIVE_BMC_MAX_ALLOWED id st = false ->
   effects st2 =
     effects st1 ++ erase_calls (lowestPriorityVersion (activations st1)) id) /\
  (erase_refused ACTIVE_BMC_MAX_ALLOWED id st = true -> st1 = st /\ st2 = st).
Proof.
  cbv zeta.
  destruct (erase_refused ACTIVE_BMC_MAX_ALLOWED id st) eqn:Hr.
  - rewrite !(erase_refused_eq _ _ _ Hr).
    repeat split; try reflexivity; discriminate.
  - pose proof (erase_refused_after_erase _ _ _ Hr) as Hr1.
    rewrite (erase_not_refused _ _ _ Hr1).
    rewrite (erase_not_refused _ _ _ Hr). simpl.
    rewrite !erase_erase, find_erase_same.
    repeat split; try reflexivity; discriminate.
Qed.

(** C4 as stated fails: on a fresh system the helper is still called. *)
Lemma resetUbootEnvVars_fresh_writes :
  no_priority (activations registry_fresh) /\
  effects registry_fresh = [] /\
  effects (resetUbootEnvVars registry_fresh) = [helper_updateUbootVersionId ""].
Proof.
  split; [|split; reflexivity].
  intros k a [H|[]]. now injection H as <- <-.
Qed.

(** C2 as stated fails: erasing the only image with a priority writes the
    empty id, which names nothing in the registry; and a refused erase does
    not recompute the boot target at all. *)
Lemma boot_pointer_may_name_nothing :
  (bootTarget (effects (erase 2 "b" registry_single)) = Some "" /\
   activations (erase 2 "b" registry_single) = []) /\
  effects (erase 2 "a" registry_abc) = effects registry_abc.
Proof. split; [split|]; reflexivity. Qed.

(** C6 as stated fails: the second erase of the running image performs no
    storage clean-up. *)
Lemma second_erase_of_running_image_skips_cleanup :
  let st1 := erase 2 "a" registry_abc in
  let st2 := erase 2 "a" st1 in
  effects st2 = effects st1 /\
  ~ In (helper_removeVersion "a") (effects st2) /\
  ~ In (removePersistDataDirectory "a") (effects st2) /\
  ~ In (helper_clearEntry "a") (effects st2).
Proof. cbv zeta. repeat split; try reflexivity; intros []. Qed.

Lemma verify_minimum_ship_level_witness :
  minimum_ship_level.verify "2.9.1" minimum_ship_level.dotted_pattern
    minimum_ship_level.dotted_search
    minimum_ship_level.uint8_of_int "2.8.7" = Some false
  /\ minimum_ship_level.verify "" minimum_ship_level.dotted_pattern
       minimum_ship_level.dotted_search
       minimum_ship_level.uint8_of_int "2.8.7" = Some true.
Proof.
  pose proof (verify_minimum_ship_level "2.9.1" minimum_ship_level.dotted_pattern
                minimum_ship_level.dotted_search
                minimum_ship_level.uint8_of_int "2.8.7") as H.
  pose proof (verify_minimum_ship_level "" minimum_ship_level.dotted_pattern
                minimum_ship_level.dotted_search
                minimum_ship_level.uint8_of_int "2.8.7") as H0.
  cbv zeta in H, H0.
  destruct H as (_ & H & _). destruct H0 as (H0 & _).
  split.
  - apply H; [discriminate | discriminate |].
    exists (minimum_ship_level.mkVersion 2 8 7), (minimum_ship_level.mkVersion 2 9 1).
    split; [reflexivity|]. split; [reflexivity|].
    right. split; [reflexivity|]. left. simpl. lia.
  - apply H0. now left.
Defined.

Lemma erase_functional_is_refused_witness :
  erase 2 "a" registry_abc = registry_abc.
Proof.
  apply (erase_functional_is_refused 2 "a" registry_abc
           (sample_version "2.9.1" true)).
  - reflexivity.
  - reflexivity.
  - lia.
Defined.

Lemma resetUbootEnvVars_without_priorities_witness :
  resetUbootEnvVars registry_fresh
  = emit (helper_updateUbootVersionId "") registry_fresh.
Proof.
  apply (resetUbootEnvVars_without_priorities registry_fresh).
  intros k a [H|[]]. now injection H as <- <-.
Defined.

Lemma priorities_uint8_abc : priorities_uint8 (activations registry_abc).
Proof.
  intros k a p [H|[H|[H|[]]]] Hp; injection H as <- <-; simpl in Hp;
    try discriminate; injection Hp as <-; lia.
Defined.

Lemma erase_boot_pointer_witness :
  effects (erase 2 "b" registry_abc) = effects registry_abc ++ erase_calls "a" "b"
  /\ bootTarget (effects (erase 2 "b" registry_abc)) = Some "a".
Proof.
  pose proof (erase_boot_pointer 2 "b" registry_abc) as H. cbv zeta in H.
  destruct H as (_ & _ & He & Hb & _).
  - repeat constructor.
  - exact priorities_uint8_abc.
  - reflexivity.
  - split; [exact He | exact Hb].
Defined.

Lemma erase_twice_witness :
  effects (erase 2 "b" (erase 2 "b" registry_abc))
  = effects (erase 2 "b" registry_abc) ++ erase_calls "a" "b".
Proof.
  pose proof (erase_twice 2 "b" registry_abc) as H. cbv zeta in H.
  destruct H as (_ & _ & _ & H & _). apply H. reflexivity.
Defined.

(** ** The priority map and the priority set of freePriority *)

Section InsertFacts.

Context {A : Type}.
Implicit Types (m : list (string * A)) (k : string).

Lemma insert_sorted_perm m k v : Permutation (insert_sorted k v m) ((k, v) :: m).
Proof.
  induction m as [|[k' v'] m IH]; simpl; [reflexivity|].
  destruct (String.ltb k k'); [reflexivity|].
  rewrite IH. apply perm_swap.
Qed.

Lemma find_insert_sorted_other m k k' v :
  k <> k' -> find k' (insert_sorted k v m) = find k' m.
Proof.
  intros Hne. apply String.eqb_neq in Hne.
  induction m as [|[k0 v0] m IH]; simpl.
  - now rewrite Hne.
  - destruct (String.ltb k k0); simpl.
    + now rewrite Hne.
    + now rewrite IH.
Qed.

Lemma find_insert_sorted_same m k v :
  find k m = None -> find k (insert_sorted k v m) = Some v.
Proof.
  induction m as [|[k0 v0] m IH]; simpl.
  - now rewrite String.eqb_refl.
  - destruct (k0 =? k)%string eqn:E; [discriminate|].
    intros H. destruct (String.ltb k k0); simpl.
    + now rewrite String.eqb_refl.
    + rewrite E. auto.
Qed.

Lemma find_map_insert m k k' v :
  find k' (map_insert k v m) =
    match find k' m with
    | Some x => Some x
    | None => if (k =? k')%string then Some v else None
    end.
Proof.
  unfold map_insert. destruct (find k m) eqn:Ek.
  - destruct (find k' m) eqn:Ek'; [reflexivity|].
    destruct (k =? k')%string eqn:E; [|reflexivity].
    apply String.eqb_eq in E. congruence.
  - destruct (k =? k')%string eqn:E.
    + apply String.eqb_eq in E. subst k'. rewrite Ek.
      now apply find_insert_sorted_same.
    + apply String.eqb_neq in E. rewrite (find_insert_sorted_other _ _ _ _ E).
      destruct (find k' m); reflexivity.
Qed.

Lemma NoDup_keys_map_insert m k v :
  NoDup (keys m) -> NoDup (keys (map_insert k v m)).
Proof.
  intros Hnd. unfold map_insert. destruct (find k m) eqn:Ek; [assumption|].
  apply (Permutation_NoDup (l := keys ((k, v) :: m))).
  - unfold keys at 1 2. apply Permutation_map. symmetry. apply insert_sorted_perm.
  - simpl. constructor; [|assumption]. now apply find_None_not_In.
Qed.

End InsertFacts.

Lemma priorityMap_fold_find (acts : list (string * Activation))
  (pm0 : list (string * Z)) (k : string) :
  NoDup (keys acts) ->
  find k
    (fold_left
       (fun pm intf =>
          match redundancyPriority (snd intf) with
          | Some p => map_insert (fst intf) p pm
          | None => pm
          end) acts pm0)
  = match find k pm0 with
    | Some p => Some p
    | None => prio_in acts k
    end.
Proof.
  revert pm0. induction acts as [|[k1 a1] acts IH]; intros pm0 Hnd; simpl.
  - destruct (find k pm0); reflexivity.
  - inversion Hnd as [|? ? Hni Hnd']; subst.
    rewrite (IH _ Hnd'). unfold prio_in. simpl.
    destruct (redundancyPriority a1) as [p|] eqn:Ep.
    + rewrite find_map_insert.
      destruct (find k pm0) eqn:E0; [reflexivity|].
      destruct (k1 =? k)%string; simpl; [now rewrite Ep | reflexivity].
    + destruct (find k pm0) eqn:E0; [reflexivity|].
      destruct (k1 =? k)%string eqn:E; simpl; [|reflexivity].
      apply String.eqb_eq in E. subst k1. rewrite Ep.
      apply find_None_not_In in Hni. fold (prio_in acts k).
      unfold prio_in. now rewrite Hni.
Qed.

Lemma priorityMap_fold_NoDup (acts : list (string * Activation))
  (pm0 : list (string * Z)) :
  NoDup (keys pm0) ->
  NoDup (keys
    (fold_left
       (fun pm intf =>
          match redundancyPriority (snd intf) with
          | Some p => map_insert (fst intf) p pm
          | None => pm
          end) acts pm0)).
Proof.
  revert pm0. induction acts as [|[k1 a1] acts IH]; intros pm0 Hnd; simpl.
  - assumption.
  - apply IH. destruct (redundancyPriority a1); [|assumption].
    now apply NoDup_keys_map_insert.
Qed.

Lemma priorityMap_find (value : Z) (versionId : string)
  (acts : list (string * Activation)) (k : string) :
  NoDup (keys acts) ->
  find k (priorityMap value versionId acts) =
    if (versionId =? k)%string then Some value else prio_in acts k.
Proof.
  intros Hnd. unfold priorityMap. rewrite (priorityMap_fold_find _ _ _ Hnd).
  rewrite find_map_insert. simpl.
  destruct (versionId =? k)%string; reflexivity.
Qed.

Lemma priorityMap_NoDup (value : Z) (versionId : string)
  (acts : list (string * Activation)) :
  NoDup (keys (priorityMap value versionId acts)).
Proof.
  apply priorityMap_fold_NoDup, NoDup_keys_map_insert. constructor.
Qed.

Lemma set_insert_perm (e : string * Z) (s : list (string * Z)) :
  Permutation (set_insert e s) (e :: s).
Proof.
  induction s as [|x s IH]; simpl; [reflexivity|].
  destruct (snd e <=? snd x); [reflexivity|].
  rewrite IH. apply perm_swap.
Qed.

Lemma set_insert_sorted (e : string * Z) (s : list (string * Z)) :
  StronglySorted le_priority s -> StronglySorted le_priority (set_insert e s).
Proof.
  induction s as [|x s IH]; simpl; intros Hs.
  - repeat constructor.
  - inversion Hs as [|? ? Hs' Hall]; subst.
    destruct (snd e <=? snd x) eqn:E.
    + apply Z.leb_le in E. constructor; [assumption|].
      constructor; [exact E|].
      eapply Forall_impl; [|exact Hall].
      unfold le_priority. intros; lia.
    + apply Z.leb_gt in E. constructor; [auto|].
      rewrite (set_insert_perm e s).
      constructor; [unfold le_priority; lia | assumption].
Qed.

Lemma prioritySet_fold (pm s0 : list (string * Z)) :
  StronglySorted le_priority s0 ->
  let s := fold_left (fun s e => set_insert e s) pm s0 in
  StronglySorted le_priority s /\ Permutation s (pm ++ s0).
Proof.
  revert s0. induction pm as [|e pm IH]; intros s0 Hs; simpl.
  - split; [assumption | reflexivity].
  - destruct (IH (set_insert e s0) (set_insert_sorted _ _ Hs)) as [H1 H2].
    split; [assumption|].
    rewrite H2, set_insert_perm. symmetry. apply Permutation_middle.
Qed.

Lemma prioritySet_sorted (pm : list (string * Z)) :
  StronglySorted le_priority (prioritySet pm).
Proof. apply (prioritySet_fold pm []). constructor. Qed.

Lemma prioritySet_perm (pm : list (string * Z)) : Permutation (prioritySet pm) pm.
Proof.
  destruct (prioritySet_fold pm [] (SSorted_nil _)) as [_ H].
  now rewrite app_nil_r in H.
Qed.

(** ** The collision cascade *)

Lemma Forall2_Forall_transfer {A B} (R : A -> B -> Prop) (P : A -> Prop)
  (Q : B -> Prop) (l : list A) (l' : list B) :
  Forall2 R l l' -> Forall P l -> (forall x y, R x y -> P x -> Q y) ->
  Forall Q l'.
Proof.
  intros H2 HP Himp. induction H2 as [|x y l l' HR H2 IH]; constructor.
  - inversion HP; subst. eauto.
  - inversion HP; subst. auto.
Qed.

Lemma Forall2_In_r {A B} (R : A -> B -> Prop) (l : list A) (l' : list B) (y : B) :
  Forall2 R l l' -> In y l' -> exists x, In x l /\ R x y.
Proof.
  induction 1 as [|x y' l l' HR H2 IH]; simpl; [tauto|].
  intros [<-|Hin].
  - exists x. auto.
  - destruct (IH Hin) as (x0 & Hx0 & HR0). exists x0. auto.
Qed.

Lemma bumped_weaken (fpv fpv' : Z) (e e' : string * Z) :
  fpv <= fpv' -> bumped fpv' e e' -> bumped fpv e e'.
Proof. unfold bumped. intros Hle [Hk [H|[H1 H2]]]; split; auto; right; lia. Qed.

Lemma bump_spec (o : list (string * Z)) (fpv : Z) :
  0 <= fpv ->
  StronglySorted lt_priority o ->
  (exists g, fpv <= g <= 255 /\ Forall (fun e => snd e <> g) o) ->
  StronglySorted lt_priority (bump o fpv) /\
  Forall (fun e => snd e <> fpv) (bump o fpv) /\
  Forall2 (bumped fpv) o (bump o fpv).
Proof.
  revert fpv. induction o as [|[k p] r IH]; intros fpv H0 Hs (g & Hg & Hgap); simpl.
  - repeat constructor.
  - inversion Hs as [|? ? Hs' Hall]; subst.
    inversion Hgap as [|? ? Hgp Hgr]; subst. simpl in Hgp.
    destruct (p =? fpv) eqn:E.
    + apply Z.eqb_eq in E. subst p.
      assert (Hlt : fpv < 255) by lia.
      assert (Hm : (fpv + 1) mod 256 = fpv + 1) by (apply Z.mod_small; lia).
      rewrite Hm.
      destruct (IH (fpv + 1)) as (Hs1 & Hne1 & Hb1);
        [lia | assumption | exists g; split; [lia | assumption] |].
      assert (Hgt : Forall (fun e => fpv + 1 < snd e) (bump r (fpv + 1))).
      { assert (Hge : Forall (fun e => fpv + 1 <= snd e) (bump r (fpv + 1))).
        { apply (Forall2_Forall_transfer _ _ _ _ _ Hb1 Hall).
          unfold bumped, lt_priority. simpl. intros x y [_ Hxy] Hx. lia. }
        rewrite Forall_forall in *. intros e He.
        specialize (Hge e He). specialize (Hne1 e He). simpl in *. lia. }
      split; [|split].
      * constructor; [assumption|].
        eapply Forall_impl; [|exact Hgt]. unfold lt_priority. simpl. auto.
      * constructor; [simpl; lia|].
        eapply Forall_impl; [|exact Hgt]. simpl. intros; lia.
      * constructor.
        -- unfold bumped. simpl. split; [reflexivity|]. right. lia.
        -- eapply Forall2_impl; [|exact Hb1].
           intros a b. apply bumped_weaken. lia.
    + apply Z.eqb_neq in E.
      destruct (IH fpv) as (Hs1 & Hne1 & Hb1);
        [lia | assumption | exists g; split; [lia | assumption] |].
      split; [|split].
      * constructor; [assumption|].
        apply (Forall2_Forall_transfer _ _ _ _ _ Hb1 Hall).
        unfold bumped, lt_priority. simpl. intros x y [_ Hxy] Hx. lia.
      * constructor; [simpl; assumption | assumption].
      * constructor; [|assumption].
        unfold bumped. simpl. auto.
Qed.

Lemma bump_keys (o : list (string * Z)) (fpv : Z) : keys (bump o fpv) = keys o.
Proof.
  revert fpv. induction o as [|[k p] r IH]; intros fpv; simpl; [reflexivity|].
  destruct (p =? fpv); simpl; now rewrite IH.
Qed.

Lemma sorted_lt_same_priority (l : list (string * Z)) (k1 k2 : string) (p : Z) :
  StronglySorted lt_priority l -> In (k1, p) l -> In (k2, p) l -> k1 = k2.
Proof.
  induction 1 as [|x l Hs IH Hall]; simpl; [tauto|].
  rewrite Forall_forall in Hall. unfold lt_priority in Hall.
  intros [H1|H1] [H2|H2].
  - congruence.
  - subst x. specialize (Hall _ H2). simpl in Hall. lia.
  - subst x. specialize (Hall _ H1). simpl in Hall. lia.
  - auto.
Qed.

Lemma StronglySorted_filter {A} (R : A -> A -> Prop) (f : A -> bool) (l : list A) :
  StronglySorted R l -> StronglySorted R (filter f l).
Proof.
  induction 1 as [|x l Hs IH Hall]; simpl; [constructor|].
  destruct (f x); [|assumption].
  constructor; [assumption|].
  rewrite Forall_forall in *. intros y Hy. apply filter_In in Hy. apply Hall, Hy.
Qed.

Lemma sorted_le_strict (l : list (string * Z)) :
  StronglySorted le_priority l ->
  NoDup (keys l) ->
  (forall k1 k2 p, In (k1, p) l -> In (k2, p) l -> k1 = k2) ->
  StronglySorted lt_priority l.
Proof.
  induction 1 as [|[k p] l Hs IH Hall]; intros Hnd Hinj; [constructor|].
  simpl in Hnd. inversion Hnd as [|? ? Hni Hnd']; subst.
  constructor.
  - apply IH; [assumption|]. intros k1 k2 q H1 H2.
    apply (Hinj k1 k2 q); now right.
  - rewrite Forall_forall in *. intros [k' q] Hin.
    specialize (Hall _ Hin). unfold le_priority, lt_priority in *. simpl in *.
    destruct (Z.eq_dec p q) as [->|Hne]; [|lia].
    exfalso. apply Hni.
    rewrite (Hinj k k' q); [| now left | now right].
    change k' with (fst (k', q)). now apply in_map.
Qed.

Lemma prio_in_modify_same (acts : list (string * Activation)) (k : string) (v : option Z) :
  prio_in (map_modify k (set_redundancyPriority v) acts) k
  = match find k acts with Some _ => v | None => None end.
Proof.
  unfold prio_in. rewrite find_modify_same.
  destruct (find k acts); reflexivity.
Qed.

Lemma prio_in_modify_other (acts : list (string * Activation)) (k k' : string)
  (f : Activation -> Activation) :
  k <> k' -> prio_in (map_modify k f acts) k' = prio_in acts k'.
Proof. intros H. unfold prio_in. now rewrite find_modify_other. Qed.

Lemma forget_priority_modify (acts : list (string * Activation)) (k : string)
  (v : option Z) :
  map forget_priority (map_modify k (set_redundancyPriority v) acts)
  = map forget_priority acts.
Proof.
  induction acts as [|[k' a] acts IH]; simpl; [reflexivity|].
  destruct (k' =? k)%string; simpl; [reflexivity | now rewrite IH].
Qed.

Lemma sdbusPriority_activations (k : string) (v : Z) (st : ItemUpdater) :
  activations (sdbusPriority k v st)
  = map_modify k (set_redundancyPriority (Some v)) (activations st).
Proof.
  unfold sdbusPriority. destruct (find k (activations st)) eqn:E; [reflexivity|].
  symmetry. now apply modify_not_found.
Qed.

Lemma sdbusPriority_frame (k : string) (v : Z) (st : ItemUpdater) :
  versions (sdbusPriority k v st) = versions st /\
  assocs (sdbusPriority k v st) = assocs st /\
  fieldModeEnabled (sdbusPriority k v st) = fieldModeEnabled st /\
  bootTarget (effects (sdbusPriority k v st)) = bootTarget (effects st).
Proof.
  unfold sdbusPriority. destruct (find k (activations st)); simpl; auto.
  repeat split. rewrite <- app_assoc, bootTarget_app. reflexivity.
Qed.

Lemma cascade_others (versionId : string) (l : list (string * Z))
  (acc : Z * ItemUpdater) :
  cascade versionId l acc = cascade versionId (others versionId l) acc.
Proof.
  unfold cascade, others. revert acc.
  induction l as [|[k p] l IH]; intros acc; simpl; [reflexivity|].
  destruct (k =? versionId)%string eqn:E; simpl.
  - rewrite <- IH. unfold cascade_step at 2. simpl. now rewrite E.
  - apply IH.
Qed.

(** The cascade changes priorities only, and only as [bump] says. *)
Lemma cascade_state (versionId : string) (o : list (string * Z)) (fpv : Z)
  (st : ItemUpdater) :
  Forall (fun e => fst e <> versionId) o ->
  NoDup (keys o) ->
  (forall k p, In (k, p) o -> prio_in (activations st) k = Some p) ->
  let st' := snd (cascade versionId o (fpv, st)) in
  forall k, prio_in (activations st') k
            = match find k (bump o fpv) with
              | Some p' => Some p'
              | None => prio_in (activations st) k
              end.
Proof.
  revert fpv st. induction o as [|[k0 p0] r IH]; intros fpv st Hne Hnd Hcons; simpl.
  - reflexivity.
  - inversion Hne as [|? ? Hk0 Hne']; subst. simpl in Hk0.
    inversion Hnd as [|? ? Hni Hnd']; subst.
    apply String.eqb_neq in Hk0.
    assert (Hfound : exists a, find k0 (activations st) = Some a).
    { specialize (Hcons k0 p0 (or_introl eq_refl)). unfold prio_in in Hcons.
      destruct (find k0 (activations st)) as [a|]; [eauto | discriminate]. }
    destruct Hfound as [a0 Ha0].
    unfold cascade in *. simpl. unfold cascade_step at 2. simpl.
    rewrite Hk0.
    destruct (p0 =? fpv) eqn:E; intros k.
    + set (v := (fpv + 1) mod 256).
      rewrite (IH v (sdbusPriority k0 v st) Hne' Hnd').
      * simpl. destruct (k0 =? k)%string eqn:Ek.
        -- apply String.eqb_eq in Ek. subst k.
           assert (Hnone : find k0 (bump r v) = None).
           { apply find_None_not_In. now rewrite bump_keys. }
           rewrite Hnone, sdbusPriority_activations, prio_in_modify_same.
           now rewrite Ha0.
        -- apply String.eqb_neq in Ek.
           rewrite sdbusPriority_activations, (prio_in_modify_other _ _ _ _ Ek).
           reflexivity.
      * intros k' p' Hin.
        rewrite sdbusPriority_activations, prio_in_modify_other.
        -- apply Hcons. now right.
        -- intros ->. apply Hni. change k' with (fst (k', p')). now apply in_map.
    + rewrite (IH fpv st Hne' Hnd').
      * simpl. destruct (k0 =? k)%string eqn:Ek; [|reflexivity].
        apply String.eqb_eq in Ek. subst k.
        assert (Hnone : find k0 (bump r fpv) = None).
        { apply find_None_not_In. now rewrite bump_keys. }
        rewrite Hnone. apply Hcons. now left.
      * intros k' p' Hin. apply Hcons. now right.
Qed.

Lemma cascade_frame (versionId : string) (l : list (string * Z))
  (acc : Z * ItemUpdater) :
  let st' := snd (cascade versionId l acc) in
  map forget_priority (activations st') = map forget_priority (activations (snd acc)) /\
  versions st' = versions (snd acc) /\
  assocs st' = assocs (snd acc) /\
  fieldModeEnabled st' = fieldModeEnabled (snd acc) /\
  bootTarget (effects st') = bootTarget (effects (snd acc)).
Proof.
  unfold cascade. revert acc.
  induction l as [|[k p] l IH]; intros acc; simpl; [auto 6|].
  destruct (IH (cascade_step versionId acc (k, p))) as (H1 & H2 & H3 & H4 & H5).
  rewrite H1, H2, H3, H4, H5. clear.
  unfold cascade_step. simpl.
  destruct (k =? versionId)%string; [auto 6|].
  destruct (p =? fst acc); [|auto 6]. simpl.
  rewrite sdbusPriority_activations, forget_priority_modify.
  destruct (sdbusPriority_frame k ((fst acc + 1) mod 256) (snd acc))
    as (F1 & F2 & F3 & F4).
  auto 6.
Qed.

(** ** freePriority on a registry whose other priorities are distinct *)

(** Of [prioritySet] the proofs of this section use only that it is an
    ascending permutation of the entries of the priority map. *)

Section FreePriorityResolves.

Variables (value : Z) (versionId : string) (st : ItemUpdater).

Hypothesis Hrange : 0 <= value <= 255.
Hypothesis Hnd : NoDup (keys (activations st)).
Hypothesis Hself : priorityOf st versionId = Some value.
Hypothesis Hdist : others_distinct versionId (activations st).
Hypothesis Hfree : free_value_above versionId value (activations st).

Let pset := prioritySet (priorityMap value versionId (activations st)).
Let o := others versionId pset.
Let st1 := snd (cascade versionId pset (value, st)).

Lemma pset_In (k : string) (p : Z) :
  In (k, p) pset <-> prio_in (activations st) k = Some p.
Proof using Hnd Hself.
  assert (Hf : find k (priorityMap value versionId (activations st))
               = prio_in (activations st) k).
  { rewrite (priorityMap_find _ _ _ _ Hnd).
    destruct (versionId =? k)%string eqn:E; [|reflexivity].
    apply String.eqb_eq in E. subst k. symmetry. exact Hself. }
  rewrite <- Hf. split; intros H.
  - apply In_find; [apply priorityMap_NoDup|].
    eapply Permutation_in; [apply prioritySet_perm | exact H].
  - eapply Permutation_in; [symmetry; apply prioritySet_perm|].
    now apply find_In.
Qed.

Lemma pset_NoDup : NoDup (keys pset).
Proof using Type.
  eapply Permutation_NoDup; [|apply (priorityMap_NoDup value versionId (activations st))].
  unfold keys. apply Permutation_map. symmetry. apply prioritySet_perm.
Qed.

Lemma others_In (k : string) (p : Z) :
  In (k, p) o <-> k <> versionId /\ prio_in (activations st) k = Some p.
Proof using Hnd Hself.
  unfold o, others. rewrite filter_In, pset_In. simpl.
  rewrite negb_true_iff, String.eqb_neq. clear. tauto.
Qed.

Lemma others_NoDup : NoDup (keys o).
Proof using Type.
  pose proof pset_NoDup as H. unfold o, others, keys. unfold keys in H.
  induction pset as [|[k p] l IH]; simpl; simpl in H; [constructor|].
  inversion H as [|? ? Hni Hnd']; subst.
  destruct (k =? versionId)%string; simpl; [auto|].
  constructor; [|auto]. intros Hin. apply Hni.
  apply in_map_iff in Hin. destruct Hin as (x & Hx & Hin).
  apply filter_In in Hin. apply in_map_iff. exists x.
  split; [exact Hx | apply Hin].
Qed.

Lemma others_not_self : Forall (fun e => fst e <> versionId) o.
Proof using Type.
  apply Forall_forall. intros e He. apply filter_In in He.
  destruct He as [_ He]. now apply negb_true_iff, String.eqb_neq in He.
Qed.

Lemma others_strict : StronglySorted lt_priority o.
Proof using Hnd Hself Hdist.
  apply sorted_le_strict.
  - apply StronglySorted_filter, prioritySet_sorted.
  - apply others_NoDup.
  - intros k1 k2 p H1 H2. apply others_In in H1, H2.
    apply (Hdist k1 k2 p); [apply H1 | apply H2 | apply H1 | apply H2].
Qed.

Lemma others_gap :
  exists g, value <= g <= 255 /\ Forall (fun e => snd e <> g) o.
Proof using Hnd Hself Hfree.
  destruct Hfree as (g & Hg & Hno). exists g. split; [assumption|].
  apply Forall_forall. intros [k p] Hin. simpl. intros ->.
  apply others_In in Hin. destruct Hin as [Hk Hp]. exact (Hno k Hk Hp).
Qed.

Lemma cascade_priorities (k : string) :
  prio_in (activations st1) k
  = match find k (bump o value) with
    | Some p' => Some p'
    | None => prio_in (activations st) k
    end.
Proof using Hnd Hself.
  unfold st1. rewrite cascade_others. fold o.
  apply cascade_state.
  - apply others_not_self.
  - apply others_NoDup.
  - intros k' p' Hin. apply others_In in Hin. apply Hin.
Qed.

Lemma after_holder (k : string) (p : Z) :
  prio_in (activations st1) k = Some p <->
  (k = versionId /\ p = value) \/ In (k, p) (bump o value).
Proof using Hnd Hself.
  rewrite cascade_priorities.
  assert (Hndb : NoDup (keys (bump o value)))
    by (rewrite bump_keys; apply others_NoDup).
  destruct (find k (bump o value)) as [p'|] eqn:E.
  - split.
    + intros [= ->]. right. now apply find_In.
    + intros [[-> ->]|Hin].
      * exfalso. apply find_In in E.
        assert (Hk : In versionId (keys (bump o value)))
          by (change versionId with (fst (versionId, p')); now apply in_map).
        rewrite bump_keys in Hk. apply in_map_iff in Hk.
        destruct Hk as (x & Hx & Hin). pose proof others_not_self as Hns.
        rewrite Forall_forall in Hns. exact (Hns x Hin Hx).
      * apply (In_find _ _ _ Hndb) in Hin. congruence.
  - assert (Hnk : ~ In k (keys o))
      by (rewrite <- (bump_keys o value); now apply find_None_not_In).
    split.
    + intros Hp. left.
      destruct (string_dec k versionId) as [->|Hne].
      * split; [reflexivity|]. unfold priorityOf in Hself.
        unfold prio_in in Hp. congruence.
      * exfalso. apply Hnk. change k with (fst (k, p)).
        apply in_map. apply others_In. auto.
    + intros [[-> ->]|Hin]; [exact Hself|].
      exfalso. apply Hnk. rewrite <- (bump_keys o value).
      change k with (fst (k, p)). now apply in_map.
Qed.

Lemma pset_head_least :
  exists k0 p0 rest, pset = (k0, p0) :: rest /\ p0 <= value /\
                     forall k p, In (k, p) pset -> p0 <= p.
Proof using Hnd Hself.
  assert (Hin : In (versionId, value) pset) by (apply pset_In; exact Hself).
  pose proof (prioritySet_sorted (priorityMap value versionId (activations st)))
    as Hs. fold pset in Hs.
  destruct pset as [|[k0 p0] rest]; [destruct Hin|].
  exists k0, p0, rest. split; [reflexivity|].
  inversion Hs as [|? ? _ Hall]; subst. rewrite Forall_forall in Hall.
  assert (Hleast : forall k p, In (k, p) ((k0, p0) :: rest) -> p0 <= p).
  { intros k p [H|H].
    - injection H as _ <-. lia.
    - apply (Hall _ H). }
  split; [apply (Hleast versionId value Hin) | exact Hleast].
Qed.

Lemma after_not_below (p0 : Z) (k : string) (p : Z) :
  (forall k' p', In (k', p') pset -> p0 <= p') -> p0 <= value ->
  prio_in (activations st1) k = Some p -> p0 <= p.
Proof using Hrange Hnd Hself Hdist Hfree.
  intros Hleast Hle Hp. apply after_holder in Hp.
  destruct Hp as [[_ ->]|Hin]; [assumption|].
  destruct (bump_spec o value) as (_ & _ & Hb);
    [lia | apply others_strict | apply others_gap |].
  destruct (Forall2_In_r _ _ _ _ Hb Hin) as ([k' q] & Hq & _ & Hrel).
  simpl in Hrel. apply filter_In in Hq. destruct Hq as [Hq _].
  specialize (Hleast _ _ Hq). lia.
Qed.

(** The cascade on a registry without other collisions: no priority is
    shared afterwards and the boot target holds the least one. *)
Lemma freePriority_distinct :
  let st' := freePriority value versionId st in
  (forall k1 k2 p,
      priorityOf st' k1 = Some p -> priorityOf st' k2 = Some p -> k1 = k2) /\
  exists w pw log,
    effects st' = log ++ [helper_updateUbootVersionId w] /\
    priorityOf st' w = Some pw /\
    forall k p, priorityOf st' k = Some p -> pw <= p.
Proof using Hrange Hnd Hself Hdist Hfree.
  cbv zeta.
  assert (Hact : forall k, priorityOf (freePriority value versionId st) k
                           = prio_in (activations st1) k) by reflexivity.
  destruct (bump_spec o value) as (Hs & Hne & Hb);
    [lia | apply others_strict | apply others_gap |].
  split.
  - intros k1 k2 p H1 H2. rewrite Hact in H1, H2.
    apply after_holder in H1, H2. rewrite Forall_forall in Hne.
    destruct H1 as [[-> ->]|H1], H2 as [[-> Hp]|H2].
    + reflexivity.
    + exfalso. exact (Hne _ H2 eq_refl).
    + subst p. exfalso. exact (Hne _ H1 eq_refl).
    + exact (sorted_lt_same_priority _ _ _ _ Hs H1 H2).
  - destruct pset_head_least as (k0 & p0 & rest & Hps & Hle & Hleast).
    unfold freePriority. fold pset. fold st1.
    destruct (value =? p0) eqn:E.
    + apply Z.eqb_eq in E. subst p0.
      exists versionId, value, (effects st1).
      split; [rewrite Hps; simpl; now rewrite Z.eqb_refl|].
      split; [apply after_holder; now left|].
      intros k p Hp. exact (after_not_below value k p Hleast Hle Hp).
    + exists k0, p0, (effects st1).
      split; [rewrite Hps; simpl; now rewrite E|].
      assert (Hk0 : k0 <> versionId).
      { intros ->. apply Z.eqb_neq in E. apply E.
        assert (Hin : In (versionId, p0) pset) by (rewrite Hps; now left).
        apply pset_In in Hin. unfold priorityOf in Hself.
        unfold prio_in in Hin. congruence. }
      split.
      * apply after_holder. right. unfold o. rewrite Hps. unfold others.
        simpl. apply String.eqb_neq in Hk0. rewrite Hk0. simpl.
        rewrite Z.eqb_sym, E. now left.
      * intros k p Hp. exact (after_not_below p0 k p Hleast Hle Hp).
Qed.

End FreePriorityResolves.

(** X12.  The priority setter stores the value and then calls
    [freePriority]: when the other images hold distinct priorities and
    some value from the requested one up to 255 is held by none of them,
    the priorities are distinct after the call, and its last effect sets
    the boot target to a version whose priority is the least. *)
Lemma priority_setter_resolves (key : string) (value : Z) (st : ItemUpdater)
  (a : Activation) :
  0 <= value <= 255 ->
  NoDup (keys (activations st)) ->
  find key (activations st) = Some a ->
  versionId a = key ->
  others_distinct key (activations st) ->
  free_value_above key value (activations st) ->
  let st' := RedundancyPriority_priority key value st in
  (forall k1 k2 p,
      priorityOf st' k1 = Some p -> priorityOf st' k2 = Some p -> k1 = k2) /\
  exists w pw log,
    effects st' = log ++ [helper_updateUbootVersionId w] /\
    priorityOf st' w = Some pw /\
    forall k p, priorityOf st' k = Some p -> pw <= p.
Proof.
  intros Hr Hnd Ha Hv Hd Hf. unfold RedundancyPriority_priority.
  rewrite Ha, Hv.
  set (st2 := savePriority key value
                (modify key (set_redundancyPriority (Some value)) st)).
  assert (Hacts : activations st2
                  = map_modify key (set_redundancyPriority (Some value))
                      (activations st)) by reflexivity.
  assert (Hother : forall k, k <> key ->
            prio_in (activations st2) k = prio_in (activations st) k).
  { intros k Hk. rewrite Hacts. apply prio_in_modify_other. congruence. }
  apply (freePriority_distinct value key st2).
  - exact Hr.
  - rewrite Hacts, keys_modify. exact Hnd.
  - change (prio_in (activations st2) key = Some value).
    rewrite Hacts, prio_in_modify_same, Ha. reflexivity.
  - intros k1 k2 p H1 H2. rewrite (Hother k1 H1), (Hother k2 H2).
    now apply Hd.
  - destruct Hf as (g & Hg & Hno). exists g. split; [exact Hg|].
    intros k Hk. rewrite (Hother k Hk). now apply Hno.
Qed.


(** Case analysis on which key of a concrete map a symbolic key is. *)
Ltac case_key k :=
  repeat match goal with
    | |- context [(?s =? k)%string] =>
        let E := fresh "E" in
        destruct (s =? k)%string eqn:E; [apply String.eqb_eq in E|];
        cbn -[String.eqb]
    end.


(** ** Wrap-around of the free priority value *)

Lemma bump_first_collision (o : list (string * Z)) (fpv : Z) (id : string) :
  StronglySorted lt_priority o -> NoDup (keys o) -> In (id, fpv) o ->
  find id (bump o fpv) = Some ((fpv + 1) mod 256).
Proof.
  induction o as [|[k p] r IH]; simpl; [tauto|].
  intros Hs Hnd Hin.
  inversion Hs as [|? ? Hs' Hall]; subst.
  inversion Hnd as [|? ? Hni Hnd']; subst.
  destruct Hin as [H|H].
  - injection H as -> ->. rewrite Z.eqb_refl. simpl.
    now rewrite String.eqb_refl.
  - rewrite Forall_forall in Hall. specialize (Hall _ H).
    unfold lt_priority in Hall. simpl in Hall.
    assert (E : (p =? fpv) = false) by (apply Z.eqb_neq; lia).
    rewrite E. simpl.
    destruct (k =? id)%string eqn:Ek; [|auto].
    apply String.eqb_eq in Ek. subst k. exfalso. apply Hni.
    change id with (fst (id, fpv)). now apply in_map.
Qed.

(** When [value] is 255 and another image holds 255, that image ends at
    priority 0. *)
Lemma freePriority_wraps_to_zero (versionId id : string) (st : ItemUpdater) :
  NoDup (keys (activations st)) ->
  priorityOf st versionId = Some 255 ->
  others_distinct versionId (activations st) ->
  id <> versionId ->
  priorityOf st id = Some 255 ->
  priorityOf (freePriority 255 versionId st) id = Some 0.
Proof.
  intros Hnd Hself Hdist Hne Hid.
  change (prio_in (activations (snd (cascade versionId
            (prioritySet (priorityMap 255 versionId (activations st)))
            (255, st)))) id = Some 0).
  rewrite (cascade_priorities 255 versionId st Hnd Hself).
  rewrite (bump_first_collision _ 255 id).
  - reflexivity.
  - now apply others_strict.
  - apply others_NoDup.
  - apply others_In; auto.
Qed.

(** C10.  The running free value is a [uint8_t]: when the loop meets an
    entry other than the version being set whose priority equals the free
    value 255, the increment wraps to 0 and that entry is stored, persisted
    and published with priority 0. *)
Theorem cascade_wraps_at_255 (setId id : string) (st : ItemUpdater)
  (a : Activation) :
  id <> setId ->
  find id (activations st) = Some a ->
  let r := cascade_step setId (255, st) (id, 255) in
  fst r = 0 /\
  priorityOf (snd r) id = Some 0 /\
  effects (snd r)
  = effects st ++ [storePriority (versionId a) 0;
                   helper_setEntry (versionId a) 0].
Proof.
  intros Hne Ha. apply String.eqb_neq in Hne.
  assert (Hstep : cascade_step setId (255, st) (id, 255)
                  = (0, sdbusPriority id 0 st)).
  { unfold cascade_step. cbn [fst snd]. rewrite Hne. reflexivity. }
  cbv zeta. rewrite Hstep. cbn [fst snd].
  split; [reflexivity|]. split.
  - change (prio_in (activations (sdbusPriority id 0 st)) id = Some 0).
    rewrite sdbusPriority_activations, prio_in_modify_same. now rewrite Ha.
  - unfold sdbusPriority. rewrite Ha. simpl. now rewrite <- app_assoc.
Qed.

Lemma cascade_wraps_at_255_witness :
  priorityOf (snd (cascade_step "c" (255, registry_wrap) ("a", 255))) "a" = Some 0
  /\ priorityOf (freePriority 255 "c" registry_wrap) "a" = Some 0.
Proof.
  split.
  - apply (cascade_wraps_at_255 "c" "a" registry_wrap
             (sample_activation "a" Active (Some 255))).
    + discriminate.
    + reflexivity.
  - reflexivity.
Defined.

(** ** freeSpace *)

Lemma pq_push_perm (e : Z * string) (pq : list (Z * string)) :
  Permutation (pq_push e pq) (e :: pq).
Proof.
  induction pq as [|x r IH]; simpl; [reflexivity|].
  destruct (pair_ltb x e); [reflexivity|].
  rewrite IH. apply perm_swap.
Qed.

Lemma pair_ltb_false (x e : Z * string) : pair_ltb x e = false -> fst e <= fst x.
Proof.
  unfold pair_ltb. intros H. apply orb_false_iff in H. destruct H as [H _].
  now apply Z.ltb_ge in H.
Qed.

Lemma pair_ltb_true (x e : Z * string) : pair_ltb x e = true -> fst x <= fst e.
Proof.
  unfold pair_ltb. intros H. apply orb_true_iff in H.
  destruct H as [H|H].
  - apply Z.ltb_lt in H. lia.
  - apply andb_true_iff in H. destruct H as [H _]. apply Z.eqb_eq in H. lia.
Qed.

Lemma pq_push_sorted (e : Z * string) (pq : list (Z * string)) :
  StronglySorted descending pq -> StronglySorted descending (pq_push e pq).
Proof.
  induction pq as [|x r IH]; simpl; intros Hs.
  - repeat constructor.
  - inversion Hs as [|? ? Hs' Hall]; subst.
    destruct (pair_ltb x e) eqn:E.
    + apply pair_ltb_true in E. constructor; [assumption|].
      constructor; [exact E|].
      eapply Forall_impl; [|exact Hall]. unfold descending. intros; lia.
    + apply pair_ltb_false in E. constructor; [auto|].
      rewrite (pq_push_perm e r). constructor; assumption.
Qed.

Lemma candidates_of_cons (MAX : nat) (callerId : string)
  (vers : list (string * VersionClass)) (k : string) (a : Activation)
  (acts : list (string * Activation)) :
  candidates_of MAX callerId vers ((k, a) :: acts)
  = if is_candidate MAX callerId vers a
    then (eviction_priority a, versionId a) :: candidates_of MAX callerId vers acts
    else candidates_of MAX callerId vers acts.
Proof.
  unfold candidates_of. simpl.
  destruct (is_candidate MAX callerId vers a); reflexivity.
Qed.

Lemma collect_step_eq (MAX : nat) (callerId : string)
  (vers : list (string * VersionClass)) (c0 : nat) (pq0 : list (Z * string))
  (k : string) (a : Activation) :
  (isActiveOrFailed a = true -> find (versionId a) vers <> None) ->
  collect_step MAX callerId vers (Some (c0, pq0)) (k, a)
  = if isActiveOrFailed a
    then if is_candidate MAX callerId vers a
         then Some (S c0, pq_push (eviction_priority a, versionId a) pq0)
         else Some (S c0, pq0)
    else Some (c0, pq0).
Proof.
  intros Hcov. unfold collect_step, is_candidate, eviction_priority. simpl.
  destruct (isActiveOrFailed a) eqn:Eaf; [|reflexivity].
  destruct (find (versionId a) vers) as [v|] eqn:Ev;
    [|exfalso; exact (Hcov eq_refl eq_refl)].
  simpl.
  destruct ((isFunctional v && (1 <? MAX)%nat
             || (versionId a =? callerId)%string)%bool); reflexivity.
Qed.

Lemma collect_fold (MAX : nat) (callerId : string)
  (vers : list (string * VersionClass)) (acts : list (string * Activation))
  (c0 : nat) (pq0 : list (Z * string)) :
  versions_cover vers acts ->
  StronglySorted descending pq0 ->
  exists pq,
    fold_left (collect_step MAX callerId vers) acts (Some (c0, pq0))
    = Some ((c0 + List.length (filter (fun kv => isActiveOrFailed (snd kv)) acts))%nat, pq)
    /\ Permutation pq (candidates_of MAX callerId vers acts ++ pq0)
    /\ StronglySorted descending pq.
Proof.
  revert c0 pq0. induction acts as [|[k a] acts IH]; intros c0 pq0 Hcov Hs.
  - exists pq0. simpl. rewrite Nat.add_0_r. auto.
  - assert (Hcov' : versions_cover vers acts).
    { intros k' a' Hin. apply (Hcov k' a'). now right. }
    cbn [fold_left filter snd]. rewrite candidates_of_cons.
    rewrite (collect_step_eq MAX callerId vers c0 pq0 k a
               (Hcov k a (or_introl eq_refl))).
    destruct (isActiveOrFailed a) eqn:Eaf.
    + destruct (is_candidate MAX callerId vers a) eqn:Ec.
      * destruct (IH (S c0) (pq_push (eviction_priority a, versionId a) pq0)
                    Hcov' (pq_push_sorted _ _ Hs)) as (pq & H1 & H2 & H3).
        exists pq. split; [|split; [|assumption]].
        -- rewrite H1. cbn [List.length]. f_equal; f_equal; lia.
        -- rewrite H2, pq_push_perm. symmetry. apply Permutation_middle.
      * destruct (IH (S c0) pq0 Hcov' Hs) as (pq & H1 & H2 & H3).
        exists pq. rewrite H1. cbn [List.length].
        split; [f_equal; f_equal; lia|]. auto.
    + unfold is_candidate. rewrite Eaf. simpl.
      destruct (IH c0 pq0 Hcov' Hs) as (pq & H1 & H2 & H3).
      exists pq. auto.
Qed.

Lemma collect_spec (MAX : nat) (callerId : string) (st : ItemUpdater) :
  versions_cover (versions st) (activations st) ->
  exists pq,
    collect MAX callerId st = Some (countActiveOrFailed st, pq)
    /\ Permutation pq (candidates MAX callerId st)
    /\ StronglySorted descending pq.
Proof.
  intros Hcov.
  destruct (collect_fold MAX callerId (versions st) (activations st) O []
              Hcov (SSorted_nil _)) as (pq & H1 & H2 & H3).
  exists pq. rewrite app_nil_r in H2. auto.
Qed.

Lemma evict_fold (MAX : nat) (pq : list (Z * string)) (count : nat)
  (st : ItemUpdater) :
  evict MAX pq count st
  = erase_each MAX (map snd (firstn (evict_count MAX pq count) pq)) st.
Proof.
  revert count st. induction pq as [|x r IH]; intros count st; simpl.
  - reflexivity.
  - destruct (MAX <=? count)%nat; simpl; [apply IH | reflexivity].
Qed.

Lemma evict_count_le (MAX : nat) (pq : list (Z * string)) (count : nat) :
  (evict_count MAX pq count <= List.length pq)%nat.
Proof.
  revert count. induction pq as [|x r IH]; intros count; simpl; [lia|].
  destruct (MAX <=? count)%nat; [|lia]. specialize (IH (count - 1)%nat). lia.
Qed.

Lemma evict_count_enough (MAX : nat) (pq : list (Z * string)) (count : nat) :
  (List.length pq <= count)%nat ->
  (count + 1 <= MAX + List.length pq)%nat ->
  (count - evict_count MAX pq count < MAX)%nat.
Proof.
  revert count. induction pq as [|x r IH]; intros count Hle Hen; simpl in *.
  - lia.
  - destruct (MAX <=? count)%nat eqn:E.
    + specialize (IH (count - 1)%nat). lia.
    + apply Nat.leb_gt in E. lia.
Qed.

Lemma find_erase_all_other {A} (ids : list string) (m : list (string * A))
  (k : string) :
  ~ In k ids -> find k (erase_all ids m) = find k m.
Proof.
  unfold erase_all. revert m. induction ids as [|id ids IH]; intros m Hni; simpl.
  - reflexivity.
  - rewrite IH by (intros H; apply Hni; now right).
    apply find_erase_other. intros ->. apply Hni. now left.
Qed.

Lemma find_erase_all_same {A} (ids : list string) (m : list (string * A))
  (k : string) :
  In k ids -> find k (erase_all ids m) = None.
Proof.
  unfold erase_all. revert m. induction ids as [|id ids IH]; intros m Hin; simpl.
  - destruct Hin.
  - destruct (in_dec string_dec k ids) as [Hk|Hk]; [now apply IH|].
    destruct Hin as [->|Hin]; [|contradiction].
    fold (erase_all ids (map_erase k m)).
    rewrite (find_erase_all_other _ _ _ Hk). apply find_erase_same.
Qed.

Lemma erase_refused_after (MAX : nat) (id id' : string) (st : ItemUpdater) :
  erase_refused MAX id' st = false ->
  erase_refused MAX id' (erase MAX id st) = false.
Proof.
  intros H. destruct (erase_refused MAX id st) eqn:Er.
  - now rewrite (erase_refused_eq _ _ _ Er).
  - rewrite (erase_not_refused _ _ _ Er). unfold erase_refused in *. simpl.
    destruct (string_dec id id') as [->|Hne].
    + now rewrite find_erase_same.
    + now rewrite (find_erase_other _ _ _ Hne).
Qed.

Lemma erase_each_maps (MAX : nat) (ids : list string) (st : ItemUpdater) :
  (forall id, In id ids -> erase_refused MAX id st = false) ->
  activations (erase_each MAX ids st) = erase_all ids (activations st) /\
  versions (erase_each MAX ids st) = erase_all ids (versions st).
Proof.
  unfold erase_each, erase_all. revert st.
  induction ids as [|id ids IH]; intros st Hnr; simpl; [auto|].
  assert (Hid : erase_refused MAX id st = false) by (apply Hnr; now left).
  destruct (IH (erase MAX id st)) as [H1 H2].
  { intros id' Hin. apply erase_refused_after. apply Hnr. now right. }
  rewrite H1, H2, (erase_not_refused _ _ _ Hid). simpl. auto.
Qed.

Lemma count_erase (m : list (string * Activation)) (id : string) (a : Activation) :
  NoDup (keys m) -> find id m = Some a -> isActiveOrFailed a = true ->
  S (List.length (filter (fun kv => isActiveOrFailed (snd kv)) (map_erase id m)))
  = List.length (filter (fun kv => isActiveOrFailed (snd kv)) m).
Proof.
  induction m as [|[k b] m IH]; simpl; [discriminate|].
  intros Hnd Hf Haf. inversion Hnd as [|? ? Hni Hnd']; subst.
  destruct (k =? id)%string eqn:E; simpl.
  - injection Hf as ->. rewrite Haf. simpl. f_equal.
    apply String.eqb_eq in E. subst k.
    rewrite erase_not_found; [reflexivity|]. now apply find_None_not_In.
  - destruct (isActiveOrFailed b); simpl; rewrite <- (IH Hnd' Hf Haf); reflexivity.
Qed.

Lemma count_erase_all (ids : list string) (m : list (string * Activation)) :
  NoDup (keys m) -> NoDup ids ->
  (forall id, In id ids ->
              exists a, find id m = Some a /\ isActiveOrFailed a = true) ->
  (List.length (filter (fun kv => isActiveOrFailed (snd kv)) (erase_all ids m))
   + List.length ids
   = List.length (filter (fun kv => isActiveOrFailed (snd kv)) m))%nat.
Proof.
  unfold erase_all. revert m.
  induction ids as [|id ids IH]; intros m Hnd Hids Hall; simpl; [lia|].
  inversion Hids as [|? ? Hni Hids']; subst.
  destruct (Hall id (or_introl eq_refl)) as (a & Ha & Haf).
  rewrite <- (count_erase m id a Hnd Ha Haf).
  rewrite <- (IH (map_erase id m)); [lia | now apply NoDup_keys_erase | assumption |].
  intros id' Hin. destruct (Hall id' (or_intror Hin)) as (a' & Ha' & Haf').
  exists a'. split; [|assumption].
  rewrite find_erase_other; [assumption|]. intros ->. contradiction.
Qed.

Lemma NoDup_keys_filter {A} (f : string * A -> bool) (m : list (string * A)) :
  NoDup (keys m) -> NoDup (keys (filter f m)).
Proof.
  induction m as [|[k v] m IH]; simpl; [auto|].
  intros Hnd. inversion Hnd as [|? ? Hni Hnd']; subst.
  destruct (f (k, v)); simpl; [|auto].
  constructor; [|auto]. intros H. apply Hni.
  unfold keys in *. apply in_map_iff in H. destruct H as (x & Hx & Hin).
  apply filter_In in Hin. apply in_map_iff. exists x. split; [assumption | apply Hin].
Qed.

Lemma In_firstn {A} (n : nat) (l : list A) (x : A) : In x (firstn n l) -> In x l.
Proof.
  intros H. rewrite <- (firstn_skipn n l). apply in_or_app. now left.
Qed.

Lemma NoDup_firstn {A} (n : nat) (l : list A) : NoDup l -> NoDup (firstn n l).
Proof.
  intros H. rewrite <- (firstn_skipn n l) in H. exact (NoDup_app_remove_r _ _ H).
Qed.

Lemma StronglySorted_firstn {A} (R : A -> A -> Prop) (n : nat) (l : list A) :
  StronglySorted R l -> StronglySorted R (firstn n l).
Proof.
  revert n. induction l as [|x l IH]; intros n Hs.
  - rewrite firstn_nil. constructor.
  - destruct n; simpl; [constructor|].
    inversion Hs as [|? ? Hs' Hall]; subst. constructor; [auto|].
    rewrite Forall_forall in *. intros y Hy. apply Hall. eapply In_firstn, Hy.
Qed.

(** What it means to be on the queue. *)
Lemma candidates_In (MAX : nat) (callerId : string) (st : ItemUpdater)
  (p : Z) (id : string) :
  NoDup (keys (activations st)) ->
  keyed_by_versionId (activations st) ->
  In (p, id) (candidates MAX callerId st) ->
  exists a, find id (activations st) = Some a /\
            versionId a = id /\
            p = eviction_priority a /\
            is_candidate MAX callerId (versions st) a = true.
Proof.
  intros Hnd Hkey Hin. unfold candidates, candidates_of in Hin.
  apply in_map_iff in Hin. destruct Hin as ([k a] & Heq & Hin).
  apply filter_In in Hin. destruct Hin as [Hin Hc]. simpl in *.
  injection Heq as <- <-.
  unfold keyed_by_versionId in Hkey. rewrite Forall_forall in Hkey.
  pose proof (Hkey _ Hin) as Hk. simpl in Hk.
  exists a. rewrite Hk. repeat split; try assumption.
  now apply In_find.
Qed.

Lemma candidates_NoDup (MAX : nat) (callerId : string) (st : ItemUpdater) :
  NoDup (keys (activations st)) ->
  keyed_by_versionId (activations st) ->
  NoDup (map snd (candidates MAX callerId st)).
Proof.
  intros Hnd Hkey. unfold candidates, candidates_of. rewrite map_map. simpl.
  set (f := fun kv : string * Activation =>
              is_candidate MAX callerId (versions st) (snd kv)).
  assert (Heq : map (fun x : string * Activation => versionId (snd x))
                  (filter f (activations st))
                = keys (filter f (activations st))).
  { unfold keys. apply map_ext_in. intros kv Hin. apply filter_In in Hin.
    unfold keyed_by_versionId in Hkey. rewrite Forall_forall in Hkey.
    apply Hkey, Hin. }
  rewrite Heq. now apply NoDup_keys_filter.
Qed.

Lemma candidates_length (MAX : nat) (callerId : string) (st : ItemUpdater) :
  (List.length (candidates MAX callerId st) <= countActiveOrFailed st)%nat.
Proof.
  unfold candidates, candidates_of, countActiveOrFailed, is_candidate.
  rewrite length_map.
  induction (activations st) as [|[k a] acts IH]; simpl; [lia|].
  destruct (isActiveOrFailed a); simpl.
  - match goal with |- context [negb ?b] => destruct (negb b) end; simpl; lia.
  - exact IH.
Qed.

Lemma is_candidate_true (MAX : nat) (callerId : string)
  (vers : list (string * VersionClass)) (a : Activation) :
  is_candidate MAX callerId vers a = true ->
  isActiveOrFailed a = true /\
  versionId a <> callerId /\
  match find (versionId a) vers with
  | Some v => (isFunctional v && (1 <? MAX)%nat)%bool
  | None => false
  end = false.
Proof.
  unfold is_candidate. intros H. apply andb_true_iff in H. destruct H as [H1 H2].
  apply negb_true_iff, orb_false_iff in H2. destruct H2 as [H2 H3].
  apply String.eqb_neq in H3. auto.
Qed.

(** C5.  In a registry that stores each activation once, under its own
    version id, and has a version record for every active or failed image,
    [freeSpace] returns and erases a prefix of the queue of candidates taken
    largest priority first, a failed image counting as 999.  No erased id is
    the caller's, the caller's activation is still there afterwards, with
    more than one active slot allowed no erased image is functional and the
    functional image keeps its entries, every erased image was active or
    failed, and whenever the candidates are at least as many as the images
    in excess, the number of active or failed images ends below the
    maximum. *)
Theorem freeSpace_evicts_least_preferred
  (ACTIVE_BMC_MAX_ALLOWED : nat) (this : string) (st : ItemUpdater)
  (caller : Activation) :
  find this (activations st) = Some caller ->
  NoDup (keys (activations st)) ->
  keyed_by_versionId (activations st) ->
  versions_cover (versions st) (activations st) ->
  exists pq,
    Permutation pq (candidates ACTIVE_BMC_MAX_ALLOWED (versionId caller) st) /\
    StronglySorted descending pq /\
    let evicted :=
      firstn (evict_count ACTIVE_BMC_MAX_ALLOWED pq (countActiveOrFailed st)) pq in
    let st' := erase_each ACTIVE_BMC_MAX_ALLOWED (map snd evicted) st in
    freeSpace ACTIVE_BMC_MAX_ALLOWED this st = Some st' /\
    (forall p id, In (p, id) evicted ->
       id <> versionId caller /\
       find id (activations st') = None /\
       exists a, find id (activations st) = Some a /\
                 isActiveOrFailed a = true /\
                 p = eviction_priority a /\
                 (activation a = Failed -> p = 999) /\
                 ((1 < ACTIVE_BMC_MAX_ALLOWED)%nat ->
                  forall v, find id (versions st) = Some v ->
                            isFunctional v = false)) /\
    find this (activations st') = Some caller /\
    ((1 < ACTIVE_BMC_MAX_ALLOWED)%nat ->
     forall id v, find id (versions st) = Some v -> isFunctional v = true ->
       find id (versions st') = Some v /\
       find id (activations st') = find id (activations st)) /\
    (countActiveOrFailed st' + List.length evicted = countActiveOrFailed st)%nat /\
    ((countActiveOrFailed st + 1 <= ACTIVE_BMC_MAX_ALLOWED + List.length pq)%nat ->
     (countActiveOrFailed st' < ACTIVE_BMC_MAX_ALLOWED)%nat).
Proof.
  intros Hthis Hnd Hkey Hcov.
  set (MAX := ACTIVE_BMC_MAX_ALLOWED).
  destruct (collect_spec MAX (versionId caller) st Hcov) as (pq & Hcol & Hperm & Hsort).
  exists pq. split; [assumption|]. split; [assumption|]. cbv zeta.
  set (n := evict_count MAX pq (countActiveOrFailed st)).
  set (evicted := firstn n pq).
  set (ids := map snd evicted).
  assert (Hself : versionId caller = this).
  { unfold keyed_by_versionId in Hkey. rewrite Forall_forall in Hkey.
    exact (Hkey _ (find_In _ _ _ Hthis)). }
  assert (Hcand : forall p id, In (p, id) evicted ->
            exists a, find id (activations st) = Some a /\
                      versionId a = id /\ p = eviction_priority a /\
                      is_candidate MAX (versionId caller) (versions st) a = true).
  { intros p id Hin. apply In_firstn in Hin.
    apply (candidates_In MAX (versionId caller) st p id Hnd Hkey).
    eapply Permutation_in; [exact Hperm | exact Hin]. }
  assert (Hids : forall id, In id ids -> exists p, In (p, id) evicted).
  { intros id Hin. apply in_map_iff in Hin. destruct Hin as ([p id'] & <- & Hin).
    exists p. exact Hin. }
  assert (Hnr : forall id, In id ids -> erase_refused MAX id st = false).
  { intros id Hin. destruct (Hids id Hin) as (p & Hp).
    destruct (Hcand p id Hp) as (a & _ & Hv & _ & Hc).
    apply is_candidate_true in Hc. destruct Hc as (_ & _ & Hc).
    unfold erase_refused. now rewrite <- Hv. }
  destruct (erase_each_maps MAX ids st Hnr) as [Hacts Hvers].
  assert (Hnotself : ~ In this ids).
  { intros Hin. destruct (Hids this Hin) as (p & Hp).
    destruct (Hcand p this Hp) as (a & _ & Hv & _ & Hc).
    apply is_candidate_true in Hc. destruct Hc as (_ & Hc & _). congruence. }
  assert (Hndids : NoDup ids).
  { unfold ids, evicted. rewrite <- firstn_map. apply NoDup_firstn.
    eapply Permutation_NoDup;
      [apply Permutation_map; symmetry; exact Hperm|].
    now apply candidates_NoDup. }
  assert (Hcount : (countActiveOrFailed (erase_each MAX ids st)
                    + List.length evicted = countActiveOrFailed st)%nat).
  { unfold countActiveOrFailed. rewrite Hacts.
    replace (List.length evicted) with (List.length ids)
      by (unfold ids; apply length_map).
    apply count_erase_all; [assumption | assumption |].
    intros id Hin. destruct (Hids id Hin) as (p & Hp).
    destruct (Hcand p id Hp) as (a & Ha & _ & _ & Hc).
    apply is_candidate_true in Hc. exists a. tauto. }
  split; [|split; [|split; [|split; [|split]]]].
  - unfold freeSpace. rewrite Hthis. simpl. rewrite Hcol. simpl.
    now rewrite evict_fold.
  - intros p id Hin. destruct (Hcand p id Hin) as (a & Ha & Hv & Hp & Hc).
    apply is_candidate_true in Hc. destruct Hc as (Haf & Hne & Hfun).
    split; [congruence|]. split.
    + rewrite Hacts. apply find_erase_all_same.
      unfold ids. change id with (snd (p, id)). now apply in_map.
    + exists a. repeat split; try assumption.
      * intros Hf. rewrite Hp. unfold eviction_priority. now rewrite Hf.
      * intros Hmax v Hfv. rewrite Hv, Hfv in Hfun.
        apply Nat.ltb_lt in Hmax. rewrite Hmax, andb_true_r in Hfun. exact Hfun.
  - rewrite Hacts, (find_erase_all_other _ _ _ Hnotself). exact Hthis.
  - intros Hmax id v Hfv Hfun.
    assert (Hni : ~ In id ids).
    { intros Hin. specialize (Hnr id Hin). unfold erase_refused in Hnr.
      rewrite Hfv, Hfun in Hnr. apply Nat.ltb_lt in Hmax.
      rewrite Hmax in Hnr. discriminate. }
    rewrite Hvers, Hacts, !(find_erase_all_other _ _ _ Hni). auto.
  - exact Hcount.
  - intros Hen.
    assert (Hlen : (List.length pq <= countActiveOrFailed st)%nat).
    { rewrite (Permutation_length Hperm). apply candidates_length. }
    pose proof (evict_count_enough MAX pq _ Hlen Hen) as Hlt. fold n in Hlt.
    pose proof (evict_count_le MAX pq (countActiveOrFailed st)) as Hle. fold n in Hle.
    assert (Hev : List.length evicted = n).
    { unfold evicted. rewrite length_firstn. lia. }
    lia.
Qed.

Lemma versions_cover_abcd :
  versions_cover (versions registry_abcd) (activations registry_abcd).
Proof.
  intros k a [H|[H|[H|[H|[]]]]] _; injection H as <- <-; discriminate.
Defined.

Lemma freeSpace_evicts_least_preferred_witness :
  freeSpace 2 "d" registry_abcd = Some (erase 2 "b" (erase 2 "c" registry_abcd))
  /\ countActiveOrFailed (erase 2 "b" (erase 2 "c" registry_abcd)) = 1%nat
  /\ exists pq, Permutation pq (candidates 2 "d" registry_abcd)
                /\ StronglySorted descending pq.
Proof.
  destruct (freeSpace_evicts_least_preferred 2 "d" registry_abcd
              (sample_activation "d" Ready None)) as (pq & Hp & Hs & _).
  - reflexivity.
  - repeat constructor; simpl; intuition discriminate.
  - repeat constructor.
  - exact versions_cover_abcd.
  - split; [reflexivity|]. split; [reflexivity|]. exists pq. split; assumption.
Defined.

(** ** The activation state machine *)

Section ViewFacts.

Context {B : Type} (g : Activation -> B).

Lemma viewOf_modify (k id : string) (f : Activation -> Activation)
  (st : ItemUpdater) :
  (forall a, g (f a) = g a) ->
  viewOf g (modify k f st) id = viewOf g st id.
Proof.
  intros Hf. unfold viewOf, modify. simpl.
  destruct (string_dec k id) as [->|Hne].
  - rewrite find_modify_same. destruct (find id (activations st)); simpl;
      [now rewrite Hf | reflexivity].
  - now rewrite find_modify_other.
Qed.

Lemma viewOf_modify_set (id : string) (f : Activation -> Activation)
  (st : ItemUpdater) (b : B) :
  (forall a, g (f a) = b) ->
  viewOf g (modify id f st) id = option_map (fun _ => b) (viewOf g st id).
Proof.
  intros Hf. unfold viewOf, modify. simpl. rewrite find_modify_same.
  destruct (find id (activations st)); simpl; [now rewrite Hf | reflexivity].
Qed.

Lemma viewOf_same_activations (st st' : ItemUpdater) (id : string) :
  activations st' = activations st -> viewOf g st' id = viewOf g st id.
Proof. unfold viewOf. now intros ->. Qed.

Lemma viewOf_erase (MAX : nat) (id this : string) (st : ItemUpdater) :
  id <> this -> viewOf g (erase MAX id st) this = viewOf g st this.
Proof.
  intros Hne. destruct (erase_refused MAX id st) eqn:Er.
  - now rewrite (erase_refused_eq _ _ _ Er).
  - rewrite (erase_not_refused _ _ _ Er). unfold viewOf. simpl.
    now rewrite find_erase_other.
Qed.

Lemma viewOf_evict (MAX : nat) (pq : list (Z * string)) (count : nat)
  (this : string) (st : ItemUpdater) :
  Forall (fun e => snd e <> this) pq ->
  viewOf g (evict MAX pq count st) this = viewOf g st this.
Proof.
  revert count st. induction pq as [|x r IH]; intros count st Hall; simpl.
  - reflexivity.
  - inversion Hall as [|? ? Hx Hr]; subst.
    destruct (MAX <=? count)%nat; [|reflexivity].
    rewrite IH by assumption. now apply viewOf_erase.
Qed.

Hypothesis g_ignores_priority :
  forall p a, g (set_redundancyPriority p a) = g a.

Lemma viewOf_forget (st st' : ItemUpdater) (id : string) :
  map forget_priority (activations st') = map forget_priority (activations st) ->
  viewOf g st' id = viewOf g st id.
Proof.
  assert (H : forall m, option_map g (find id m)
                        = option_map g (find id (map forget_priority m))).
  { induction m as [|[k a] m IH]; simpl; [reflexivity|].
    destruct (k =? id)%string; simpl; [now rewrite g_ignores_priority | exact IH]. }
  intros Heq. unfold viewOf. now rewrite (H (activations st')), Heq, <- H.
Qed.

Lemma viewOf_freePriority (value : Z) (versionId id : string) (st : ItemUpdater) :
  viewOf g (freePriority value versionId st) id = viewOf g st id.
Proof.
  apply viewOf_forget. unfold freePriority. simpl.
  exact (proj1 (cascade_frame versionId _ (value, st))).
Qed.

End ViewFacts.

Lemma collect_not_caller (MAX : nat) (callerId : string)
  (vers : list (string * VersionClass)) (acts : list (string * Activation))
  (acc : option (nat * list (Z * string))) (c : nat) (pq : list (Z * string)) :
  (forall c0 pq0, acc = Some (c0, pq0) -> Forall (fun e => snd e <> callerId) pq0) ->
  fold_left (collect_step MAX callerId vers) acts acc = Some (c, pq) ->
  Forall (fun e => snd e <> callerId) pq.
Proof.
  revert acc. induction acts as [|[k a] acts IH]; intros acc Hacc; simpl.
  - intros H. exact (Hacc _ _ H).
  - apply IH. intros c0 pq0. unfold collect_step. simpl.
    destruct acc as [[c1 pq1]|]; simpl; [|discriminate].
    specialize (Hacc _ _ eq_refl).
    destruct (isActiveOrFailed a); [|intros [= <- <-]; assumption].
    destruct (find (versionId a) vers) as [v|]; simpl; [|discriminate].
    destruct (isFunctional v && (1 <? MAX)%nat)%bool; simpl;
      [intros [= <- <-]; assumption|].
    destruct (versionId a =? callerId)%string eqn:E;
      intros [= <- <-]; [assumption|].
    apply String.eqb_neq in E.
    rewrite (pq_push_perm _ pq1). constructor; assumption.
Qed.

Lemma viewOf_freeSpace {B} (g : Activation -> B) (MAX : nat) (this : string)
  (st st' : ItemUpdater) (a : Activation) :
  find this (activations st) = Some a -> versionId a = this ->
  freeSpace MAX this st = Some st' ->
  viewOf g st' this = viewOf g st this.
Proof.
  intros Ha Hv. unfold freeSpace. rewrite Ha. simpl. rewrite Hv.
  destruct (collect MAX this st) as [[c pq]|] eqn:Ec; simpl; [|discriminate].
  intros [= <-]. apply viewOf_evict.
  apply (collect_not_caller MAX this (versions st) (activations st)
           (Some (O, [])) c pq); [|exact Ec].
  intros c0 pq0 [= <- <-]. constructor.
Qed.

Lemma viewOf_emit {B} (g : Activation -> B) (e : Effect) (st : ItemUpdater) (id : string) :
  viewOf g (emit e st) id = viewOf g st id.
Proof. reflexivity. Qed.

Lemma viewOf_with_assocs {B} (g : Activation -> B) f (st : ItemUpdater) (id : string) :
  viewOf g (with_assocs f st) id = viewOf g st id.
Proof. reflexivity. Qed.

Lemma viewOf_RedundancyPriority_new {B} (g : Activation -> B) (this id : string)
  (value : Z) (st : ItemUpdater) :
  (forall p a, g (set_redundancyPriority p a) = g a) ->
  viewOf g (RedundancyPriority_new this value st) id = viewOf g st id.
Proof.
  intros Hg. unfold RedundancyPriority_new.
  destruct (find this (activations st)); [|reflexivity].
  rewrite viewOf_modify by (intros; apply Hg).
  rewrite viewOf_freePriority by exact Hg.
  reflexivity.
Qed.

Lemma flags_ignore_priority p a : flags (set_redundancyPriority p a) = flags a.
Proof. reflexivity. Qed.

Lemma onFlashWriteSuccess_flags (cfg : Config) (this : string) (st st' : ItemUpdater) :
  onFlashWriteSuccess cfg this st = Some st' ->
  viewOf flags st' this = Some (false, false, false).
Proof.
  unfold onFlashWriteSuccess.
  destruct (find this (activations st)) as [a|] eqn:Ha; simpl; [|discriminate].
  destruct (activationProgress a); simpl; [|discriminate].
  destruct (find (versionId a) (versions st)) as [v|]; simpl; [|discriminate].
  intros [= <-].
  unfold activation_plain, base_activation, reset_priority_unless_active.
  rewrite !viewOf_modify by (intros; reflexivity).
  destruct (cfg_checkApplyTimeImmediate cfg); rewrite ?viewOf_emit;
    unfold createUpdateableAssociation, createActiveAssociation;
    rewrite !viewOf_with_assocs, viewOf_emit;
    (destruct (redundancyPriority a);
     [|rewrite viewOf_RedundancyPriority_new by exact flags_ignore_priority]);
    rewrite !viewOf_emit;
    rewrite (viewOf_modify_set flags this _ st (false, false, false))
      by (intros; reflexivity);
    unfold viewOf; rewrite Ha; reflexivity.
Qed.

Lemma viewOf_found {B} (g : Activation -> B) (st : ItemUpdater) (id : string) (a : Activation) :
  find id (activations st) = Some a -> viewOf g st id = Some (g a).
Proof. unfold viewOf. now intros ->. Qed.

Lemma Activation_activation_flags (cfg : Config) (this : string)
  (v : Activations) (st st' : ItemUpdater) (a : Activation) :
  find this (activations st) = Some a ->
  versionId a = this ->
  flags a = (false, false, false) ->
  Activation_activation cfg this v st = Some st' ->
  viewOf flags st' this = Some (false, false, false).
Proof.
  intros Ha Hv Hf. pose proof (viewOf_found flags st this a Ha) as Hview.
  rewrite Hf in Hview.
  unfold Activation_activation. rewrite Ha. simpl.
  assert (Hplain : forall x, viewOf flags (activation_plain this x st) this
                             = Some (false, false, false)).
  { intros x. unfold activation_plain, base_activation, reset_priority_unless_active.
    rewrite !viewOf_modify by (intros; reflexivity).
    destruct x; rewrite ?viewOf_modify by (intros; reflexivity); exact Hview. }
  destruct v; try (intros [= <-]; apply Hplain).
  set (sigFailed := (cfg_WANT_SIGNATURE_VERIFY cfg
                     && negb (cfg_verifySignature cfg (versionId a)))%bool).
  set (st0 := if sigFailed then emit report_InternalFailure st else st).
  assert (Hact0 : activations st0 = activations st)
    by (unfold st0; destruct sigFailed; reflexivity).
  assert (Hvers0 : versions st0 = versions st)
    by (unfold st0; destruct sigFailed; reflexivity).
  assert (Hview0 : viewOf flags st0 this = Some (false, false, false))
    by (rewrite (viewOf_same_activations flags st st0 this Hact0); exact Hview).
  destruct (sigFailed && fieldModeEnabled st0)%bool.
  { intros [= <-]. unfold base_activation.
    rewrite viewOf_modify by (intros; reflexivity). exact Hview0. }
  destruct (find (versionId a) (versions st0)) as [ver|]; simpl; [|discriminate].
  destruct (cfg_HOST_BIOS_UPGRADE cfg && VersionPurpose_eqb (purpose ver) Host)%bool.
  { intros [= <-]. unfold base_activation.
    rewrite viewOf_modify, viewOf_emit, viewOf_modify, viewOf_emit
      by (intros; reflexivity). exact Hview0. }
  destruct (msl_verify cfg (version ver)) as [ok|]; simpl; [|discriminate].
  destruct ok; simpl.
  2:{ intros [= <-]. unfold base_activation.
      rewrite viewOf_modify, viewOf_emit by (intros; reflexivity). exact Hview0. }
  set (st1 := modify this _ st0).
  assert (Ha1 : exists a1, find this (activations st1) = Some a1
                           /\ versionId a1 = this).
  { unfold st1, modify. simpl. rewrite find_modify_same, Hact0, Ha. simpl.
    eexists. split; [reflexivity|]. exact Hv. }
  destruct Ha1 as (a1 & Ha1 & Hv1).
  assert (Hview1 : viewOf flags st1 this = Some (false, false, false)).
  { unfold st1. rewrite viewOf_modify by (intros; reflexivity). exact Hview0. }
  destruct (freeSpace (cfg_ACTIVE_BMC_MAX_ALLOWED cfg) this st1) as [st2|] eqn:Efs;
    simpl; [|discriminate].
  pose proof (viewOf_freeSpace flags _ _ _ _ _ Ha1 Hv1 Efs) as Hview2.
  rewrite Hview1 in Hview2.
  destruct (cfg_UBIFS_OR_MMC_LAYOUT cfg).
  { intros [= <-]. unfold base_activation.
    rewrite viewOf_modify, !viewOf_emit by (intros; reflexivity). exact Hview2. }
  destruct (onFlashWriteSuccess cfg this _) as [st3|] eqn:Eok; simpl; [|discriminate].
  intros [= <-]. unfold base_activation.
  rewrite viewOf_modify by (intros; reflexivity).
  exact (onFlashWriteSuccess_flags _ _ _ _ Eok).
Qed.

Lemma Activation_activation_enters (cfg : Config) (this : string)
  (st st' : ItemUpdater) :
  Activation_activation cfg this Activating st = Some st' ->
  exists x st'', st' = base_activation this x st'' /\
                 (x = Activating \/ x = Active \/ x = Failed).
Proof.
  unfold Activation_activation.
  destruct (find this (activations st)) as [a|]; simpl; [|discriminate].
  match goal with |- context [if ?b then Some (base_activation this Failed ?s) else _] =>
    destruct b; [intros [= <-]; exists Failed, s; auto|] end.
  match goal with |- context [find ?k ?m] => destruct (find k m) as [ver|] end;
    simpl; [|discriminate].
  match goal with |- context [if ?b then Some (base_activation this Activating ?s) else _] =>
    destruct b; [intros [= <-]; exists Activating, s; auto|] end.
  destruct (msl_verify cfg (version ver)) as [ok|]; simpl; [|discriminate].
  destruct ok; simpl; [|intros [= <-]; eexists Failed, _; auto].
  match goal with |- context [freeSpace ?m ?t ?s] => destruct (freeSpace m t s) end;
    simpl; [|discriminate].
  destruct (cfg_UBIFS_OR_MMC_LAYOUT cfg); [intros [= <-]; eexists Activating, _; auto|].
  match goal with |- context [onFlashWriteSuccess ?c ?t ?s] =>
    destruct (onFlashWriteSuccess c t s) end; simpl; [|discriminate].
  intros [= <-]. eexists Active, _. auto.
Qed.

Lemma viewOf_present {B C} (g : Activation -> B) (h : Activation -> C)
  (st : ItemUpdater) (id : string) (b : B) :
  viewOf g st id = Some b -> exists c, viewOf h st id = Some c.
Proof.
  unfold viewOf. destruct (find id (activations st)); simpl; [eauto | discriminate].
Qed.

(** C8 (amended).  A write of [requestedActivation] first clears the three
    write-phase flags.  It calls [activation(Activating)] exactly when the
    value written is [Active], the request stored before is not [Active]
    and the state is [Ready] or [Failed]; otherwise, and so whenever the
    state is [Activating] or [Active] or the stored request is already
    [Active], the state is left as it is.  Whenever the write returns, the
    flags are false, the stored request is the value written and, if the
    transition was triggered, the state is [Activating], [Active] or
    [Failed]. *)
Theorem requestedActivation_write (cfg : Config) (this : string)
  (value : RequestedActivations) (st : ItemUpdater) (a : Activation) :
  find this (activations st) = Some a ->
  versionId a = this ->
  let cleared := modify this clear_flags st in
  let triggers := requestedActivation_triggers value a in
  (activation a = Activating \/ activation a = Active -> triggers = false) /\
  (triggers = false ->
   Activation_requestedActivation cfg this value st
   = Some (modify this (set_requestedActivation value) cleared) /\
   stateOf (modify this (set_requestedActivation value) cleared) this
   = Some (activation a)) /\
  (triggers = true ->
   Activation_requestedActivation cfg this value st
   = (st2 <- Activation_activation cfg this Activating cleared ;;
      Some (modify this (set_requestedActivation value) st2))) /\
  (forall st', Activation_requestedActivation cfg this value st = Some st' ->
     viewOf flags st' this = Some (false, false, false) /\
     viewOf requestedActivation st' this = Some value /\
     (triggers = true ->
      stateOf st' this = Some Activating \/ stateOf st' this = Some Active
      \/ stateOf st' this = Some Failed)).
Proof.
  intros Ha Hv. cbv zeta.
  assert (Hc : find this (activations (modify this clear_flags st))
               = Some (clear_flags a)).
  { unfold modify. simpl. now rewrite find_modify_same, Ha. }
  assert (Hnt : requestedActivation_triggers value a = false ->
                Activation_requestedActivation cfg this value st
                = Some (modify this (set_requestedActivation value)
                          (modify this clear_flags st))).
  { unfold requestedActivation_triggers, Activation_requestedActivation.
    rewrite Ha. simpl.
    destruct value, (requestedActivation a), (activation a);
      try discriminate; reflexivity. }
  assert (Ht : requestedActivation_triggers value a = true ->
               Activation_requestedActivation cfg this value st
               = (st2 <- Activation_activation cfg this Activating
                           (modify this clear_flags st) ;;
                  Some (modify this (set_requestedActivation value) st2))).
  { unfold requestedActivation_triggers, Activation_requestedActivation.
    rewrite Ha. simpl.
    destruct value, (requestedActivation a), (activation a);
      try discriminate; reflexivity. }
  split; [|split; [|split]].
  - unfold requestedActivation_triggers.
    intros [H|H]; rewrite H; destruct value, (requestedActivation a); reflexivity.
  - intros H. split; [exact (Hnt H)|].
    change (viewOf activation
              (modify this (set_requestedActivation value)
                 (modify this clear_flags st)) this = Some (activation a)).
    rewrite !viewOf_modify by (intros; reflexivity).
    now apply viewOf_found.
  - exact Ht.
  - intros st' Hret.
    destruct (requestedActivation_triggers value a) eqn:Etr.
    + rewrite (Ht eq_refl) in Hret.
      destruct (Activation_activation cfg this Activating
                  (modify this clear_flags st)) as [st2|] eqn:Eact;
        simpl in Hret; [|discriminate].
      injection Hret as <-.
      pose proof (Activation_activation_flags cfg this Activating _ st2
                    (clear_flags a) Hc Hv eq_refl Eact) as Hfl.
      split; [|split].
      * rewrite viewOf_modify by (intros; reflexivity). exact Hfl.
      * rewrite (viewOf_modify_set requestedActivation this _ st2 value)
          by (intros; reflexivity).
        destruct (viewOf_present flags requestedActivation _ _ _ Hfl) as (c & ->).
        reflexivity.
      * intros _.
        destruct (Activation_activation_enters cfg this _ _ Eact)
          as (x & st'' & -> & Hx).
        assert (Hst : stateOf (modify this (set_requestedActivation value)
                                 (base_activation this x st'')) this = Some x).
        { change (viewOf activation
                    (modify this (set_requestedActivation value)
                       (base_activation this x st'')) this = Some x).
          rewrite viewOf_modify by (intros; reflexivity).
          unfold base_activation in *.
          rewrite (viewOf_modify_set activation this _ st'' x)
            by (intros; reflexivity).
          rewrite viewOf_modify in Hfl by (intros; reflexivity).
          destruct (viewOf_present flags activation _ _ _ Hfl) as (c & ->).
          reflexivity. }
        rewrite Hst. destruct Hx as [-> | [-> | ->]]; auto.
    + rewrite (Hnt eq_refl) in Hret. injection Hret as <-.
      split; [|split; [|discriminate]].
      * rewrite viewOf_modify by (intros; reflexivity).
        rewrite (viewOf_modify_set flags this _ st (false, false, false))
          by (intros; reflexivity).
        now rewrite (viewOf_found flags st this a Ha).
      * rewrite (viewOf_modify_set requestedActivation this _ _ value)
          by (intros; reflexivity).
        rewrite viewOf_modify by (intros; reflexivity).
        now rewrite (viewOf_found requestedActivation st this a Ha).
Qed.

(** C8 as stated fails: the first request leaves the stored request at
    [Active], so a second request after the failure does not start another
    attempt. *)
Lemma repeated_request_after_failure_is_ignored :
  exists st1 st2,
    Activation_requestedActivation config_msl "o" ReqActive registry_old = Some st1 /\
    stateOf st1 "o" = Some Failed /\
    viewOf requestedActivation st1 "o" = Some ReqActive /\
    Activation_requestedActivation config_msl "o" ReqActive st1 = Some st2 /\
    stateOf st2 "o" = Some Failed /\
    effects st2 = effects st1.
Proof.
  eexists. eexists.
  split; [vm_compute; reflexivity|].
  split; [reflexivity|]. split; [reflexivity|].
  split; [vm_compute; reflexivity|].
  split; reflexivity.
Qed.

Lemma requestedActivation_write_witness :
  exists st',
    Activation_requestedActivation config_msl "d" ReqActive registry_abcd = Some st' /\
    viewOf flags st' "d" = Some (false, false, false) /\
    viewOf requestedActivation st' "d" = Some ReqActive /\
    stateOf st' "d" = Some Activating.
Proof.
  eexists. split; [vm_compute; reflexivity|].
  destruct (requestedActivation_write config_msl "d" ReqActive registry_abcd
              (sample_activation "d" Ready None) eq_refl eq_refl)
    as (_ & _ & _ & H).
  destruct (H _ eq_refl) as (Hf & Hr & _).
  split; [exact Hf|]. split; [exact Hr | reflexivity].
Defined.

(** ** Redundancy priority across transitions *)

Lemma priorityOf_view (st : ItemUpdater) (id : string) :
  priorityOf st id
  = match viewOf redundancyPriority st id with
    | Some (Some p) => Some p
    | _ => None
    end.
Proof.
  unfold priorityOf, viewOf.
  destruct (find id (activations st)) as [a|]; simpl; [|reflexivity].
  destruct (redundancyPriority a); reflexivity.
Qed.

(** Entering a state other than [Active] and [Activating] through the
    setter drops the priority. *)
Lemma activation_clears_priority (cfg : Config) (this : string)
  (value : Activations) (st : ItemUpdater) (a : Activation) :
  find this (activations st) = Some a ->
  value <> Active -> value <> Activating ->
  exists st', Activation_activation cfg this value st = Some st' /\
              priorityOf st' this = None /\
              stateOf st' this = Some value.
Proof.
  intros Ha H1 H2. unfold Activation_activation. rewrite Ha. simpl.
  assert (Hp : viewOf redundancyPriority
                 (modify this (set_redundancyPriority None) st) this = Some None).
  { rewrite (viewOf_modify_set redundancyPriority this _ st None)
      by (intros; reflexivity).
    now rewrite (viewOf_found _ _ _ _ Ha). }
  assert (Hs : forall st0, viewOf activation st0 this = Some (activation a) ->
                 viewOf activation
                   (modify this (set_activation value)
                      (modify this
                         (fun a0 => set_activationProgress None
                                      (set_activationBlocksTransition false a0))
                         (modify this (set_redundancyPriority None) st0))) this
                 = Some value).
  { intros st0 H0.
    rewrite (viewOf_modify_set activation this _ _ value) by (intros; reflexivity).
    rewrite !viewOf_modify by (intros; reflexivity). now rewrite H0. }
  destruct value; try contradiction;
    (eexists; split; [reflexivity|]; split;
     [ rewrite priorityOf_view; unfold activation_plain, base_activation,
         reset_priority_unless_active;
       rewrite !viewOf_modify by (intros; reflexivity); now rewrite Hp
     | apply Hs; now apply viewOf_found ]).
Qed.

(** The success path leaves the activation with a priority, 0 when it had
    none, already before the final transition to [Active]. *)
Lemma onFlashWriteSuccess_creates_priority (cfg : Config) (this : string)
  (st st' : ItemUpdater) (a : Activation) :
  find this (activations st) = Some a ->
  onFlashWriteSuccess cfg this st = Some st' ->
  exists mid,
    st' = activation_plain this Active mid /\
    priorityOf mid this
    = Some (match redundancyPriority a with Some p => p | None => 0 end) /\
    priorityOf st' this = priorityOf mid this /\
    stateOf st' this = Some Active.
Proof.
  intros Ha. unfold onFlashWriteSuccess. rewrite Ha. simpl.
  destruct (activationProgress a); simpl; [|discriminate].
  destruct (find (versionId a) (versions st)) as [v|]; simpl; [|discriminate].
  intros [= <-]. eexists. split; [reflexivity|].
  set (st0 := modify this
                (fun a0 => clear_flags
                             (set_activationProgress None
                                (set_activationBlocksTransition false a0))) st).
  assert (H0 : viewOf redundancyPriority st0 this = Some (redundancyPriority a)).
  { unfold st0. rewrite viewOf_modify by (intros; reflexivity).
    now apply viewOf_found. }
  set (st1 := match redundancyPriority a with
              | Some _ => emit (storePurpose (versionId a) (purpose v))
                            (emit systemd_Unsubscribe st0)
              | None => RedundancyPriority_new this 0
                          (emit (storePurpose (versionId a) (purpose v))
                             (emit systemd_Unsubscribe st0))
              end).
  assert (H1 : viewOf redundancyPriority st1 this
               = Some (Some (match redundancyPriority a with
                             | Some p => p | None => 0 end))).
  { unfold st1. destruct (redundancyPriority a) as [p|] eqn:Ep.
    - rewrite !viewOf_emit. exact H0.
    - unfold RedundancyPriority_new.
      assert (E1 : exists a1,
                find this (activations
                  (emit (storePurpose (versionId a) (purpose v))
                     (emit systemd_Unsubscribe st0))) = Some a1).
      { change (exists a1, find this (activations st0) = Some a1).
        unfold viewOf in H0.
        destruct (find this (activations st0)); [eauto | discriminate]. }
      destruct E1 as (a1 & E1). rewrite E1.
      rewrite (viewOf_modify_set redundancyPriority this _ _ (Some 0))
        by (intros; reflexivity).
      assert (Hpres : viewOf (fun _ => tt)
                        (freePriority 0 (versionId a1)
                           (savePriority (versionId a1) 0
                              (emit (storePurpose (versionId a) (purpose v))
                                 (emit systemd_Unsubscribe st0)))) this = Some tt).
      { rewrite viewOf_freePriority by (intros; reflexivity).
        unfold viewOf. simpl. simpl in E1. now rewrite E1. }
      destruct (viewOf_present (fun _ => tt) redundancyPriority _ _ _ Hpres)
        as (c' & ->).
      reflexivity. }
  assert (Hmid : forall b : bool,
            viewOf redundancyPriority
              (if b
               then emit rebootBmc
                      (createUpdateableAssociation (path a)
                         (createActiveAssociation (path a)
                            (emit (imageManager_Delete (path a)) st1)))
               else createUpdateableAssociation (path a)
                      (createActiveAssociation (path a)
                         (emit (imageManager_Delete (path a)) st1))) this
            = viewOf redundancyPriority st1 this)
    by (intros []; reflexivity).
  assert (Hplain : forall m,
            viewOf redundancyPriority (activation_plain this Active m) this
            = viewOf redundancyPriority m this).
  { intros m. unfold activation_plain, base_activation, reset_priority_unless_active.
    now rewrite !viewOf_modify by (intros; reflexivity). }
  fold st0. fold st1.
  split; [|split].
  - rewrite priorityOf_view, Hmid, H1. reflexivity.
  - rewrite !priorityOf_view, Hplain. reflexivity.
  - change (viewOf activation
              (activation_plain this Active
                 (if cfg_checkApplyTimeImmediate cfg
                  then emit rebootBmc
                         (createUpdateableAssociation (path a)
                            (createActiveAssociation (path a)
                               (emit (imageManager_Delete (path a)) st1)))
                  else createUpdateableAssociation (path a)
                         (createActiveAssociation (path a)
                            (emit (imageManager_Delete (path a)) st1)))) this
            = Some Active).
    unfold activation_plain, base_activation, reset_priority_unless_active.
    rewrite (viewOf_modify_set activation this _ _ Active) by (intros; reflexivity).
    rewrite viewOf_modify by (intros; reflexivity).
    destruct (viewOf_present redundancyPriority activation _ _ _
                (eq_trans (Hmid (cfg_checkApplyTimeImmediate cfg)) H1)) as (c & ->).
    reflexivity.
Qed.

(** C9 fails on this input.  An image that is active with priority 0 and
    whose version is below the minimum ship level is sent to [Activating]:
    the setter leaves it [Failed] and still holding its priority. *)
Theorem activating_below_msl_keeps_priority :
  exists st',
    Activation_activation config_msl "o" Activating registry_below_msl = Some st' /\
    stateOf st' "o" = Some Failed /\
    priorityOf st' "o" = Some 0.
Proof.
  eexists. split; [vm_compute; reflexivity|]. split; reflexivity.
Qed.

(** * Further properties of the code *)

(** ** msl_verify.cpp: the comparison and the policy *)

Section MinimumShipLevelOrder.

Import minimum_ship_level.

Lemma compare_cases (a b : Version) :
  (tuple_lt a b /\ compare a b = -1) \/
  (a = b /\ compare a b = 0) \/
  (tuple_lt b a /\ compare a b = 1).
Proof.
  destruct a as [a1 a2 a3], b as [b1 b2 b3]. unfold compare, tuple_lt. simpl.
  destruct (b1 <? a1) eqn:E1;
    [apply Z.ltb_lt in E1; right; right; split; [lia | reflexivity]
    | apply Z.ltb_ge in E1].
  destruct (a1 <? b1) eqn:E2;
    [apply Z.ltb_lt in E2; left; split; [lia | reflexivity]
    | apply Z.ltb_ge in E2].
  destruct (b2 <? a2) eqn:E3;
    [apply Z.ltb_lt in E3; right; right; split; [lia | reflexivity]
    | apply Z.ltb_ge in E3].
  destruct (a2 <? b2) eqn:E4;
    [apply Z.ltb_lt in E4; left; split; [lia | reflexivity]
    | apply Z.ltb_ge in E4].
  destruct (b3 <? a3) eqn:E5;
    [apply Z.ltb_lt in E5; right; right; split; [lia | reflexivity]
    | apply Z.ltb_ge in E5].
  destruct (a3 <? b3) eqn:E6;
    [apply Z.ltb_lt in E6; left; split; [lia | reflexivity]
    | apply Z.ltb_ge in E6].
  right. left. split; [|reflexivity].
  f_equal; lia.
Qed.

Lemma tuple_lt_irrefl (a : Version) : ~ tuple_lt a a.
Proof. unfold tuple_lt. lia. Qed.

Lemma tuple_lt_asym (a b : Version) : tuple_lt a b -> ~ tuple_lt b a.
Proof. unfold tuple_lt. lia. Qed.

Lemma tuple_lt_trans (a b c : Version) :
  tuple_lt a b -> tuple_lt b c -> tuple_lt a c.
Proof. unfold tuple_lt. lia. Qed.

Lemma compare_order (a b c : Version) :
  (compare a b = -1 \/ compare a b = 0 \/ compare a b = 1) /\
  compare b a = - compare a b /\
  (compare a b = 0 <-> a = b) /\
  (compare a b <= 0 -> compare b c <= 0 -> compare a c <= 0).
Proof.
  split; [|split; [|split]].
  - destruct (compare_cases a b) as [[_ H]|[[_ H]|[_ H]]]; auto.
  - destruct (compare_cases a b) as [[L H]|[[L H]|[L H]]];
      destruct (compare_cases b a) as [[L' H']|[[L' H']|[L' H']]];
      rewrite H, H'; try reflexivity; subst;
      exfalso; try (now apply (tuple_lt_irrefl b));
      try (now apply (tuple_lt_irrefl a)); now apply (tuple_lt_asym a b).
  - destruct (compare_cases a b) as [[L H]|[[L H]|[L H]]]; rewrite H.
    + split; [discriminate|]. intros ->. now apply tuple_lt_irrefl in L.
    + tauto.
    + split; [discriminate|]. intros ->. now apply tuple_lt_irrefl in L.
  - destruct (compare_cases a b) as [[L H]|[[L H]|[L H]]]; rewrite H;
      destruct (compare_cases b c) as [[L' H']|[[L' H']|[L' H']]]; rewrite H';
      try lia; intros _ _; subst.
    + pose proof (tuple_lt_trans _ _ _ L L') as Hac.
      destruct (compare_cases a c) as [[_ Hc]|[[-> _]|[L2 _]]]; [lia | |].
      * now apply tuple_lt_irrefl in Hac.
      * now apply tuple_lt_asym in Hac.
    + rewrite H. lia.
    + rewrite H'. lia.
    + rewrite H. lia.
Qed.

(** X1.  [compare] is the three-way comparison of a total order: it
    returns -1, 0 or 1, swapping the arguments negates the result, the
    result is 0 exactly for equal triples, and "not greater" is
    transitive. *)
Theorem compare_is_total_order (a b c : Version) :
  (compare a b = -1 \/ compare a b = 0 \/ compare a b = 1) /\
  compare b a = - compare a b /\
  (compare a b = 0 <-> a = b) /\
  (compare a b <= 0 -> compare b c <= 0 -> compare a c <= 0).
Proof. exact (compare_order a b c). Qed.

(** X2.  The policy is monotone in the candidate: when [verify] accepts a
    version, it accepts every version that parses to a triple which is not
    below the triple of the accepted one. *)
Theorem verify_monotone
  (BMC_MSL REGEX_BMC_MSL : string)
  (regex_search : string -> string -> option (nat -> string))
  (narrow : Z -> Z) (s1 s2 : string) (a1 a2 : Version) :
  parse REGEX_BMC_MSL regex_search narrow s1 = Some a1 ->
  parse REGEX_BMC_MSL regex_search narrow s2 = Some a2 ->
  compare a1 a2 <= 0 ->
  verify BMC_MSL REGEX_BMC_MSL regex_search narrow s1 = Some true ->
  verify BMC_MSL REGEX_BMC_MSL regex_search narrow s2 = Some true.
Proof.
  intros H1 H2 Hle Hv.
  destruct (String.eqb_spec BMC_MSL "") as [->|Hm];
    [reflexivity|].
  destruct (String.eqb_spec REGEX_BMC_MSL "") as [->|Hr].
  { unfold verify. rewrite String.eqb_refl, orb_true_r. reflexivity. }
  rewrite (verify_configured _ _ _ _ s1 Hm Hr) in Hv.
  rewrite (verify_configured _ _ _ _ s2 Hm Hr).
  destruct (parse REGEX_BMC_MSL regex_search narrow BMC_MSL) as [m|];
    simpl in *; [|discriminate Hv].
  rewrite H1 in Hv. rewrite H2. simpl in *.
  injection Hv as Hv. apply negb_true_iff, Z.ltb_ge in Hv.
  f_equal. apply negb_true_iff, Z.ltb_ge.
  destruct (compare_order m a1 a2) as (_ & _ & _ & Ht).
  destruct (compare_order a1 m m) as (_ & Hs1 & _ & _).
  destruct (compare_order a2 m m) as (_ & Hs2 & _ & _).
  assert (Hma2 : compare m a2 <= 0) by (apply Ht; lia).
  lia.
Qed.

(** X3.  What the pattern does not match counts as 0.0.0.  With a minimum
    whose fields are not negative, a candidate the pattern does not match
    is accepted exactly when the minimum is 0.0.0; and with a minimum the
    pattern does not match, every candidate that parses to fields that are
    not negative is accepted. *)
Theorem verify_unmatched
  (BMC_MSL REGEX_BMC_MSL : string)
  (regex_search : string -> string -> option (nat -> string))
  (narrow : Z -> Z) (s : string) :
  BMC_MSL <> "" -> REGEX_BMC_MSL <> "" ->
  (forall m, parse REGEX_BMC_MSL regex_search narrow BMC_MSL = Some m ->
             0 <= major m -> 0 <= minor m -> 0 <= rev m ->
             regex_search REGEX_BMC_MSL s = None ->
             (verify BMC_MSL REGEX_BMC_MSL regex_search narrow s = Some true
              <-> m = mkVersion 0 0 0) /\
             (verify BMC_MSL REGEX_BMC_MSL regex_search narrow s = Some false
              <-> m <> mkVersion 0 0 0)) /\
  (forall a, regex_search REGEX_BMC_MSL BMC_MSL = None ->
             parse REGEX_BMC_MSL regex_search narrow s = Some a ->
             0 <= major a -> 0 <= minor a -> 0 <= rev a ->
             verify BMC_MSL REGEX_BMC_MSL regex_search narrow s = Some true).
Proof.
  intros Hm Hr. split.
  - intros m Hpm H1 H2 H3 Hs.
    rewrite (verify_configured _ _ _ _ _ Hm Hr), Hpm.
    rewrite (parse_unmatched _ _ _ _ Hs). simpl.
    destruct (compare_cases (mkVersion 0 0 0) m) as [[L H]|[[L H]|[L H]]];
      rewrite H; simpl.
    + assert (Hne : m <> mkVersion 0 0 0)
        by (intros ->; now apply tuple_lt_irrefl in L).
      split; [split; [discriminate | intros E; contradiction]
             | split; [intros _; exact Hne | reflexivity]].
    + subst m.
      split; [split; intros; reflexivity
             | split; [discriminate | intros E; now elim E]].
    + exfalso. unfold tuple_lt in L. simpl in L. lia.
  - intros a Hs Ha H1 H2 H3.
    rewrite (verify_configured _ _ _ _ _ Hm Hr).
    rewrite (parse_unmatched _ _ _ _ Hs), Ha. simpl.
    destruct (compare_cases a (mkVersion 0 0 0)) as [[L H]|[[L H]|[L H]]];
      rewrite H; simpl; try reflexivity.
    exfalso. unfold tuple_lt in L. simpl in L. lia.
Qed.

End MinimumShipLevelOrder.

(** ** item_updater.cpp: erase and deleteAll *)

Lemma registry_ok_cover (st : ItemUpdater) :
  registry_ok st -> versions_cover (versions st) (activations st).
Proof.
  intros [Hnd _ Hkey Hls] k a Hin _ Hnone.
  unfold keyed_by_versionId in Hkey. rewrite Forall_forall in Hkey.
  pose proof (Hkey _ Hin) as Hk. simpl in Hk. rewrite Hk in Hnone.
  apply Hls in Hnone. rewrite (In_find _ _ _ Hnd Hin) in Hnone. discriminate.
Qed.

Lemma keyed_erase (id : string) (acts : list (string * Activation)) :
  keyed_by_versionId acts -> keyed_by_versionId (map_erase id acts).
Proof.
  unfold keyed_by_versionId, map_erase. rewrite !Forall_forall.
  intros H kv Hin. apply filter_In in Hin. apply H, Hin.
Qed.

Lemma find_erase (A : Type) (id k : string) (m : list (string * A)) :
  find k (map_erase id m) = if (id =? k)%string then None else find k m.
Proof.
  destruct (String.eqb_spec id k) as [->|Hne].
  - apply find_erase_same.
  - now apply find_erase_other.
Qed.

(** X4.  [erase] touches nothing but the id it is given: every other id
    keeps its version record and its activation, the field mode is kept,
    and an association is kept unless its path is the path of the erased
    activation. *)
Theorem erase_leaves_others (ACTIVE_BMC_MAX_ALLOWED : nat) (id k : string)
  (st : ItemUpdater) :
  k <> id ->
  let st' := erase ACTIVE_BMC_MAX_ALLOWED id st in
  find k (versions st') = find k (versions st) /\
  find k (activations st') = find k (activations st) /\
  fieldModeEnabled st' = fieldModeEnabled st /\
  (forall kind p,
      (forall a, find id (activations st) = Some a -> path a <> p) ->
      (In (kind, p) (assocs st') <-> In (kind, p) (assocs st))) /\
  (forall kind p, In (kind, p) (assocs st') -> In (kind, p) (assocs st)).
Proof.
  intros Hne. cbv zeta.
  destruct (erase_refused ACTIVE_BMC_MAX_ALLOWED id st) eqn:Er.
  - rewrite (erase_refused_eq _ _ _ Er). repeat split; auto.
  - rewrite (erase_not_refused _ _ _ Er). simpl.
    assert (Hne' : id <> k) by congruence.
    rewrite !(find_erase_other _ _ _ Hne').
    split; [reflexivity|]. split; [reflexivity|]. split; [reflexivity|].
    destruct (find id (activations st)) as [a|]; split.
    + intros kind p Hp. rewrite filter_In. simpl.
      rewrite negb_true_iff, String.eqb_neq.
      specialize (Hp a eq_refl). split; [tauto|]. intros H. split; congruence.
    + intros kind p H. apply filter_In in H. apply H.
    + tauto.
    + tauto.
Qed.

Lemma erase_registry_ok (ACTIVE_BMC_MAX_ALLOWED : nat)
  (id : string) (st : ItemUpdater) :
  registry_ok st -> registry_ok (erase ACTIVE_BMC_MAX_ALLOWED id st).
Proof.
  intros Hok. destruct (erase_refused ACTIVE_BMC_MAX_ALLOWED id st) eqn:Er.
  - now rewrite (erase_refused_eq _ _ _ Er).
  - rewrite (erase_not_refused _ _ _ Er). destruct Hok as [H1 H2 H3 H4].
    constructor; simpl.
    + now apply NoDup_keys_erase.
    + now apply NoDup_keys_erase.
    + now apply keyed_erase.
    + intros k. simpl. rewrite !find_erase.
      destruct (id =? k)%string; [tauto | apply H4].
Qed.

(** X5.  [erase] keeps the invariants of the registry: ids stay unique in
    both maps, activations stay stored under their own version id, and the
    two maps keep holding the same ids. *)
Theorem erase_preserves_registry_ok (ACTIVE_BMC_MAX_ALLOWED : nat)
  (id : string) (st : ItemUpdater) :
  registry_ok st -> registry_ok (erase ACTIVE_BMC_MAX_ALLOWED id st).
Proof. exact (erase_registry_ok ACTIVE_BMC_MAX_ALLOWED id st). Qed.

Lemma erase_each_preserves_registry_ok (MAX : nat) (ids : list string)
  (st : ItemUpdater) :
  registry_ok st -> registry_ok (erase_each MAX ids st).
Proof.
  unfold erase_each. revert st.
  induction ids as [|id ids IH]; intros st Hok; simpl; [assumption|].
  apply IH. now apply erase_registry_ok.
Qed.

Lemma find_erase_all {A} (ids : list string) (m : list (string * A)) (k : string) :
  find k (erase_all ids m) = if in_dec string_dec k ids then None else find k m.
Proof.
  destruct (in_dec string_dec k ids) as [H|H].
  - now apply find_erase_all_same.
  - now apply find_erase_all_other.
Qed.

(** X6.  [deleteAll] leaves exactly the version records that are
    functional, removes the activation of every version that is not, keeps
    the others as they are, and ends with the clean-up call of the helper. *)
Theorem deleteAll_keeps_functional (ACTIVE_BMC_MAX_ALLOWED : nat)
  (st : ItemUpdater) :
  NoDup (keys (versions st)) ->
  let st' := deleteAll ACTIVE_BMC_MAX_ALLOWED st in
  (forall k v, find k (versions st') = Some v <->
               find k (versions st) = Some v /\ isFunctional v = true) /\
  (forall k v, find k (versions st) = Some v -> isFunctional v = false ->
               find k (activations st') = None) /\
  (forall k, (forall v, find k (versions st) = Some v -> isFunctional v = true) ->
             find k (activations st') = find k (activations st)) /\
  exists log, effects st' = log ++ [helper_cleanup].
Proof.
  intros Hnd. cbv zeta. unfold deleteAll.
  set (ids := map fst (filter (fun kv => negb (isFunctional (snd kv))) (versions st))).
  fold (erase_each ACTIVE_BMC_MAX_ALLOWED ids st).
  assert (Hids : forall k, In k ids <->
            exists v, find k (versions st) = Some v /\ isFunctional v = false).
  { intros k. unfold ids. rewrite in_map_iff. split.
    - intros ([k' v] & Hk & Hin). simpl in Hk. subst k'.
      apply filter_In in Hin. destruct Hin as [Hin Hf]. simpl in Hf.
      exists v. split; [now apply In_find | now apply negb_true_iff].
    - intros (v & Hf & Hfun). exists (k, v). split; [reflexivity|].
      apply filter_In. split; [now apply find_In|]. simpl. now rewrite Hfun. }
  assert (Hnr : forall id, In id ids ->
            erase_refused ACTIVE_BMC_MAX_ALLOWED id st = false).
  { intros id Hin. apply Hids in Hin. destruct Hin as (v & Hf & Hfun).
    unfold erase_refused. now rewrite Hf, Hfun. }
  destruct (erase_each_maps _ ids st Hnr) as [Hacts Hvers].
  split; [|split; [|split]].
  - intros k v. simpl. rewrite Hvers, find_erase_all.
    destruct (in_dec string_dec k ids) as [Hin|Hni].
    + apply Hids in Hin. destruct Hin as (v' & Hf & Hfun).
      split; [discriminate|]. intros [Hf' Hfun']. congruence.
    + split.
      * intros Hf. split; [assumption|].
        destruct (isFunctional v) eqn:E; [reflexivity|].
        exfalso. apply Hni. apply Hids. eauto.
      * tauto.
  - intros k v Hf Hfun. simpl. rewrite Hacts. apply find_erase_all_same.
    apply Hids. eauto.
  - intros k Hk. simpl. rewrite Hacts. apply find_erase_all_other.
    intros Hin. apply Hids in Hin. destruct Hin as (v & Hf & Hfun).
    rewrite (Hk v Hf) in Hfun. discriminate.
  - eexists. reflexivity.
Qed.

(** ** item_updater.cpp: the boot target *)

Lemma lowest_fold_last_minimum (acts : list (string * Activation))
  (acc : Z * string) :
  let r := fold_left lowest_step acts acc in
  (r = acc /\
   forall k a p, In (k, a) acts -> redundancyPriority a = Some p -> fst acc < p)
  \/ (exists l1 k a l2 p,
        acts = l1 ++ (k, a) :: l2 /\ redundancyPriority a = Some p /\
        r = (p, versionId a) /\ p <= fst acc /\
        (forall k' a' p', In (k', a') l1 -> redundancyPriority a' = Some p' ->
                          p <= p') /\
        (forall k' a' p', In (k', a') l2 -> redundancyPriority a' = Some p' ->
                          p < p')).
Proof.
  revert acc. induction acts as [|[k0 a0] acts IH]; intros acc; simpl.
  - left. split; [reflexivity | intros ? ? ? []].
  - destruct (redundancyPriority a0) as [p0|] eqn:Ep.
    + destruct (p0 <=? fst acc) eqn:Ele.
      * assert (Hs : lowest_step acc (k0, a0) = (p0, versionId a0))
          by (unfold lowest_step; simpl; now rewrite Ep, Ele).
        rewrite Hs. apply Z.leb_le in Ele.
        destruct (IH (p0, versionId a0))
          as [[Hr Hall] | (l1 & k & a & l2 & p & Hl & Hp & Hr & Hle & H1 & H2)].
        -- right. exists [], k0, a0, acts, p0. simpl in Hall.
           repeat split; try assumption. intros ? ? ? [].
        -- right. exists ((k0, a0) :: l1), k, a, l2, p. simpl in Hle.
           split; [now rewrite Hl|]. repeat split; try assumption; [lia|].
           intros k' a' p' [H|H] Hp'; [|eauto].
           injection H as <- <-. rewrite Ep in Hp'. injection Hp' as <-. lia.
      * assert (Hs : lowest_step acc (k0, a0) = acc)
          by (unfold lowest_step; simpl; now rewrite Ep, Ele).
        rewrite Hs. apply Z.leb_gt in Ele.
        destruct (IH acc)
          as [[Hr Hall] | (l1 & k & a & l2 & p & Hl & Hp & Hr & Hle & H1 & H2)].
        -- left. split; [assumption|].
           intros k' a' p' [H|H] Hp'; [|eauto].
           injection H as <- <-. rewrite Ep in Hp'. injection Hp' as <-. lia.
        -- right. exists ((k0, a0) :: l1), k, a, l2, p.
           split; [now rewrite Hl|]. repeat split; try assumption.
           intros k' a' p' [H|H] Hp'; [|eauto].
           injection H as <- <-. rewrite Ep in Hp'. injection Hp' as <-. lia.
    + assert (Hs : lowest_step acc (k0, a0) = acc)
        by (unfold lowest_step; simpl; now rewrite Ep).
      rewrite Hs.
      destruct (IH acc)
        as [[Hr Hall] | (l1 & k & a & l2 & p & Hl & Hp & Hr & Hle & H1 & H2)].
      * left. split; [assumption|].
        intros k' a' p' [H|H] Hp'; [|eauto].
        injection H as <- <-. congruence.
      * right. exists ((k0, a0) :: l1), k, a, l2, p.
        split; [now rewrite Hl|]. repeat split; try assumption.
        intros k' a' p' [H|H] Hp'; [|eauto].
        injection H as <- <-. congruence.
Qed.

(** X7.  When some activation holds a priority, [resetUbootEnvVars] hands
    the helper the version id of an activation whose priority is the least
    of all; among several with the least priority it takes the last one in
    key order.  Nothing else changes. *)
Theorem resetUbootEnvVars_selects_minimum (st : ItemUpdater)
  (k0 : string) (a0 : Activation) (p0 : Z) :
  priorities_uint8 (activations st) ->
  In (k0, a0) (activations st) ->
  redundancyPriority a0 = Some p0 ->
  exists l1 k a l2 p,
    activations st = l1 ++ (k, a) :: l2 /\
    redundancyPriority a = Some p /\
    resetUbootEnvVars st = emit (helper_updateUbootVersionId (versionId a)) st /\
    (forall k' a' p', In (k', a') l1 -> redundancyPriority a' = Some p' ->
                      p <= p') /\
    (forall k' a' p', In (k', a') l2 -> redundancyPriority a' = Some p' ->
                      p < p').
Proof.
  intros Hu8 Hin Hp0.
  destruct (lowest_fold_last_minimum (activations st) (255, ""))
    as [[_ Hall] | (l1 & k & a & l2 & p & Hl & Hp & Hr & _ & H1 & H2)].
  - exfalso. specialize (Hall _ _ _ Hin Hp0). simpl in Hall.
    specialize (Hu8 _ _ _ Hin Hp0). lia.
  - exists l1, k, a, l2, p. repeat split; try assumption.
    unfold resetUbootEnvVars, updateUbootEnvVars. now rewrite Hr.
Qed.

Lemma isLowestPriority_iff (value : Z) (st : ItemUpdater) :
  isLowestPriority value st = true <->
  forall k a p, In (k, a) (activations st) -> redundancyPriority a = Some p ->
                value <= p.
Proof.
  unfold isLowestPriority. rewrite forallb_forall. split.
  - intros H k a p Hin Hp. specialize (H _ Hin). simpl in H. rewrite Hp in H.
    apply negb_true_iff, Z.ltb_ge in H. exact H.
  - intros H [k a] Hin. simpl. destruct (redundancyPriority a) as [p|] eqn:Ep;
      [|reflexivity].
    apply negb_true_iff, Z.ltb_ge. exact (H _ _ _ Hin Ep).
Qed.

(** X8.  [isLowestPriority value] holds exactly when no activation has a
    priority below [value]; and the priority of the version that
    [resetUbootEnvVars] selects passes the test. *)
Theorem isLowestPriority_of_boot_target (st : ItemUpdater)
  (k0 : string) (a0 : Activation) (p0 : Z) :
  priorities_uint8 (activations st) ->
  In (k0, a0) (activations st) ->
  redundancyPriority a0 = Some p0 ->
  (forall value,
      isLowestPriority value st = true <->
      forall k a p, In (k, a) (activations st) ->
                    redundancyPriority a = Some p -> value <= p) /\
  exists k a p,
    In (k, a) (activations st) /\ redundancyPriority a = Some p /\
    lowestPriorityVersion (activations st) = versionId a /\
    isLowestPriority p st = true.
Proof.
  intros Hu8 Hin Hp0. split; [intros value; apply isLowestPriority_iff|].
  destruct (lowest_fold_last_minimum (activations st) (255, ""))
    as [[_ Hall] | (l1 & k & a & l2 & p & Hl & Hp & Hr & _ & H1 & H2)].
  - exfalso. specialize (Hall _ _ _ Hin Hp0). simpl in Hall.
    specialize (Hu8 _ _ _ Hin Hp0). lia.
  - exists k, a, p.
    assert (Hka : In (k, a) (activations st))
      by (rewrite Hl; apply in_or_app; right; now left).
    split; [assumption|]. split; [assumption|].
    split; [unfold lowestPriorityVersion; now rewrite Hr|].
    apply isLowestPriority_iff. intros k' a' p' Hin' Hp'.
    rewrite Hl in Hin'. apply in_app_or in Hin'.
    destruct Hin' as [Hin'|[Heq|Hin']].
    + exact (H1 _ _ _ Hin' Hp').
    + injection Heq as <- <-. rewrite Hp in Hp'. injection Hp' as <-. lia.
    + specialize (H2 _ _ _ Hin' Hp'). lia.
Qed.

(** ** item_updater.cpp: freePriority on any registry *)

Lemma bump_below (o : list (string * Z)) (fpv : Z) (k : string) (p : Z) :
  StronglySorted le_priority o -> NoDup (keys o) ->
  In (k, p) o -> p < fpv -> find k (bump o fpv) = Some p.
Proof.
  induction o as [|[k0 q] r IH]; simpl; [tauto|].
  intros Hs Hnd Hin Hlt.
  inversion Hs as [|? ? Hs' Hall]; subst.
  inversion Hnd as [|? ? Hni Hnd']; subst.
  assert (Hq : (q =? fpv) = false).
  { apply Z.eqb_neq. destruct Hin as [H|H].
    - injection H as _ ->. lia.
    - rewrite Forall_forall in Hall. specialize (Hall _ H).
      unfold le_priority in Hall. simpl in Hall. lia. }
  rewrite Hq. simpl. destruct Hin as [H|H].
  - injection H as -> ->. now rewrite String.eqb_refl.
  - destruct (k0 =? k)%string eqn:E; [|auto].
    apply String.eqb_eq in E. subst k0. exfalso. apply Hni.
    change k with (fst (k, p)). now apply in_map.
Qed.

Lemma cascade_no_collision (versionId : string) (l : list (string * Z))
  (fpv : Z) (st : ItemUpdater) :
  Forall (fun e => fst e = versionId \/ snd e <> fpv) l ->
  cascade versionId l (fpv, st) = (fpv, st).
Proof.
  unfold cascade. induction l as [|[k p] l IH]; intros Hall; simpl; [reflexivity|].
  inversion Hall as [|? ? Hx Hr]; subst. simpl in Hx.
  assert (Hs : cascade_step versionId (fpv, st) (k, p) = (fpv, st)).
  { unfold cascade_step. simpl.
    destruct (k =? versionId)%string eqn:E; [reflexivity|].
    apply String.eqb_neq in E. destruct Hx as [Hx|Hx]; [contradiction|].
    apply Z.eqb_neq in Hx. now rewrite Hx. }
  rewrite Hs. now apply IH.
Qed.

Section FreePriorityAny.

Variables (value : Z) (versionId : string) (st : ItemUpdater).

Hypothesis Hnd : NoDup (keys (activations st)).

Let pset := prioritySet (priorityMap value versionId (activations st)).
Let o := others versionId pset.

Lemma any_pset_In (k : string) (p : Z) :
  In (k, p) pset <->
  (if (versionId =? k)%string then Some value else prio_in (activations st) k)
  = Some p.
Proof using Hnd.
  rewrite <- (priorityMap_find value versionId (activations st) k Hnd).
  split; intros H.
  - apply In_find; [apply priorityMap_NoDup|].
    eapply Permutation_in; [apply prioritySet_perm | exact H].
  - eapply Permutation_in; [symmetry; apply prioritySet_perm|].
    now apply find_In.
Qed.

Lemma any_others_In (k : string) (p : Z) :
  In (k, p) o <-> k <> versionId /\ prio_in (activations st) k = Some p.
Proof using Hnd.
  unfold o, others. rewrite filter_In, any_pset_In. simpl.
  rewrite negb_true_iff, String.eqb_neq.
  destruct (String.eqb_spec versionId k) as [->|Hne].
  - split; [intros [_ H]; now elim H | intros [H _]; now elim H].
  - split; intros [H1 H2]; split; congruence.
Qed.

Lemma any_cascade_priorities (k : string) :
  prio_in (activations (freePriority value versionId st)) k
  = match find k (bump o value) with
    | Some p' => Some p'
    | None => prio_in (activations st) k
    end.
Proof using Hnd.
  change (activations (freePriority value versionId st))
    with (activations (snd (cascade versionId pset (value, st)))).
  rewrite cascade_others. fold o. apply cascade_state.
  - apply others_not_self.
  - apply others_NoDup.
  - intros k' p' Hin. apply any_others_In in Hin. apply Hin.
Qed.

Lemma any_others_sorted : StronglySorted le_priority o.
Proof using Type. apply StronglySorted_filter, prioritySet_sorted. Qed.

(** X9.  [freePriority] changes redundancy priorities and nothing else:
    version records, associations, field mode and every other component of
    every activation are kept.  It never changes the priority of the
    version being set, gives no priority to an activation that had none and
    takes none away, and keeps every priority below the requested value. *)
Theorem freePriority_changes_priorities_only :
  let st' := freePriority value versionId st in
  versions st' = versions st /\
  assocs st' = assocs st /\
  fieldModeEnabled st' = fieldModeEnabled st /\
  map forget_priority (activations st') = map forget_priority (activations st) /\
  priorityOf st' versionId = priorityOf st versionId /\
  (forall k, priorityOf st' k = None <-> priorityOf st k = None) /\
  (forall k p, priorityOf st k = Some p -> p < value ->
               priorityOf st' k = Some p).
Proof using Hnd.
  cbv zeta.
  destruct (cascade_frame versionId pset (value, st)) as (F1 & F2 & F3 & F4 & _).
  split; [exact F2|]. split; [exact F3|]. split; [exact F4|].
  split; [exact F1|].
  assert (Hkeys : forall k, find k (bump o value) <> None ->
                            exists p, In (k, p) o).
  { intros k Hf. destruct (in_dec string_dec k (keys o)) as [Hin|Hni].
    - unfold keys in Hin. apply in_map_iff in Hin.
      destruct Hin as ([k' p] & Hk & Hin). simpl in Hk. subst k'. eauto.
    - exfalso. apply Hf. apply find_None_not_In. now rewrite bump_keys. }
  split; [|split].
  - change (prio_in (activations (freePriority value versionId st)) versionId
            = prio_in (activations st) versionId).
    rewrite any_cascade_priorities.
    destruct (find versionId (bump o value)) eqn:E; [|reflexivity].
    destruct (Hkeys versionId) as (p & Hp); [congruence|].
    apply any_others_In in Hp. now elim (proj1 Hp).
  - intros k.
    change (prio_in (activations (freePriority value versionId st)) k = None
            <-> prio_in (activations st) k = None).
    rewrite any_cascade_priorities.
    destruct (find k (bump o value)) eqn:E; [|tauto].
    destruct (Hkeys k) as (p & Hp); [congruence|].
    apply any_others_In in Hp. destruct Hp as [_ Hp]. rewrite Hp.
    split; discriminate.
  - intros k p Hp Hlt.
    change (prio_in (activations (freePriority value versionId st)) k = Some p).
    change (prio_in (activations st) k = Some p) in Hp.
    rewrite any_cascade_priorities.
    destruct (string_dec k versionId) as [->|Hne].
    + destruct (find versionId (bump o value)) eqn:E; [|exact Hp].
      destruct (Hkeys versionId) as (q & Hq); [congruence|].
      apply any_others_In in Hq. now elim (proj1 Hq).
    + rewrite (bump_below o value k p); [reflexivity | apply any_others_sorted
        | apply others_NoDup | apply any_others_In; auto | exact Hlt].
Qed.

(** X10.  When no image other than the version being set holds the
    requested value, [freePriority] changes no activation: all it does is
    the call that sets the boot target. *)
Theorem freePriority_without_collision :
  (forall k, k <> versionId -> priorityOf st k <> Some value) ->
  exists w,
    freePriority value versionId st = emit (helper_updateUbootVersionId w) st.
Proof using Hnd.
  intros Hno. exists (lowestVersion value versionId pset).
  unfold freePriority. fold pset.
  rewrite cascade_no_collision; [reflexivity|].
  apply Forall_forall. intros [k p] Hin. simpl.
  destruct (string_dec k versionId) as [->|Hne]; [now left|]. right.
  apply any_pset_In in Hin. apply String.eqb_neq in Hne.
  rewrite String.eqb_sym in Hne. rewrite Hne in Hin.
  intros ->. apply String.eqb_neq in Hne. apply (Hno k); [congruence | exact Hin].
Qed.

(** X11.  [freePriority] makes the version being set the boot target
    exactly when no other image holds a priority below the requested
    value; this does not depend on priorities being distinct. *)
Theorem freePriority_boot_target_is_self_iff :
  bootTarget (effects (freePriority value versionId st)) = Some versionId <->
  forall k p, k <> versionId -> priorityOf st k = Some p -> value <= p.
Proof using Hnd.
  assert (Hboot : bootTarget (effects (freePriority value versionId st))
                  = Some (lowestVersion value versionId pset)).
  { unfold freePriority. fold pset. unfold updateUbootEnvVars.
    rewrite emit_effects, bootTarget_app. reflexivity. }
  rewrite Hboot.
  assert (Hself : In (versionId, value) pset).
  { apply any_pset_In. now rewrite String.eqb_refl. }
  pose proof (prioritySet_sorted (priorityMap value versionId (activations st)))
    as Hs. fold pset in Hs.
  assert (Hin : forall k p, In (k, p) pset -> k <> versionId ->
                            prio_in (activations st) k = Some p).
  { intros k p H Hne. apply any_pset_In in H. apply String.eqb_neq in Hne.
    rewrite String.eqb_sym in Hne. now rewrite Hne in H. }
  assert (Hin' : forall p, In (versionId, p) pset -> p = value).
  { intros p H. apply any_pset_In in H. rewrite String.eqb_refl in H. congruence. }
  assert (Hto : forall k p, k <> versionId -> prio_in (activations st) k = Some p ->
                            In (k, p) pset).
  { intros k p Hne H. apply any_pset_In. apply String.eqb_neq in Hne.
    rewrite String.eqb_sym in Hne. now rewrite Hne. }
  destruct pset as [|[k0 p0] rest]; [destruct Hself|].
  inversion Hs as [|? ? _ Hall]; subst. rewrite Forall_forall in Hall.
  assert (Hleast : forall k p, In (k, p) ((k0, p0) :: rest) -> p0 <= p).
  { intros k p [H|H]; [injection H as _ <-; lia | apply (Hall _ H)]. }
  simpl. split.
  - intros Hw k p Hne Hp. specialize (Hleast _ _ (Hto _ _ Hne Hp)).
    destruct (value =? p0) eqn:E.
    + apply Z.eqb_eq in E. lia.
    + injection Hw as ->. apply Z.eqb_neq in E. elim E. symmetry.
      apply Hin'. now left.
  - intros Hall'. destruct (value =? p0) eqn:E; [reflexivity|].
    apply Z.eqb_neq in E. f_equal.
    destruct (string_dec k0 versionId) as [->|Hne]; [reflexivity|].
    exfalso. apply E.
    pose proof (Hall' k0 p0 Hne (Hin _ _ (or_introl eq_refl) Hne)).
    pose proof (Hleast _ _ Hself). lia.
Qed.

End FreePriorityAny.

(** ** freePriority with the version being set counted at the requested value *)

Section FreePriorityCounted.

Variables (value : Z) (versionId : string) (st : ItemUpdater).

Hypothesis Hrange : 0 <= value <= 255.
Hypothesis Hnd : NoDup (keys (activations st)).
Hypothesis Hdist : others_distinct versionId (activations st).
Hypothesis Hfree : free_value_above versionId value (activations st).

Let pset := prioritySet (priorityMap value versionId (activations st)).
Let o := others versionId pset.
Let st' := freePriority value versionId st.








End FreePriorityCounted.



(** ** item_updater.cpp: freeSpace at its edges *)

(** X14.  Below the maximum [freeSpace] erases nothing: it returns the
    state it was given. *)
Theorem freeSpace_below_capacity (ACTIVE_BMC_MAX_ALLOWED : nat) (this : string)
  (st : ItemUpdater) (caller : Activation) :
  find this (activations st) = Some caller ->
  versions_cover (versions st) (activations st) ->
  (countActiveOrFailed st < ACTIVE_BMC_MAX_ALLOWED)%nat ->
  freeSpace ACTIVE_BMC_MAX_ALLOWED this st = Some st.
Proof.
  intros Hthis Hcov Hlt. unfold freeSpace. rewrite Hthis. simpl.
  destruct (collect_spec ACTIVE_BMC_MAX_ALLOWED (versionId caller) st Hcov)
    as (pq & Hcol & _). rewrite Hcol. simpl.
  apply Nat.leb_gt in Hlt. destruct pq; simpl; [reflexivity|]. now rewrite Hlt.
Qed.

Lemma evict_count_all (MAX : nat) (pq : list (Z * string)) (count : nat) :
  (MAX <= 1)%nat -> (List.length pq <= count)%nat ->
  evict_count MAX pq count = List.length pq.
Proof.
  intros Hmax. revert count.
  induction pq as [|x r IH]; intros count Hle; simpl in *; [reflexivity|].
  assert (E : (MAX <=? count)%nat = true) by (apply Nat.leb_le; lia).
  rewrite E. f_equal. apply IH. lia.
Qed.

(** X15.  When at most one image may be active, the functional image is not
    spared: [freeSpace] erases every active or failed image other than the
    caller, and keeps the caller and the images in any other state. *)
Theorem freeSpace_single_slot (ACTIVE_BMC_MAX_ALLOWED : nat) (this : string)
  (st : ItemUpdater) (caller : Activation) :
  (ACTIVE_BMC_MAX_ALLOWED <= 1)%nat ->
  registry_ok st ->
  find this (activations st) = Some caller ->
  exists st',
    freeSpace ACTIVE_BMC_MAX_ALLOWED this st = Some st' /\
    (forall k a, k <> this -> find k (activations st) = Some a ->
                 isActiveOrFailed a = true ->
                 find k (activations st') = None /\
                 find k (versions st') = None) /\
    (forall k a, find k (activations st) = Some a ->
                 k = this \/ isActiveOrFailed a = false ->
                 find k (activations st') = Some a /\
                 find k (versions st') = find k (versions st)).
Proof.
  intros Hmax Hok Hthis. set (MAX := ACTIVE_BMC_MAX_ALLOWED) in *.
  pose proof (registry_ok_cover st Hok) as Hcov.
  destruct Hok as [Hnd Hndv Hkey Hls].
  assert (Hself : versionId caller = this).
  { unfold keyed_by_versionId in Hkey. rewrite Forall_forall in Hkey.
    exact (Hkey _ (find_In _ _ _ Hthis)). }
  destruct (collect_spec MAX (versionId caller) st Hcov) as (pq & Hcol & Hperm & _).
  assert (Hlen : (List.length pq <= countActiveOrFailed st)%nat).
  { rewrite (Permutation_length Hperm). apply candidates_length. }
  set (ids := map snd pq).
  assert (Hfs : freeSpace MAX this st = Some (erase_each MAX ids st)).
  { unfold freeSpace. rewrite Hthis. simpl. rewrite Hcol. simpl.
    rewrite evict_fold, (evict_count_all MAX pq _ Hmax Hlen), firstn_all.
    reflexivity. }
  assert (Hone : (1 <? MAX)%nat = false) by (apply Nat.ltb_ge; exact Hmax).
  assert (Hnr : forall id, In id ids -> erase_refused MAX id st = false).
  { intros id _. unfold erase_refused.
    destruct (find id (versions st)); [|reflexivity].
    now rewrite Hone, andb_false_r. }
  destruct (erase_each_maps MAX ids st Hnr) as [Hacts Hvers].
  assert (Hids : forall k, In k ids <->
            exists a, find k (activations st) = Some a /\
                      isActiveOrFailed a = true /\ k <> this).
  { intros k. unfold ids. rewrite in_map_iff. split.
    - intros ([p k'] & Hk & Hin). simpl in Hk. subst k'.
      apply (Permutation_in _ Hperm) in Hin.
      destruct (candidates_In MAX _ st p k Hnd Hkey Hin) as (a & Ha & Hv & _ & Hc).
      apply is_candidate_true in Hc. destruct Hc as (Haf & Hne & _).
      exists a. repeat split; try assumption. congruence.
    - intros (a & Ha & Haf & Hne). exists (eviction_priority a, k).
      split; [reflexivity|].
      apply (Permutation_in _ (Permutation_sym Hperm)).
      unfold candidates, candidates_of. apply in_map_iff.
      exists (k, a). unfold keyed_by_versionId in Hkey.
      rewrite Forall_forall in Hkey.
      pose proof (Hkey _ (find_In _ _ _ Ha)) as Hk. simpl in Hk.
      split; [simpl; now rewrite Hk|].
      apply filter_In. split; [now apply find_In|]. simpl.
      unfold is_candidate. rewrite Haf, Hone, Hk. simpl.
      destruct (find k (versions st)); rewrite ?andb_false_r; simpl;
        apply negb_true_iff, String.eqb_neq; congruence. }
  exists (erase_each MAX ids st). split; [exact Hfs|]. split.
  - intros k a Hne Ha Haf.
    assert (Hin : In k ids) by (apply Hids; eauto).
    rewrite Hacts, Hvers. split; now apply find_erase_all_same.
  - intros k a Ha Hk.
    assert (Hni : ~ In k ids).
    { intros Hin. apply Hids in Hin. destruct Hin as (a' & Ha' & Haf & Hne).
      destruct Hk as [Hk|Hk]; [contradiction | congruence]. }
    rewrite Hacts, Hvers, !(find_erase_all_other _ _ _ Hni). auto.
Qed.

Lemma freeSpace_registry_ok (ACTIVE_BMC_MAX_ALLOWED : nat)
  (this : string) (st st' : ItemUpdater) :
  registry_ok st ->
  freeSpace ACTIVE_BMC_MAX_ALLOWED this st = Some st' ->
  registry_ok st'.
Proof.
  intros Hok. unfold freeSpace.
  destruct (find this (activations st)) as [caller|]; simpl; [|discriminate].
  destruct (collect ACTIVE_BMC_MAX_ALLOWED (versionId caller) st) as [[c pq]|];
    simpl; [|discriminate].
  intros [= <-]. rewrite evict_fold. now apply erase_each_preserves_registry_ok.
Qed.

(** X13.  [freeSpace] keeps the invariants of the registry. *)
Theorem freeSpace_preserves_registry_ok (ACTIVE_BMC_MAX_ALLOWED : nat)
  (this : string) (st st' : ItemUpdater) :
  registry_ok st ->
  freeSpace ACTIVE_BMC_MAX_ALLOWED this st = Some st' ->
  registry_ok st'.
Proof. exact (freeSpace_registry_ok ACTIVE_BMC_MAX_ALLOWED this st st'). Qed.

(** ** item_updater.cpp: image validation *)

Section ImageValidationFacts.

Variable file_good : string -> string -> bool.
Variable bmcFullImages : string.
Variable bmcImages : list string.

Lemma checkImage_iff (filePath : string) (imageList : list string) :
  checkImage file_good filePath imageList = true <->
  forall f, In f imageList -> file_good filePath f = true.
Proof.
  induction imageList as [|x l IH]; simpl.
  - split; [intros _ f [] | reflexivity].
  - destruct (file_good filePath x) eqn:E.
    + rewrite IH. split.
      * intros H f [<-|Hf]; auto.
      * intros H f Hf. apply H. now right.
    + split; [discriminate|]. intros H.
      rewrite (H x (or_introl eq_refl)) in E. discriminate.
Qed.

(** X16.  An image directory is ready exactly when it holds every file of
    the list found followed by the full image, or every partition image.
    The list is not reset on the first of these: it is left one entry
    longer; otherwise it is left as the list of the partition images. *)
Theorem validateSquashFSImage_ready_iff (filePath : string)
  (imageUpdateList : list string) :
  let r := validateSquashFSImage file_good bmcFullImages bmcImages filePath
             imageUpdateList in
  (fst r = ready <->
   (forall f, In f (imageUpdateList ++ [bmcFullImages]) ->
              file_good filePath f = true)
   \/ (forall f, In f bmcImages -> file_good filePath f = true)) /\
  ((forall f, In f (imageUpdateList ++ [bmcFullImages]) ->
              file_good filePath f = true) ->
   r = (ready, imageUpdateList ++ [bmcFullImages])) /\
  (~ (forall f, In f (imageUpdateList ++ [bmcFullImages]) ->
                file_good filePath f = true) ->
   snd r = bmcImages).
Proof.
  cbv zeta. unfold validateSquashFSImage.
  rewrite <- !checkImage_iff.
  destruct (checkImage file_good filePath (imageUpdateList ++ [bmcFullImages]))
    eqn:E1; simpl.
  - split; [tauto|]. split; [reflexivity|]. intros H. now elim H.
  - destruct (checkImage file_good filePath bmcImages) eqn:E2; simpl.
    + split; [tauto|]. split; [discriminate | reflexivity].
    + split; [|split; [discriminate | reflexivity]].
      split; [discriminate|]. intros [H|H]; discriminate.
Qed.

(** X17.  After a validation that did not pass on the first list, a later
    directory that lacks one of the partition images is invalid, whether or
    not it holds the full image. *)
Theorem validateSquashFSImage_after_partitions (dir1 dir2 : string)
  (imageUpdateList : list string) (missing : string) :
  checkImage file_good dir1 (imageUpdateList ++ [bmcFullImages]) = false ->
  In missing bmcImages ->
  file_good dir2 missing = false ->
  let l1 := snd (validateSquashFSImage file_good bmcFullImages bmcImages dir1
                   imageUpdateList) in
  l1 = bmcImages /\
  validateSquashFSImage file_good bmcFullImages bmcImages dir2 l1
  = (invalid, bmcImages).
Proof.
  intros H1 Hin Hbad. cbv zeta.
  assert (Hl : snd (validateSquashFSImage file_good bmcFullImages bmcImages dir1
                      imageUpdateList) = bmcImages).
  { unfold validateSquashFSImage. rewrite H1.
    destruct (checkImage file_good dir1 bmcImages); reflexivity. }
  rewrite Hl. split; [reflexivity|].
  assert (Hno : forall l, In missing l -> checkImage file_good dir2 l = false).
  { intros l Hl'. destruct (checkImage file_good dir2 l) eqn:E; [|reflexivity].
    rewrite checkImage_iff in E. rewrite (E _ Hl') in Hbad. discriminate. }
  unfold validateSquashFSImage.
  rewrite (Hno (bmcImages ++ [bmcFullImages]))
    by (apply in_or_app; now left).
  now rewrite (Hno bmcImages Hin).
Qed.

End ImageValidationFacts.

(** ** item_updater.cpp: field mode *)

Lemma fieldModeEnabled_cases (value : bool) (st : ItemUpdater) :
  ItemUpdater_fieldModeEnabled value st
  = if (value && negb (fieldModeEnabled st))%bool
    then Some (true, with_fieldMode true st,
               [StartUnit "obmc-flash-bmc-setenv@fieldmode\x3dtrue.service" "replace";
                StopUnit "usr-local.mount" "replace";
                MaskUnitFiles ["usr-local.mount"] false true])
    else if (negb value && fieldModeEnabled st)%bool then None
         else Some (fieldModeEnabled st, st, []).
Proof.
  unfold ItemUpdater_fieldModeEnabled.
  destruct value, (fieldModeEnabled st); reflexivity.
Qed.

(** X18.  Field mode is one way.  A write raises exactly when it asks to
    clear an enabled field mode; a write that returns gives back the value
    that is then stored, which is the old value or the value written; once
    enabled, a write changes nothing and calls nothing, and no sequence of
    writes disables it. *)
Theorem fieldMode_is_one_way (value : bool) (st : ItemUpdater)
  (values : list bool) :
  (ItemUpdater_fieldModeEnabled value st = None <->
   value = false /\ fieldModeEnabled st = true) /\
  (forall r st' calls,
      ItemUpdater_fieldModeEnabled value st = Some (r, st', calls) ->
      r = fieldModeEnabled st' /\
      fieldModeEnabled st' = (fieldModeEnabled st || value)%bool /\
      versions st' = versions st /\ activations st' = activations st /\
      assocs st' = assocs st /\ effects st' = effects st /\
      (fieldModeEnabled st = true -> st' = st /\ calls = [])) /\
  (fieldModeEnabled st = true -> fieldMode_writes values st = st) /\
  fieldModeEnabled (fieldMode_writes values st)
  = (fieldModeEnabled st || existsb (fun v => v) values)%bool.
Proof.
  split; [|split; [|split]].
  - rewrite fieldModeEnabled_cases.
    destruct value, (fieldModeEnabled st); simpl;
      split; try discriminate; try (intros [? ?]; discriminate); auto.
  - intros r st' calls. rewrite fieldModeEnabled_cases.
    destruct value, (fieldModeEnabled st) eqn:E; simpl; try discriminate;
      intros [= <- <- <-]; simpl; rewrite ?E; repeat split; auto; discriminate.
  - intros Hen. unfold fieldMode_writes.
    induction values as [|v vs IH]; simpl; [reflexivity|].
    rewrite fieldModeEnabled_cases, Hen.
    destruct v; simpl; exact IH.
  - unfold fieldMode_writes. revert st.
    induction values as [|v vs IH]; intros st; simpl.
    + now rewrite orb_false_r.
    + rewrite IH, fieldModeEnabled_cases.
      destruct v, (fieldModeEnabled st) eqn:E; simpl; rewrite ?E; reflexivity.
Qed.

(** X19.  [restoreFieldModeStatus] never raises and never disables: the
    field mode it leaves is the one it found, or enabled when the line read
    from the environment holds "fieldmode=true"; nothing else changes. *)
Theorem restoreFieldModeStatus_only_enables (envVar : string) (st : ItemUpdater) :
  exists st' calls,
    restoreFieldModeStatus envVar st = Some (st', calls) /\
    fieldModeEnabled st'
    = (fieldModeEnabled st || contains "fieldmode=true" envVar)%bool /\
    versions st' = versions st /\ activations st' = activations st /\
    assocs st' = assocs st /\ effects st' = effects st /\
    (fieldModeEnabled st = true -> st' = st /\ calls = []).
Proof.
  unfold restoreFieldModeStatus.
  destruct (contains "fieldmode=true" envVar).
  - rewrite fieldModeEnabled_cases.
    destruct (fieldModeEnabled st) eqn:E; simpl; eexists; eexists;
      (split; [reflexivity|]); simpl; rewrite ?E; repeat split; auto;
      discriminate.
  - exists st, []. rewrite orb_false_r. repeat split; auto.
Qed.

(** ** item_updater.cpp: createActivation *)

Lemma erase_insert_sorted {A} (k : string) (v : A) (m : list (string * A)) :
  map_erase k (insert_sorted k v m) = map_erase k m.
Proof.
  induction m as [|[k' v'] m IH]; simpl.
  - now rewrite String.eqb_refl.
  - destruct (String.ltb k k'); simpl.
    + now rewrite String.eqb_refl.
    + now rewrite IH.
Qed.

Lemma erase_map_insert {A} (k : string) (v : A) (m : list (string * A)) :
  find k m = None -> map_erase k (map_insert k v m) = m.
Proof.
  intros H. unfold map_insert. rewrite H, erase_insert_sorted.
  now apply erase_not_found.
Qed.

Lemma keyed_map_insert (k : string) (a : Activation)
  (acts : list (string * Activation)) :
  versionId a = k -> keyed_by_versionId acts ->
  keyed_by_versionId (map_insert k a acts).
Proof.
  intros Hk H. unfold map_insert. destruct (find k acts); [assumption|].
  unfold keyed_by_versionId in *.
  rewrite (insert_sorted_perm acts k a). constructor; assumption.
Qed.

Section CreateActivationFacts.

Variable VERSION_IFACE : string.
Variable FILEPATH_IFACE : string.
Variable EXTENDED_VERSION_IFACE : string.
Variable HOST_BIOS_UPGRADE : bool.
Variable convertVersionPurposeFromString : string -> option VersionPurpose.
Variable file_good : string -> string -> bool.
Variable bmcFullImages : string.
Variable bmcImages : list string.
Variable version_isFunctional : string -> bool.
Variable bmcInventoryPath : string.

Let read := read_interfaces VERSION_IFACE FILEPATH_IFACE EXTENDED_VERSION_IFACE
              HOST_BIOS_UPGRADE convertVersionPurposeFromString.
Let create := createActivation VERSION_IFACE FILEPATH_IFACE EXTENDED_VERSION_IFACE
                HOST_BIOS_UPGRADE convertVersionPurposeFromString file_good
                bmcFullImages bmcImages version_isFunctional bmcInventoryPath.

(** The status [createActivation] gives an image. *)
Let status (f : MessageFields) (imageUpdateList : list string)
  : ActivationStatus * list string :=
  match msg_purpose f with
  | BMC | System =>
      validateSquashFSImage file_good bmcFullImages bmcImages (msg_filePath f)
        imageUpdateList
  | _ => (ready, imageUpdateList)
  end.

Lemma createActivation_new (objPath : string)
  (interfaces : list (string * list (string * string)))
  (st : ItemUpdater) (imageUpdateList : list string)
  (f : MessageFields) (id : string) :
  read interfaces = Some f ->
  msg_version f <> "" -> msg_filePath f <> "" -> msg_purpose f <> Unknown ->
  after_last_slash objPath = Some id ->
  find id (activations st) = None ->
  create objPath interfaces st imageUpdateList
  = Some (mkRegistration
            (with_versions
               (map_insert id
                  (mkVersionClass (msg_version f) (msg_purpose f)
                     (version_isFunctional (msg_version f))))
               (with_activations
                  (map_insert id
                     (mkActivation id objPath
                        (match fst (status f imageUpdateList) with
                         | ready => Ready | invalid => Invalid end)
                        ReqNone None None false false false false)) st))
            (snd (status f imageUpdateList))
            (Some (match fst (status f imageUpdateList) with
                   | ready => [(ActivationAssociation, bmcInventoryPath)]
                   | invalid => []
                   end))).
Proof using Type.
  intros Hr Hv Hp Hu Hid Hnone. unfold create, createActivation.
  fold read. rewrite Hr. simpl.
  apply String.eqb_neq in Hv, Hp. rewrite Hv, Hp. simpl.
  assert (Hu' : VersionPurpose_eqb (msg_purpose f) Unknown = false)
    by (destruct (msg_purpose f); try reflexivity; now elim Hu).
  rewrite Hu', Hid, Hnone. unfold status.
  destruct (msg_purpose f);
    try destruct (validateSquashFSImage file_good bmcFullImages bmcImages
                    (msg_filePath f) imageUpdateList) as [res l];
    reflexivity.
Qed.

Lemma createActivation_ignored_eq (objPath : string)
  (interfaces : list (string * list (string * string)))
  (st : ItemUpdater) (imageUpdateList : list string) (f : MessageFields) :
  read interfaces = Some f ->
  msg_version f = "" \/ msg_filePath f = "" \/ msg_purpose f = Unknown \/
  after_last_slash objPath = None \/
  (exists id a, after_last_slash objPath = Some id /\
                find id (activations st) = Some a) ->
  create objPath interfaces st imageUpdateList
  = Some (mkRegistration st imageUpdateList None).
Proof using Type.
  intros Hr H. unfold create, createActivation. fold read. rewrite Hr. simpl.
  destruct ((msg_version f =? "")%string || (msg_filePath f =? "")%string
            || VersionPurpose_eqb (msg_purpose f) Unknown)%bool eqn:E;
    [reflexivity|].
  apply orb_false_iff in E. destruct E as [E E3].
  apply orb_false_iff in E. destruct E as [E1 E2].
  apply String.eqb_neq in E1, E2.
  destruct H as [H|[H|[H|[H|(id & a & Hid & Ha)]]]]; try contradiction.
  - rewrite H in E3. discriminate.
  - now rewrite H.
  - now rewrite Hid, Ha.
Qed.

(** X20.  [createActivation] changes nothing, and does not touch the image
    list, when the message lacks a version, a file path or an accepted
    purpose, when its object path has no slash, or when the id at the end
    of the path already has an activation: a repeated notification for a
    known image is ignored. *)
Theorem createActivation_ignored (objPath : string)
  (interfaces : list (string * list (string * string)))
  (st : ItemUpdater) (imageUpdateList : list string) (f : MessageFields) :
  read interfaces = Some f ->
  msg_version f = "" \/ msg_filePath f = "" \/ msg_purpose f = Unknown \/
  after_last_slash objPath = None \/
  (exists id a, after_last_slash objPath = Some id /\
                find id (activations st) = Some a) ->
  create objPath interfaces st imageUpdateList
  = Some (mkRegistration st imageUpdateList None).
Proof using Type.
  exact (createActivation_ignored_eq objPath interfaces st imageUpdateList f).
Qed.

(** X21.  A complete message for an id without activation registers it: the
    id gets an activation stored under it, with that id and the object
    path, in state [Ready] when the image passes validation or needs none
    and [Invalid] otherwise, without request or priority, and a version
    record; the inventory association is handed over exactly for [Ready];
    every other id, the associations of the updater and the log are left
    as they were. *)
Theorem createActivation_registers (objPath : string)
  (interfaces : list (string * list (string * string)))
  (st : ItemUpdater) (imageUpdateList : list string)
  (f : MessageFields) (id : string) :
  read interfaces = Some f ->
  msg_version f <> "" -> msg_filePath f <> "" -> msg_purpose f <> Unknown ->
  after_last_slash objPath = Some id ->
  find id (activations st) = None ->
  find id (versions st) = None ->
  exists r a,
    create objPath interfaces st imageUpdateList = Some r /\
    find id (activations (reg_updater r)) = Some a /\
    versionId a = id /\ path a = objPath /\
    requestedActivation a = ReqNone /\ redundancyPriority a = None /\
    (activation a = Ready \/ activation a = Invalid) /\
    (activation a = Ready <-> fst (status f imageUpdateList) = ready) /\
    (reg_associations r
     = Some (if Activations_eqb (activation a) Ready
             then [(ActivationAssociation, bmcInventoryPath)] else [])) /\
    find id (versions (reg_updater r))
    = Some (mkVersionClass (msg_version f) (msg_purpose f)
              (version_isFunctional (msg_version f))) /\
    (forall k, k <> id ->
       find k (activations (reg_updater r)) = find k (activations st) /\
       find k (versions (reg_updater r)) = find k (versions st)) /\
    assocs (reg_updater r) = assocs st /\
    effects (reg_updater r) = effects st /\
    reg_imageUpdateList r = snd (status f imageUpdateList).
Proof using Type.
  intros Hr Hv Hp Hu Hid Hnone Hvnone.
  rewrite (createActivation_new objPath interfaces st imageUpdateList f id
             Hr Hv Hp Hu Hid Hnone).
  eexists. eexists. split; [reflexivity|]. simpl.
  rewrite !find_map_insert, Hnone, Hvnone, String.eqb_refl.
  split; [reflexivity|]. simpl.
  split; [reflexivity|]. split; [reflexivity|]. split; [reflexivity|].
  split; [reflexivity|].
  split; [destruct (fst (status f imageUpdateList)); auto|].
  split; [destruct (fst (status f imageUpdateList)); split;
          reflexivity || discriminate|].
  split; [destruct (fst (status f imageUpdateList)); reflexivity|].
  split; [reflexivity|].
  split; [|repeat split; reflexivity].
  intros k Hk. rewrite !find_map_insert.
  apply String.eqb_neq in Hk. rewrite String.eqb_sym in Hk. rewrite Hk.
  destruct (find k (activations st)), (find k (versions st)); split; reflexivity.
Qed.

(** X22.  [createActivation] keeps the invariants of the registry. *)
Theorem createActivation_preserves_registry_ok (objPath : string)
  (interfaces : list (string * list (string * string)))
  (st : ItemUpdater) (imageUpdateList : list string) (r : Registration) :
  registry_ok st ->
  create objPath interfaces st imageUpdateList = Some r ->
  registry_ok (reg_updater r).
Proof using Type.
  intros Hok Hc.
  destruct (read interfaces) as [f|] eqn:Hr;
    [|unfold create, createActivation in Hc; fold read in Hc;
      rewrite Hr in Hc; discriminate].
  assert (Hsame : create objPath interfaces st imageUpdateList
                  = Some (mkRegistration st imageUpdateList None) ->
                  registry_ok (reg_updater r)).
  { intros H. rewrite H in Hc. injection Hc as <-. exact Hok. }
  destruct (String.eqb_spec (msg_version f) "") as [Ev|Ev];
    [apply Hsame, (createActivation_ignored_eq _ _ _ _ f Hr); auto|].
  destruct (String.eqb_spec (msg_filePath f) "") as [Ep|Ep];
    [apply Hsame, (createActivation_ignored_eq _ _ _ _ f Hr); auto|].
  destruct (VersionPurpose_eqb (msg_purpose f) Unknown) eqn:Eu.
  { apply Hsame, (createActivation_ignored_eq _ _ _ _ f Hr).
    right. right. left. destruct (msg_purpose f); try discriminate. reflexivity. }
  assert (Hu : msg_purpose f <> Unknown) by (intros H; rewrite H in Eu; discriminate).
  destruct (after_last_slash objPath) as [id|] eqn:Hid;
    [|apply Hsame, (createActivation_ignored_eq _ _ _ _ f Hr); auto].
  destruct (find id (activations st)) as [a|] eqn:Ha.
  { apply Hsame, (createActivation_ignored_eq _ _ _ _ f Hr).
    right. right. right. right. eauto. }
  rewrite (createActivation_new objPath interfaces st imageUpdateList f id
             Hr Ev Ep Hu Hid Ha) in Hc.
  injection Hc as <-. destruct Hok as [H1 H2 H3 H4]. constructor; simpl.
  - now apply NoDup_keys_map_insert.
  - now apply NoDup_keys_map_insert.
  - now apply keyed_map_insert.
  - intros k. simpl. rewrite !find_map_insert.
    specialize (H4 k).
    destruct (find k (versions st)), (find k (activations st));
      destruct (id =? k)%string; try tauto;
      split; try discriminate; intros H; try discriminate;
      (apply H4 in H; discriminate) || (apply H4; assumption) || idtac.
Qed.

(** X23.  Registration followed by [erase] of the same id gives back both
    maps, unless the erase is refused because the new version is the
    running one and more than one image may be active; associations whose
    path is not the object path are kept. *)
Theorem createActivation_then_erase (ACTIVE_BMC_MAX_ALLOWED : nat)
  (objPath : string) (interfaces : list (string * list (string * string)))
  (st : ItemUpdater) (imageUpdateList : list string)
  (f : MessageFields) (id : string) :
  read interfaces = Some f ->
  msg_version f <> "" -> msg_filePath f <> "" -> msg_purpose f <> Unknown ->
  after_last_slash objPath = Some id ->
  find id (activations st) = None ->
  find id (versions st) = None ->
  version_isFunctional (msg_version f) = false
  \/ (ACTIVE_BMC_MAX_ALLOWED <= 1)%nat ->
  exists r,
    create objPath interfaces st imageUpdateList = Some r /\
    let st' := erase ACTIVE_BMC_MAX_ALLOWED id (reg_updater r) in
    versions st' = versions st /\
    activations st' = activations st /\
    assocs st' = filter (fun x => negb (snd x =? objPath)%string) (assocs st) /\
    fieldModeEnabled st' = fieldModeEnabled st.
Proof using Type.
  intros Hr Hv Hp Hu Hid Hnone Hvnone Hnf.
  rewrite (createActivation_new objPath interfaces st imageUpdateList f id
             Hr Hv Hp Hu Hid Hnone).
  eexists. split; [reflexivity|]. cbv zeta. cbn [reg_updater].
  match goal with |- context [erase _ id ?s] => set (st1 := s) end.
  assert (Hnr : erase_refused ACTIVE_BMC_MAX_ALLOWED id st1 = false).
  { unfold erase_refused, st1. simpl.
    rewrite find_map_insert, Hvnone, String.eqb_refl. simpl.
    destruct Hnf as [->|Hmax]; [reflexivity|].
    apply Nat.ltb_ge in Hmax. rewrite Hmax. apply andb_false_r. }
  rewrite (erase_not_refused _ _ _ Hnr). unfold st1. simpl.
  rewrite !find_map_insert, Hnone, String.eqb_refl.
  rewrite (erase_map_insert _ _ _ Hnone), (erase_map_insert _ _ _ Hvnone).
  repeat split; reflexivity.
Qed.

End CreateActivationFacts.

(** ** activation.cpp: the paths of activation(Activating) *)

Lemma find_modify_others (this k : string) (f : Activation -> Activation)
  (st : ItemUpdater) :
  k <> this -> find k (activations (modify this f st)) = find k (activations st).
Proof. intros H. unfold modify. simpl. apply find_modify_other. congruence. Qed.

(** X24.  An image below the minimum ship level is not activated: with a
    passing or absent signature check and not on the host path,
    [activation(Activating)] reports [Incompatible] and sets [Failed]; it
    erases nothing, subscribes to nothing and writes nothing to flash, and
    it leaves the priority, the progress object and the transition guard of
    the activation as they were. *)
Theorem activating_rejected_by_minimum_ship_level (cfg : Config)
  (this : string) (st : ItemUpdater) (a : Activation) (v : VersionClass) :
  find this (activations st) = Some a ->
  cfg_WANT_SIGNATURE_VERIFY cfg = false
  \/ cfg_verifySignature cfg (versionId a) = true ->
  find (versionId a) (versions st) = Some v ->
  cfg_HOST_BIOS_UPGRADE cfg = false \/ purpose v <> Host ->
  msl_verify cfg (version v) = Some false ->
  exists st',
    Activation_activation cfg this Activating st = Some st' /\
    find this (activations st') = Some (set_activation Failed a) /\
    (forall k, k <> this -> find k (activations st') = find k (activations st)) /\
    versions st' = versions st /\
    assocs st' = assocs st /\
    effects st' = effects st ++ [report_Incompatible].
Proof.
  intros Ha Hsig Hv Hhost Hmsl. unfold Activation_activation. rewrite Ha. simpl.
  assert (Es : (cfg_WANT_SIGNATURE_VERIFY cfg
                && negb (cfg_verifySignature cfg (versionId a)))%bool = false)
    by (destruct Hsig as [-> | ->]; [reflexivity | apply andb_false_r]).
  rewrite Es. simpl. rewrite Hv. simpl.
  assert (Eh : (cfg_HOST_BIOS_UPGRADE cfg
                && VersionPurpose_eqb (purpose v) Host)%bool = false).
  { destruct Hhost as [-> | Hp]; [reflexivity|].
    destruct (purpose v); try apply andb_false_r. now elim Hp. }
  rewrite Eh, Hmsl. simpl.
  eexists. split; [reflexivity|]. unfold base_activation.
  split; [unfold modify; simpl; now rewrite find_modify_same, Ha|].
  split; [intros k Hk;
          exact (find_modify_others this k _ (emit report_Incompatible st) Hk)|].
  repeat split; reflexivity.
Qed.

(** X25.  A failed signature check is always reported.  In field mode it
    stops the activation: the state becomes [Failed] and nothing else
    happens.  Outside field mode the activation goes on exactly as a build
    without signature verification would from there. *)
Theorem signature_failure (cfg : Config) (this : string) (st : ItemUpdater)
  (a : Activation) :
  find this (activations st) = Some a ->
  cfg_WANT_SIGNATURE_VERIFY cfg = true ->
  cfg_verifySignature cfg (versionId a) = false ->
  (fieldModeEnabled st = true ->
   Activation_activation cfg this Activating st
   = Some (base_activation this Failed (emit report_InternalFailure st))) /\
  (fieldModeEnabled st = false ->
   Activation_activation cfg this Activating st
   = Activation_activation (without_signature_verify cfg) this Activating
       (emit report_InternalFailure st)).
Proof.
  intros Ha Hw Hs. unfold Activation_activation. simpl. rewrite Ha. simpl.
  rewrite Hw, Hs. simpl. split; intros Hf; rewrite Hf; reflexivity.
Qed.

Lemma onFlashWriteSuccess_assocs (cfg : Config) (this : string)
  (st st' : ItemUpdater) (a : Activation) :
  find this (activations st) = Some a ->
  onFlashWriteSuccess cfg this st = Some st' ->
  assocs st' = assocs st ++ [(ActiveAssociation, path a);
                             (UpdateableAssociation, path a)].
Proof.
  intros Ha. unfold onFlashWriteSuccess. rewrite Ha. simpl.
  destruct (activationProgress a); simpl; [|discriminate].
  destruct (find (versionId a) (versions st)) as [v|]; simpl; [|discriminate].
  intros [= <-].
  assert (Hnew : forall s, assocs (RedundancyPriority_new this 0 s) = assocs s).
  { intros s. unfold RedundancyPriority_new.
    destruct (find this (activations s)); [|reflexivity]. simpl.
    exact (proj1 (proj2 (proj2 (cascade_frame _ _ (0, _))))). }
  destruct (cfg_checkApplyTimeImmediate cfg); simpl;
    (destruct (redundancyPriority a); [|rewrite Hnew]); simpl;
    rewrite <- app_assoc; reflexivity.
Qed.

Lemma onFlashWriteSuccess_returns (cfg : Config) (this : string)
  (st : ItemUpdater) (a : Activation) (p : Z) (v : VersionClass) :
  find this (activations st) = Some a ->
  activationProgress a = Some p ->
  find (versionId a) (versions st) = Some v ->
  exists st', onFlashWriteSuccess cfg this st = Some st'.
Proof.
  intros Ha Hp Hv. unfold onFlashWriteSuccess. rewrite Ha. simpl.
  rewrite Hp. simpl. rewrite Hv. simpl. eauto.
Qed.

Lemma registry_ok_modify (this : string) (f : Activation -> Activation)
  (st : ItemUpdater) :
  (forall a, versionId (f a) = versionId a) ->
  registry_ok st -> registry_ok (modify this f st).
Proof.
  intros Hf [H1 H2 H3 H4]. constructor; simpl.
  - now rewrite keys_modify.
  - assumption.
  - clear H1 H4. unfold keyed_by_versionId in *.
    induction (activations st) as [|[k a] acts IH]; simpl; [constructor|].
    inversion H3 as [|? ? Hk Hr]; subst. simpl in Hk.
    destruct (k =? this)%string; constructor; simpl; auto.
    now rewrite Hf.
  - intros k. simpl. rewrite (H4 k). clear H1 H3 H4.
    destruct (string_dec this k) as [->|Hne].
    + rewrite find_modify_same. destruct (find k (activations st)); simpl;
        split; try discriminate; auto.
    + now rewrite find_modify_other.
Qed.

Lemma registry_ok_same_maps (st st' : ItemUpdater) :
  versions st' = versions st -> activations st' = activations st ->
  registry_ok st -> registry_ok st'.
Proof.
  intros Hv Ha [H1 H2 H3 H4].
  constructor; unfold lockstep; rewrite ?Hv, ?Ha; assumption.
Qed.

Lemma freeSpace_returns (MAX : nat) (this : string) (st : ItemUpdater)
  (a : Activation) :
  registry_ok st -> find this (activations st) = Some a ->
  exists st', freeSpace MAX this st = Some st'.
Proof.
  intros Hok Ha. unfold freeSpace. rewrite Ha. simpl.
  destruct (collect_spec MAX (versionId a) st (registry_ok_cover st Hok))
    as (pq & Hcol & _). rewrite Hcol. simpl. eauto.
Qed.

Lemma option_map_id_view (st : ItemUpdater) (id : string) :
  viewOf (fun a => a) st id = find id (activations st).
Proof. unfold viewOf. destruct (find id (activations st)); reflexivity. Qed.

(** Up to the flash write: what [activation(Activating)] has done when the
    checks pass, and how it goes on. *)
Lemma activating_reaches_flash_write (cfg : Config) (this : string)
  (st : ItemUpdater) (a : Activation) (v : VersionClass) :
  registry_ok st ->
  find this (activations st) = Some a ->
  cfg_WANT_SIGNATURE_VERIFY cfg = false
  \/ cfg_verifySignature cfg (versionId a) = true ->
  find (versionId a) (versions st) = Some v ->
  cfg_HOST_BIOS_UPGRADE cfg = false \/ purpose v <> Host ->
  msl_verify cfg (version v) = Some true ->
  let a1 := set_activationProgress (Some 10)
              (set_activationBlocksTransition true a) in
  exists st2,
    freeSpace (cfg_ACTIVE_BMC_MAX_ALLOWED cfg) this
      (modify this
         (fun a0 => set_activationProgress (Some 10)
                      (set_activationBlocksTransition true a0)) st) = Some st2 /\
    registry_ok st2 /\
    find this (activations st2) = Some a1 /\
    Activation_activation cfg this Activating st
    = (let st3 := emit (flashWrite (versionId a)) (emit systemd_Subscribe st2) in
       if cfg_UBIFS_OR_MMC_LAYOUT cfg
       then Some (base_activation this Activating st3)
       else st4 <- onFlashWriteSuccess cfg this st3 ;;
            Some (base_activation this Active st4)).
Proof.
  intros Hok Ha Hsig Hv Hhost Hmsl. cbv zeta.
  set (f := fun a0 => set_activationProgress (Some 10)
                        (set_activationBlocksTransition true a0)).
  set (st1 := modify this f st).
  assert (Hok1 : registry_ok st1)
    by (apply registry_ok_modify; [reflexivity | assumption]).
  assert (Ha1 : find this (activations st1) = Some (f a))
    by (unfold st1, modify; simpl; now rewrite find_modify_same, Ha).
  destruct (freeSpace_returns (cfg_ACTIVE_BMC_MAX_ALLOWED cfg) this st1 (f a)
              Hok1 Ha1) as (st2 & Hfs).
  assert (Hself : versionId (f a) = this).
  { destruct Hok1 as [_ _ Hkey _]. unfold keyed_by_versionId in Hkey.
    rewrite Forall_forall in Hkey. exact (Hkey _ (find_In _ _ _ Ha1)). }
  exists st2. split; [exact Hfs|].
  split; [exact (freeSpace_registry_ok _ _ _ _ Hok1 Hfs)|].
  split.
  { rewrite <- option_map_id_view.
    rewrite (viewOf_freeSpace (fun x => x) _ _ _ _ _ Ha1 Hself Hfs).
    now rewrite option_map_id_view. }
  unfold Activation_activation. rewrite Ha. simpl.
  assert (Es : (cfg_WANT_SIGNATURE_VERIFY cfg
                && negb (cfg_verifySignature cfg (versionId a)))%bool = false)
    by (destruct Hsig as [-> | ->]; [reflexivity | apply andb_false_r]).
  rewrite Es. simpl. rewrite Hv. simpl.
  assert (Eh : (cfg_HOST_BIOS_UPGRADE cfg
                && VersionPurpose_eqb (purpose v) Host)%bool = false).
  { destruct Hhost as [-> | Hp]; [reflexivity|].
    destruct (purpose v); try apply andb_false_r. now elim Hp. }
  rewrite Eh, Hmsl. simpl. fold f. fold st1. rewrite Hfs. reflexivity.
Qed.

(** X26.  On a layout that is written synchronously, an activation that
    passes the checks ends [Active] within the call: the activation holds a
    priority (0 when it had none), its progress object and transition
    guard are released, its flags are false, and the active and updateable
    associations of its path are the last two of the updater. *)
Theorem activation_static_layout_succeeds (cfg : Config) (this : string)
  (st : ItemUpdater) (a : Activation) (v : VersionClass) :
  registry_ok st ->
  find this (activations st) = Some a ->
  cfg_WANT_SIGNATURE_VERIFY cfg = false
  \/ cfg_verifySignature cfg (versionId a) = true ->
  find (versionId a) (versions st) = Some v ->
  cfg_HOST_BIOS_UPGRADE cfg = false \/ purpose v <> Host ->
  msl_verify cfg (version v) = Some true ->
  cfg_UBIFS_OR_MMC_LAYOUT cfg = false ->
  exists st' before,
    Activation_activation cfg this Activating st = Some st' /\
    stateOf st' this = Some Active /\
    priorityOf st' this
    = Some (match redundancyPriority a with Some p => p | None => 0 end) /\
    viewOf activationProgress st' this = Some None /\
    viewOf activationBlocksTransition st' this = Some false /\
    viewOf flags st' this = Some (false, false, false) /\
    assocs st' = before ++ [(ActiveAssociation, path a);
                            (UpdateableAssociation, path a)].
Proof.
  intros Hok Ha Hsig Hv Hhost Hmsl Hlayout.
  destruct (activating_reaches_flash_write cfg this st a v Hok Ha Hsig Hv Hhost
              Hmsl) as (st2 & _ & Hok2 & Ha2 & Hrun).
  cbv zeta in Hrun. rewrite Hlayout in Hrun.
  set (a1 := set_activationProgress (Some 10)
               (set_activationBlocksTransition true a)) in *.
  set (st3 := emit (flashWrite (versionId a)) (emit systemd_Subscribe st2)) in *.
  assert (Ha3 : find this (activations st3) = Some a1) by exact Ha2.
  assert (Hv3 : exists v3, find (versionId a1) (versions st3) = Some v3).
  { destruct Hok2 as [_ _ Hkey Hls]. unfold keyed_by_versionId in Hkey.
    rewrite Forall_forall in Hkey.
    assert (Hk : versionId a1 = this) by exact (Hkey _ (find_In _ _ _ Ha2)).
    change (versions st3) with (versions st2). rewrite Hk.
    destruct (find this (versions st2)) as [v3|] eqn:E; [eauto|].
    apply Hls in E. rewrite Ha2 in E. discriminate. }
  destruct Hv3 as (v3 & Hv3).
  destruct (onFlashWriteSuccess_returns cfg this st3 a1 10 v3 Ha3 eq_refl Hv3)
    as (st4 & Hok4).
  rewrite Hok4 in Hrun. simpl in Hrun.
  destruct (onFlashWriteSuccess_creates_priority cfg this st3 st4 a1 Ha3 Hok4)
    as (mid & Hmid & Hpm & Hp4 & Hs4).
  pose proof (onFlashWriteSuccess_flags cfg this st3 st4 Hok4) as Hf4.
  pose proof (onFlashWriteSuccess_assocs cfg this st3 st4 a1 Ha3 Hok4) as Has4.
  exists (base_activation this Active st4), (assocs st3).
  split; [exact Hrun|]. unfold base_activation.
  split.
  { change (viewOf activation (modify this (set_activation Active) st4) this
            = Some Active).
    rewrite (viewOf_modify_set activation this _ st4 Active) by (intros; reflexivity).
    change (viewOf activation st4 this = Some Active) in Hs4. now rewrite Hs4. }
  split.
  { rewrite priorityOf_view, viewOf_modify by (intros; reflexivity).
    rewrite <- priorityOf_view, Hp4, Hpm. reflexivity. }
  assert (Hpres : forall B (g : Activation -> B),
            exists c, viewOf g mid this = Some c).
  { intros B g. rewrite Hmid in Hf4.
    unfold activation_plain, base_activation, reset_priority_unless_active in Hf4.
    rewrite !viewOf_modify in Hf4 by (intros; reflexivity).
    exact (viewOf_present flags g _ _ _ Hf4). }
  split.
  { rewrite viewOf_modify by (intros; reflexivity). rewrite Hmid.
    unfold activation_plain, base_activation, reset_priority_unless_active.
    rewrite viewOf_modify by (intros; reflexivity).
    rewrite (viewOf_modify_set activationProgress this _ mid None)
      by (intros; reflexivity).
    destruct (Hpres _ activationProgress) as (c & ->). reflexivity. }
  split.
  { rewrite viewOf_modify by (intros; reflexivity). rewrite Hmid.
    unfold activation_plain, base_activation, reset_priority_unless_active.
    rewrite viewOf_modify by (intros; reflexivity).
    rewrite (viewOf_modify_set activationBlocksTransition this _ mid false)
      by (intros; reflexivity).
    destruct (Hpres _ activationBlocksTransition) as (c & ->). reflexivity. }
  split.
  { rewrite viewOf_modify by (intros; reflexivity). exact Hf4. }
  exact Has4.
Qed.

(** X27.  On a layout that reports completion later, an activation that
    passes the checks returns in state [Activating], with its progress at
    10 and the transition guard held, after it has made room, subscribed
    to the unit signals and started the flash write, in that order; its
    priority and flags are left as they were. *)
Theorem activation_async_layout_starts (cfg : Config) (this : string)
  (st : ItemUpdater) (a : Activation) (v : VersionClass) :
  registry_ok st ->
  find this (activations st) = Some a ->
  cfg_WANT_SIGNATURE_VERIFY cfg = false
  \/ cfg_verifySignature cfg (versionId a) = true ->
  find (versionId a) (versions st) = Some v ->
  cfg_HOST_BIOS_UPGRADE cfg = false \/ purpose v <> Host ->
  msl_verify cfg (version v) = Some true ->
  cfg_UBIFS_OR_MMC_LAYOUT cfg = true ->
  exists st2 st',
    freeSpace (cfg_ACTIVE_BMC_MAX_ALLOWED cfg) this
      (modify this
         (fun a0 => set_activationProgress (Some 10)
                      (set_activationBlocksTransition true a0)) st) = Some st2 /\
    Activation_activation cfg this Activating st = Some st' /\
    find this (activations st')
    = Some (set_activation Activating
              (set_activationProgress (Some 10)
                 (set_activationBlocksTransition true a))) /\
    effects st' = effects st2 ++ [systemd_Subscribe; flashWrite (versionId a)] /\
    versions st' = versions st2 /\ assocs st' = assocs st2 /\
    registry_ok st'.
Proof.
  intros Hok Ha Hsig Hv Hhost Hmsl Hlayout.
  destruct (activating_reaches_flash_write cfg this st a v Hok Ha Hsig Hv Hhost
              Hmsl) as (st2 & Hfs & Hok2 & Ha2 & Hrun).
  cbv zeta in Hrun. rewrite Hlayout in Hrun.
  eexists st2, _. split; [exact Hfs|]. split; [exact Hrun|].
  unfold base_activation. split.
  { unfold modify. simpl. now rewrite find_modify_same, Ha2. }
  split; [simpl; now rewrite <- app_assoc|].
  split; [reflexivity|]. split; [reflexivity|].
  apply registry_ok_modify; [reflexivity|].
  eapply registry_ok_same_maps; [| |exact Hok2]; reflexivity.
Qed.

(** X28.  With [HOST_BIOS_UPGRADE], the activation of a host image does
    not consult the minimum ship level and frees no space: it subscribes to
    the unit signals, sets the progress to 20, starts the host flash write
    and returns in state [Activating], without a transition guard, leaving
    every version record, every other activation and the associations as
    they were. *)
Theorem activating_host_image (cfg : Config) (this : string)
  (st : ItemUpdater) (a : Activation) (v : VersionClass) :
  find this (activations st) = Some a ->
  cfg_WANT_SIGNATURE_VERIFY cfg = false
  \/ cfg_verifySignature cfg (versionId a) = true ->
  find (versionId a) (versions st) = Some v ->
  cfg_HOST_BIOS_UPGRADE cfg = true ->
  purpose v = Host ->
  exists st',
    Activation_activation cfg this Activating st = Some st' /\
    find this (activations st')
    = Some (set_activation Activating (set_activationProgress (Some 20) a)) /\
    (forall k, k <> this -> find k (activations st') = find k (activations st)) /\
    versions st' = versions st /\
    assocs st' = assocs st /\
    effects st' = effects st ++ [systemd_Subscribe; flashWriteHost (versionId a)].
Proof.
  intros Ha Hsig Hv Hhost Hp. unfold Activation_activation. rewrite Ha. simpl.
  assert (Es : (cfg_WANT_SIGNATURE_VERIFY cfg
                && negb (cfg_verifySignature cfg (versionId a)))%bool = false)
    by (destruct Hsig as [-> | ->]; [reflexivity | apply andb_false_r]).
  rewrite Es. simpl. rewrite Hv. simpl. rewrite Hhost, Hp. simpl.
  eexists. split; [reflexivity|]. unfold base_activation.
  split; [unfold modify; simpl; now rewrite !find_modify_same, Ha|].
  split.
  { intros k Hk. rewrite find_modify_others by assumption.
    change (find k (activations (modify this (set_activationProgress (Some 20))
                                   (emit systemd_Subscribe st)))
            = find k (activations st)).
    now rewrite find_modify_others. }
  split; [reflexivity|]. split; [reflexivity|].
  simpl. now rewrite <- app_assoc.
Qed.

(** X29.  [removeAssociations] undoes the three [create...Association]
    calls: for a path that had no association, creating its active,
    functional and updateable associations and then removing the
    associations of the path gives back the updater.  In general it leaves
    no association of the path, keeps the others in their order, and a
    second call changes nothing. *)
Theorem removeAssociations_undoes_creation (p : string) (st : ItemUpdater) :
  ((forall kind, ~ In (kind, p) (assocs st)) ->
   removeAssociations p
     (createUpdateableAssociation p
        (createFunctionalAssociation p (createActiveAssociation p st))) = st) /\
  (forall kind, ~ In (kind, p) (assocs (removeAssociations p st))) /\
  (forall q, q <> p ->
     filter (fun x => (snd x =? q)%string) (assocs (removeAssociations p st))
     = filter (fun x => (snd x =? q)%string) (assocs st)) /\
  removeAssociations p (removeAssociations p st) = removeAssociations p st.
Proof.
  split; [|split; [|split]].
  - intros Hno. destruct st as [vs acts asc fm eff].
    unfold removeAssociations, createUpdateableAssociation,
      createFunctionalAssociation, createActiveAssociation, with_assocs.
    simpl in *. f_equal.
    rewrite !filter_app. simpl. rewrite String.eqb_refl. simpl.
    rewrite !app_nil_r.
    induction asc as [|[kind q] r IH]; simpl; [reflexivity|].
    destruct (q =? p)%string eqn:E.
    + apply String.eqb_eq in E. subst q. elim (Hno kind). now left.
    + simpl. f_equal. apply IH. intros kind' Hin. apply (Hno kind'). now right.
  - intros kind Hin. unfold removeAssociations in Hin. simpl in Hin.
    apply filter_In in Hin. destruct Hin as [_ Hin]. simpl in Hin.
    now rewrite String.eqb_refl in Hin.
  - intros q Hq. unfold removeAssociations. simpl.
    induction (assocs st) as [|[kind r] l IH]; simpl; [reflexivity|].
    destruct (r =? p)%string eqn:E; simpl.
    + apply String.eqb_eq in E. subst r.
      assert (E' : (p =? q)%string = false) by (apply String.eqb_neq; congruence).
      now rewrite E'.
    + destruct (r =? q)%string; [f_equal|]; exact IH.
  - destruct st as [vs acts asc fm eff].
    unfold removeAssociations, with_assocs. simpl. f_equal.
    induction asc as [|[kind q] r IH]; simpl; [reflexivity|].
    destruct (q =? p)%string eqn:E; simpl; [exact IH|].
    rewrite E. simpl. now f_equal.
Qed.

(** ** The further properties on the sample registries *)

Lemma lockstep_of_keys (st : ItemUpdater) :
  keys (versions st) = keys (activations st) -> lockstep st.
Proof.
  intros H k.
  assert (F : forall A (m : list (string * A)),
            find k m = None <-> ~ In k (keys m)).
  { intros A m. split; [|apply find_None_not_In].
    intros Hn Hin. unfold keys in Hin. apply in_map_iff in Hin.
    destruct Hin as ([k' v] & Hk & Hin). simpl in Hk. subst k'.
    induction m as [|[k0 v0] m IH]; simpl in *; [assumption|].
    destruct (k0 =? k)%string eqn:E; [discriminate|].
    destruct Hin as [Hin|Hin]; [|now apply IH].
    injection Hin as -> _. now rewrite String.eqb_refl in E. }
  rewrite !F, H. tauto.
Defined.

Lemma registry_ok_abc : registry_ok registry_abc.
Proof.
  constructor.
  - repeat constructor; simpl; intuition discriminate.
  - repeat constructor; simpl; intuition discriminate.
  - repeat constructor.
  - now apply lockstep_of_keys.
Defined.

Lemma registry_ok_abcd : registry_ok registry_abcd.
Proof.
  constructor.
  - repeat constructor; simpl; intuition discriminate.
  - repeat constructor; simpl; intuition discriminate.
  - repeat constructor.
  - now apply lockstep_of_keys.
Defined.

Lemma verify_monotone_witness :
  minimum_ship_level.verify "2.9.1" minimum_ship_level.dotted_pattern
    minimum_ship_level.dotted_search
    minimum_ship_level.uint8_of_int "2.10.0" = Some true.
Proof.
  apply (verify_monotone "2.9.1" minimum_ship_level.dotted_pattern
           minimum_ship_level.dotted_search
           minimum_ship_level.uint8_of_int "2.9.1" "2.10.0"
           (minimum_ship_level.mkVersion 2 9 1)
           (minimum_ship_level.mkVersion 2 10 0)).
  - reflexivity.
  - reflexivity.
  - vm_compute. discriminate.
  - reflexivity.
Defined.

Lemma verify_unmatched_witness :
  minimum_ship_level.verify "2.9.1" minimum_ship_level.dotted_pattern
    minimum_ship_level.dotted_search
    minimum_ship_level.uint8_of_int "unknown" = Some false
  /\ minimum_ship_level.verify "unknown" minimum_ship_level.dotted_pattern
       minimum_ship_level.dotted_search
       minimum_ship_level.uint8_of_int "2.9.1" = Some true.
Proof.
  split.
  - destruct (verify_unmatched "2.9.1" minimum_ship_level.dotted_pattern
                minimum_ship_level.dotted_search
                minimum_ship_level.uint8_of_int "unknown") as [H _].
    + discriminate.
    + discriminate.
    + destruct (H (minimum_ship_level.mkVersion 2 9 1)) as [_ H2].
      * reflexivity.
      * simpl; lia.
      * simpl; lia.
      * simpl; lia.
      * reflexivity.
      * apply H2. discriminate.
  - destruct (verify_unmatched "unknown" minimum_ship_level.dotted_pattern
                minimum_ship_level.dotted_search
                minimum_ship_level.uint8_of_int "2.9.1") as [_ H].
    + discriminate.
    + discriminate.
    + apply (H (minimum_ship_level.mkVersion 2 9 1)).
      * reflexivity.
      * reflexivity.
      * simpl; lia.
      * simpl; lia.
      * simpl; lia.
Defined.

Lemma erase_leaves_others_witness :
  find "a" (activations (erase 2 "b" registry_abc))
  = find "a" (activations registry_abc)
  /\ find "c" (versions (erase 2 "b" registry_abc))
     = find "c" (versions registry_abc).
Proof.
  split.
  - apply (erase_leaves_others 2 "b" "a" registry_abc). discriminate.
  - apply (erase_leaves_others 2 "b" "c" registry_abc). discriminate.
Defined.

Lemma erase_preserves_registry_ok_witness :
  registry_ok (erase 2 "b" registry_abc).
Proof.
  apply (erase_preserves_registry_ok 2 "b" registry_abc). exact registry_ok_abc.
Defined.

Lemma deleteAll_keeps_functional_witness :
  (forall k v, find k (versions (deleteAll 2 registry_abc)) = Some v <->
               find k (versions registry_abc) = Some v /\ isFunctional v = true)
  /\ find "b" (activations (deleteAll 2 registry_abc)) = None.
Proof.
  destruct (deleteAll_keeps_functional 2 registry_abc) as (H1 & H2 & _).
  - repeat constructor; simpl; intuition discriminate.
  - split; [exact H1|].
    apply (H2 "b" (sample_version "2.9.2" false)); reflexivity.
Defined.

Lemma resetUbootEnvVars_selects_minimum_witness :
  exists a p,
    redundancyPriority a = Some p /\
    resetUbootEnvVars registry_abc
    = emit (helper_updateUbootVersionId (versionId a)) registry_abc.
Proof.
  destruct (resetUbootEnvVars_selects_minimum registry_abc "b"
              (sample_activation "b" Active (Some 1)) 1)
    as (l1 & k & a & l2 & p & _ & Hp & Hr & _).
  - exact priorities_uint8_abc.
  - right. now left.
  - reflexivity.
  - exists a, p. split; assumption.
Defined.

Lemma isLowestPriority_of_boot_target_witness :
  exists k a p,
    In (k, a) (activations registry_abc) /\ redundancyPriority a = Some p /\
    lowestPriorityVersion (activations registry_abc) = versionId a /\
    isLowestPriority p registry_abc = true.
Proof.
  apply (isLowestPriority_of_boot_target registry_abc "b"
           (sample_activation "b" Active (Some 1)) 1).
  - exact priorities_uint8_abc.
  - right. now left.
  - reflexivity.
Defined.

Lemma NoDup_keys_b0 : NoDup (keys (activations registry_b0)).
Proof. repeat constructor; simpl; intuition discriminate. Defined.

Lemma freePriority_changes_priorities_only_witness :
  versions (freePriority 0 "b" registry_b0) = versions registry_b0
  /\ map forget_priority (activations (freePriority 0 "b" registry_b0))
     = map forget_priority (activations registry_b0)
  /\ priorityOf (freePriority 0 "b" registry_b0) "b" = priorityOf registry_b0 "b".
Proof.
  destruct (freePriority_changes_priorities_only 0 "b" registry_b0 NoDup_keys_b0)
    as (H1 & _ & _ & H4 & H5 & _).
  split; [exact H1|]. split; [exact H4 | exact H5].
Defined.

Lemma freePriority_without_collision_witness :
  exists w,
    freePriority 7 "c" registry_abc
    = emit (helper_updateUbootVersionId w) registry_abc.
Proof.
  apply (freePriority_without_collision 7 "c" registry_abc).
  - repeat constructor; simpl; intuition discriminate.
  - intros k _. unfold priorityOf. cbn -[String.eqb].
    case_key k; discriminate.
Defined.

Lemma freePriority_boot_target_is_self_iff_witness :
  bootTarget (effects (freePriority 0 "b" registry_b0)) = Some "b" <->
  forall k p, k <> "b" -> priorityOf registry_b0 k = Some p -> 0 <= p.
Proof.
  apply (freePriority_boot_target_is_self_iff 0 "b" registry_b0).
  repeat constructor; simpl; intuition discriminate.
Defined.

Lemma priority_setter_resolves_witness :
  let st' := RedundancyPriority_priority "b" 0 registry_abc in
  (forall k1 k2 p,
      priorityOf st' k1 = Some p -> priorityOf st' k2 = Some p -> k1 = k2) /\
  exists w pw log,
    effects st' = log ++ [helper_updateUbootVersionId w] /\
    priorityOf st' w = Some pw /\
    forall k p, priorityOf st' k = Some p -> pw <= p.
Proof.
  apply (priority_setter_resolves "b" 0 registry_abc
           (sample_activation "b" Active (Some 1))).
  - lia.
  - repeat constructor; simpl; intuition discriminate.
  - reflexivity.
  - reflexivity.
  - intros k1 k2 p H1 H2. unfold prio_in. cbn -[String.eqb].
    case_key k1; case_key k2; intros; subst; congruence.
  - exists 1. split; [lia|]. intros k Hk. unfold prio_in. cbn -[String.eqb].
    case_key k; intros; subst; congruence.
Defined.

Lemma freeSpace_preserves_registry_ok_witness :
  registry_ok (erase 2 "b" (erase 2 "c" registry_abcd)).
Proof.
  apply (freeSpace_preserves_registry_ok 2 "d" registry_abcd).
  - exact registry_ok_abcd.
  - reflexivity.
Defined.

Lemma versions_cover_abc :
  versions_cover (versions registry_abc) (activations registry_abc).
Proof.
  intros k a [H|[H|[H|[]]]] _; injection H as <- <-; discriminate.
Defined.

Lemma freeSpace_below_capacity_witness :
  countActiveOrFailed registry_abc = 3%nat
  /\ candidates 4 "c" registry_abc = [(1, "b")]
  /\ freeSpace 4 "c" registry_abc = Some registry_abc.
Proof.
  split; [reflexivity|]. split; [reflexivity|].
  apply (freeSpace_below_capacity 4 "c" registry_abc
           (sample_activation "c" Failed None)).
  - reflexivity.
  - exact versions_cover_abc.
  - vm_compute. lia.
Defined.

Lemma freeSpace_single_slot_witness :
  exists st',
    freeSpace 1 "d" registry_abcd = Some st' /\
    find "a" (activations st') = None /\ find "a" (versions st') = None /\
    find "d" (activations st') = Some (sample_activation "d" Ready None).
Proof.
  destruct (freeSpace_single_slot 1 "d" registry_abcd
              (sample_activation "d" Ready None)) as (st' & Hf & He & Hk).
  - lia.
  - exact registry_ok_abcd.
  - reflexivity.
  - exists st'. split; [exact Hf|].
    destruct (He "a" (sample_activation "a" Active (Some 0))) as [H1 H2];
      [discriminate | reflexivity | reflexivity |].
    split; [exact H1|]. split; [exact H2|].
    apply (Hk "d" (sample_activation "d" Ready None)); [reflexivity | now left].
Defined.

Lemma validateSquashFSImage_after_partitions_witness :
  let l1 := snd (validateSquashFSImage sample_file_good sample_bmcFullImages
                   sample_bmcImages "/tmp/images/p" []) in
  l1 = sample_bmcImages /\
  validateSquashFSImage sample_file_good sample_bmcFullImages sample_bmcImages
    "/tmp/images/f" l1 = (invalid, sample_bmcImages).
Proof.
  apply (validateSquashFSImage_after_partitions sample_file_good
           sample_bmcFullImages sample_bmcImages "/tmp/images/p" "/tmp/images/f"
           [] "image-kernel").
  - reflexivity.
  - now left.
  - reflexivity.
Defined.

Lemma createActivation_ignored_witness :
  sample_createActivation "/xyz/openbmc_project/software/b" sample_interfaces
    registry_abc []
  = Some (mkRegistration registry_abc [] None).
Proof.
  apply (createActivation_ignored "xyz.openbmc_project.Software.Version"
           "xyz.openbmc_project.Common.FilePath"
           "xyz.openbmc_project.Software.ExtendedVersion" false sample_convert
           sample_file_good sample_bmcFullImages sample_bmcImages (fun _ => false)
           "/xyz/openbmc_project/inventory/system/chassis/bmc"
           "/xyz/openbmc_project/software/b" sample_interfaces registry_abc []
           (mkMessageFields BMC "2.9.5" "/tmp/images/p" "")).
  - reflexivity.
  - right. right. right. right.
    exists "b", (sample_activation "b" Active (Some 1)). split; reflexivity.
Defined.

Lemma createActivation_registers_witness :
  exists r a,
    sample_createActivation "/xyz/openbmc_project/software/e" sample_interfaces
      registry_abc [] = Some r /\
    find "e" (activations (reg_updater r)) = Some a /\
    versionId a = "e" /\ activation a = Ready /\
    reg_imageUpdateList r = sample_bmcImages.
Proof.
  destruct (createActivation_registers "xyz.openbmc_project.Software.Version"
              "xyz.openbmc_project.Common.FilePath"
              "xyz.openbmc_project.Software.ExtendedVersion" false sample_convert
              sample_file_good sample_bmcFullImages sample_bmcImages
              (fun _ => false)
              "/xyz/openbmc_project/inventory/system/chassis/bmc"
              "/xyz/openbmc_project/software/e" sample_interfaces registry_abc []
              (mkMessageFields BMC "2.9.5" "/tmp/images/p" "") "e")
    as (r & a & Hc & Hf & Hid & _ & _ & _ & _ & Hready & _ & _ & _ & _ & _ & Hl);
    try reflexivity; try discriminate.
  exists r, a. split; [exact Hc|]. split; [exact Hf|]. split; [exact Hid|].
  split; [apply Hready; reflexivity | exact Hl].
Defined.

Lemma createActivation_preserves_registry_ok_witness :
  exists r,
    sample_createActivation "/xyz/openbmc_project/software/e" sample_interfaces
      registry_abc [] = Some r /\
    registry_ok (reg_updater r).
Proof.
  eexists. split; [reflexivity|].
  apply (createActivation_preserves_registry_ok
           "xyz.openbmc_project.Software.Version"
           "xyz.openbmc_project.Common.FilePath"
           "xyz.openbmc_project.Software.ExtendedVersion" false sample_convert
           sample_file_good sample_bmcFullImages sample_bmcImages (fun _ => false)
           "/xyz/openbmc_project/inventory/system/chassis/bmc"
           "/xyz/openbmc_project/software/e" sample_interfaces registry_abc []).
  - exact registry_ok_abc.
  - reflexivity.
Defined.

Lemma createActivation_then_erase_witness :
  exists r,
    sample_createActivation "/xyz/openbmc_project/software/e" sample_interfaces
      registry_abc [] = Some r /\
    versions (erase 2 "e" (reg_updater r)) = versions registry_abc /\
    activations (erase 2 "e" (reg_updater r)) = activations registry_abc.
Proof.
  destruct (createActivation_then_erase "xyz.openbmc_project.Software.Version"
              "xyz.openbmc_project.Common.FilePath"
              "xyz.openbmc_project.Software.ExtendedVersion" false sample_convert
              sample_file_good sample_bmcFullImages sample_bmcImages
              (fun _ => false)
              "/xyz/openbmc_project/inventory/system/chassis/bmc" 2
              "/xyz/openbmc_project/software/e" sample_interfaces registry_abc []
              (mkMessageFields BMC "2.9.5" "/tmp/images/p" "") "e")
    as (r & Hc & Hv & Ha & _);
    try reflexivity; try discriminate; [now left|].
  exists r. split; [exact Hc|]. split; [exact Hv | exact Ha].
Defined.

Lemma activating_rejected_by_minimum_ship_level_witness :
  exists st',
    Activation_activation config_msl "o" Activating registry_old = Some st' /\
    find "o" (activations st')
    = Some (set_activation Failed (sample_activation "o" Ready None)) /\
    effects st' = effects registry_old ++ [report_Incompatible].
Proof.
  destruct (activating_rejected_by_minimum_ship_level config_msl "o"
              registry_old (sample_activation "o" Ready None)
              (sample_version "1.0.0" false))
    as (st' & H1 & H2 & _ & _ & _ & H6).
  - reflexivity.
  - now left.
  - reflexivity.
  - now left.
  - reflexivity.
  - exists st'. split; [exact H1|]. split; [exact H2 | exact H6].
Defined.

Lemma signature_failure_witness :
  Activation_activation config_signed "d" Activating registry_abcd
  = Activation_activation (without_signature_verify config_signed) "d"
      Activating (emit report_InternalFailure registry_abcd).
Proof.
  apply (signature_failure config_signed "d" registry_abcd
           (sample_activation "d" Ready None)); reflexivity.
Defined.

Lemma activation_static_layout_succeeds_witness :
  exists st' before,
    Activation_activation config_static "d" Activating registry_abcd = Some st' /\
    stateOf st' "d" = Some Active /\
    priorityOf st' "d" = Some 0 /\
    viewOf activationProgress st' "d" = Some None /\
    viewOf activationBlocksTransition st' "d" = Some false /\
    viewOf flags st' "d" = Some (false, false, false) /\
    assocs st' = before ++ [(ActiveAssociation, "/xyz/openbmc_project/software/d");
                            (UpdateableAssociation,
                             "/xyz/openbmc_project/software/d")].
Proof.
  apply (activation_static_layout_succeeds config_static "d" registry_abcd
           (sample_activation "d" Ready None) (sample_version "2.9.4" false)).
  - exact registry_ok_abcd.
  - reflexivity.
  - now left.
  - reflexivity.
  - now left.
  - reflexivity.
  - reflexivity.
Defined.

Lemma activation_async_layout_starts_witness :
  exists st2 st',
    freeSpace 2 "d"
      (modify "d"
         (fun a0 => set_activationProgress (Some 10)
                      (set_activationBlocksTransition true a0)) registry_abcd)
    = Some st2 /\
    Activation_activation config_msl "d" Activating registry_abcd = Some st' /\
    find "d" (activations st')
    = Some (set_activation Activating
              (set_activationProgress (Some 10)
                 (set_activationBlocksTransition true
                    (sample_activation "d" Ready None)))) /\
    effects st' = effects st2 ++ [systemd_Subscribe; flashWrite "d"].
Proof.
  destruct (activation_async_layout_starts config_msl "d" registry_abcd
              (sample_activation "d" Ready None) (sample_version "2.9.4" false))
    as (st2 & st' & H1 & H2 & H3 & H4 & _).
  - exact registry_ok_abcd.
  - reflexivity.
  - now left.
  - reflexivity.
  - now left.
  - reflexivity.
  - reflexivity.
  - exists st2, st'. split; [exact H1|]. split; [exact H2|].
    split; [exact H3 | exact H4].
Defined.

Lemma activating_host_image_witness :
  exists st',
    Activation_activation config_host "h" Activating registry_host = Some st' /\
    find "h" (activations st')
    = Some (set_activation Activating
              (set_activationProgress (Some 20)
                 (sample_activation "h" Ready None))) /\
    effects st' = effects registry_host ++ [systemd_Subscribe; flashWriteHost "h"].
Proof.
  destruct (activating_host_image config_host "h" registry_host
              (sample_activation "h" Ready None)
              (mkVersionClass "1.0.0" Host false))
    as (st' & H1 & H2 & _ & _ & _ & H6); try reflexivity; [now left|].
  exists st'. split; [exact H1|]. split; [exact H2 | exact H6].
Defined.

Lemma compare_is_total_order_witness :
  minimum_ship_level.compare (minimum_ship_level.mkVersion 2 10 0)
    (minimum_ship_level.mkVersion 2 9 1)
  = - minimum_ship_level.compare (minimum_ship_level.mkVersion 2 9 1)
        (minimum_ship_level.mkVersion 2 10 0).
Proof.
  exact (proj1 (proj2 (compare_is_total_order
                         (minimum_ship_level.mkVersion 2 9 1)
                         (minimum_ship_level.mkVersion 2 10 0)
                         (minimum_ship_level.mkVersion 2 10 0)))).
Defined.

Lemma validateSquashFSImage_ready_iff_witness :
  validateSquashFSImage sample_file_good sample_bmcFullImages sample_bmcImages
    "/tmp/images/f" []
  = (ready, [sample_bmcFullImages]).
Proof.
  apply (validateSquashFSImage_ready_iff sample_file_good sample_bmcFullImages
           sample_bmcImages "/tmp/images/f" []).
  intros f [<-|[]]. reflexivity.
Defined.

Lemma fieldMode_is_one_way_witness :
  ItemUpdater_fieldModeEnabled false (with_fieldMode true registry_abc) = None
  /\ fieldModeEnabled (fieldMode_writes [true; false] registry_abc) = true.
Proof.
  split.
  - destruct (fieldMode_is_one_way false (with_fieldMode true registry_abc) [])
      as [H _].
    apply H. split; reflexivity.
  - destruct (fieldMode_is_one_way true registry_abc [true; false])
      as (_ & _ & _ & H).
    exact H.
Defined.

Lemma restoreFieldModeStatus_only_enables_witness :
  exists st' calls,
    restoreFieldModeStatus "bootargs=quiet fieldmode=true" registry_abc
    = Some (st', calls) /\
    fieldModeEnabled st' = true.
Proof.
  destruct (restoreFieldModeStatus_only_enables "bootargs=quiet fieldmode=true"
              registry_abc) as (st' & calls & H1 & H2 & _).
  exists st', calls. split; [exact H1 | exact H2].
Defined.

Lemma removeAssociations_undoes_creation_witness :
  removeAssociations "/xyz/openbmc_project/software/x"
    (createUpdateableAssociation "/xyz/openbmc_project/software/x"
       (createFunctionalAssociation "/xyz/openbmc_project/software/x"
          (createActiveAssociation "/xyz/openbmc_project/software/x"
             registry_fresh)))
  = registry_fresh.
Proof.
  destruct (removeAssociations_undoes_creation "/xyz/openbmc_project/software/x"
              registry_fresh) as [H _].
  apply H. intros kind [E|[]]. discriminate E.
Defined.
